(** * qihuo: metrics calculator and behaviour detector

    A shallow embedding of [MetricsCalculator] ([src/calculator/metrics.py])
    and of [BehaviorDetector] ([src/detector/behavior_detector.py]), and
    the properties of the analytics engine checked against it; then of
    their callers: the two functions of [SupabaseUploader]
    ([src/db/supabase_uploader.py]) that call the calculator, and the
    risk section of [src/export_data.py].  The Excel parser and the
    database client are not embedded; the client is an oracle that tells
    which requests go through.

    Numbers.  A finite float is a rational number ([Q]), with no
    overflow and a single unsigned zero.  In the calculator, whose
    results are reported rounded to a few decimals, the arithmetic is
    exact.  In the detector, where a comparison of two floats decides
    the severity of an alert or whether there is an alert at all, every
    operation rounds to a double through the interface [FloatArith];
    [round] to a number of decimals is exact throughout.  Columns of a
    pandas [DataFrame] that the code divides without a guard can also
    hold the IEEE special values, so they are modelled by [pfloat], the
    rationals extended with [+inf], [-inf] and [NaN].  The numeric
    fields of position and trade dicts are finite ([Q]): the parser
    fills every missing cell with [0].

    Errors.  The functions that return [Optional] results are embedded
    in an error monad, so that a Python exception (a division by zero on
    Python numbers, an index out of range) is a value [Raise] of the
    embedding and its absence is a theorem.

    Containers.  A [DataFrame] is the list of its rows, a column the list
    of its values, a [dict] an association list in insertion order; a
    loop that appends to a list is a [flat_map].  A frame has its
    columns also when it has no row; the frame that pandas builds from
    an empty list of records has none, and the properties of the
    functions that read a column before any guard are stated for a
    frame with at least one row.  [list.sort] and [sorted] are stable,
    and are a stable insertion sort; [DataFrame.sort_values] is not, and
    is the interface [SortValues].

    Strings are byte strings, the UTF-8 text of the Python strings;
    [String.ltb] is the byte-wise lexicographic order, which on UTF-8
    text is Python's code point order.  What [str.upper] and
    [str.isalpha] do outside ASCII is left to the interface
    [ContractRoot]. *)

From Stdlib Require Import String Ascii.
From Stdlib Require Import QArith Qround Qabs Qpower ZArith List Bool.
From Stdlib Require Import Permutation Sorted Lia Lqa.
From Stdlib Require OrdersEx.
Import ListNotations.

Local Open Scope string_scope.
Local Open Scope list_scope.
Local Open Scope Q_scope.

(** ** Numbers *)

Definition Qltb (x y : Q) : bool := negb (Qle_bool y x).

(** Rationals with the IEEE special values of a float64 column. *)
Inductive pfloat : Type :=
| Fin (q : Q)
| PInf
| NInf
| NaN.

Definition pf_isnan (x : pfloat) : bool :=
  match x with NaN => true | _ => false end.

Definition pf_opp (x : pfloat) : pfloat :=
  match x with
  | Fin q => Fin (- q)
  | PInf => NInf
  | NInf => PInf
  | NaN => NaN
  end.

Definition pf_add (x y : pfloat) : pfloat :=
  match x, y with
  | NaN, _ | _, NaN => NaN
  | Fin a, Fin b => Fin (a + b)
  | PInf, NInf | NInf, PInf => NaN
  | PInf, _ | _, PInf => PInf
  | NInf, _ | _, NInf => NInf
  end.

Definition pf_sub (x y : pfloat) : pfloat := pf_add x (pf_opp y).

(** [s * inf] for a finite [s]: the sign of [s] decides, [0 * inf] is NaN. *)
Definition pf_scale_inf (s : Q) (inf : pfloat) : pfloat :=
  match Qcompare s 0 with
  | Eq => NaN
  | Gt => inf
  | Lt => pf_opp inf
  end.

Definition pf_mul (x y : pfloat) : pfloat :=
  match x, y with
  | NaN, _ | _, NaN => NaN
  | Fin a, Fin b => Fin (a * b)
  | Fin a, i | i, Fin a => pf_scale_inf a i
  | PInf, PInf | NInf, NInf => PInf
  | PInf, NInf | NInf, PInf => NInf
  end.

(** numpy division: a zero divisor gives an infinity of the sign of the
    dividend, and [0 / 0] is NaN; nothing is raised. *)
Definition pf_div (x y : pfloat) : pfloat :=
  match x, y with
  | NaN, _ | _, NaN => NaN
  | Fin a, Fin b =>
      if Qeq_bool b 0
      then match Qcompare a 0 with Eq => NaN | Gt => PInf | Lt => NInf end
      else Fin (a / b)
  | Fin _, _ => Fin 0
  | PInf, Fin b => if Qltb b 0 then NInf else PInf
  | NInf, Fin b => if Qltb b 0 then PInf else NInf
  | _, _ => NaN
  end.

(** Comparisons: every comparison with NaN is false, except [!=]. *)
Definition pf_ltb (x y : pfloat) : bool :=
  match x, y with
  | NaN, _ | _, NaN => false
  | Fin a, Fin b => Qltb a b
  | NInf, NInf => false
  | NInf, _ => true
  | _, NInf => false
  | PInf, _ => false
  | Fin _, PInf => true
  end.

Definition pf_eqb (x y : pfloat) : bool :=
  match x, y with
  | Fin a, Fin b => Qeq_bool a b
  | PInf, PInf | NInf, NInf => true
  | _, _ => false
  end.

Definition pf_leb (x y : pfloat) : bool := pf_ltb x y || pf_eqb x y.
Definition pf_gtb (x y : pfloat) : bool := pf_ltb y x.
Definition pf_neb (x y : pfloat) : bool := negb (pf_eqb x y).

(** [np.maximum]: NaN propagates. *)
Definition pf_maximum (x y : pfloat) : pfloat :=
  match x, y with
  | NaN, _ | _, NaN => NaN
  | _, _ => if pf_ltb x y then y else x
  end.

(** Python's builtin [max(a, b)] and [min(a, b)]: the first argument is
    kept unless the second compares strictly beyond it, so a NaN second
    argument is dropped. *)
Definition py_max (a b : pfloat) : pfloat := if pf_gtb b a then b else a.
Definition py_min (a b : pfloat) : pfloat := if pf_ltb b a then b else a.

(** Python's [round(x, ndigits)]: to the nearest multiple of
    [10^-ndigits], an exact tie going to the even one. *)
Definition round_half_even (x : Q) : Z :=
  let f := Qfloor x in
  match Qcompare (x - inject_Z f) (1 # 2) with
  | Lt => f
  | Gt => (f + 1)%Z
  | Eq => if Z.even f then f else (f + 1)%Z
  end.

Definition py_round (x : Q) (ndigits : nat) : Q :=
  let s := inject_Z (10 ^ Z.of_nat ndigits) in
  inject_Z (round_half_even (x * s)) / s.

(** [round] of a numpy float keeps NaN and the infinities. *)
Definition pf_round (x : pfloat) (ndigits : nat) : pfloat :=
  match x with
  | Fin q => Fin (py_round q ndigits)
  | _ => x
  end.

(** Python's [sum]: left to right from [0]. *)
Definition Qsum (l : list Q) : Q := fold_left Qplus l 0.

(** The behaviour detector decides between categories by comparing
    Python floats, which are IEEE doubles.  A double is a rational
    number; an arithmetic operation gives the double nearest to its
    exact result, [fl_round] of it, and a decimal literal such as [0.05]
    stands for the double nearest to that decimal.  [Series.sum] adds in
    an order that numpy chooses (in blocks, pairwise), so the sum is left
    to the interface as well: it is 0 for no number and, for one
    number, that number as a double.  Of the rounding only what holds of
    round-to-nearest is assumed: it is monotone and odd, and it leaves
    unchanged a number that is a double, such as one with a numerator of
    at most 53 bits over a power of two.  Numbers beyond the range of a
    double are left out. *)
Class FloatArith : Type := {
  fl_round : Q -> Q;
  fl_sum : list Q -> Q;
  fl_round_mono : forall x y, x <= y -> fl_round x <= fl_round y;
  fl_round_opp : forall x, fl_round (- x) == - fl_round x;
  fl_round_dyadic : forall (m : Z) (n : nat),
    (Z.abs m <= 2 ^ 53)%Z -> (n <= 1074)%nat ->
    fl_round (inject_Z m / inject_Z (2 ^ Z.of_nat n))
    == inject_Z m / inject_Z (2 ^ Z.of_nat n);
  fl_sum_nil : fl_sum [] == 0;
  fl_sum_one : forall x, fl_sum [x] == fl_round x
}.

(** [x - y] and [x / y] on floats. *)
Definition fl_sub {D : FloatArith} (x y : Q) : Q := fl_round (x - y).
Definition fl_div {D : FloatArith} (x y : Q) : Q := fl_round (x / y).

(** *** IEEE binary64

    The rounding of the doubles themselves, to compute with; that it
    is an instance of the interface is shown with the properties. *)

(** [floor (log2 |x|)], for [x] other than 0. *)
Definition Qilog2 (x : Q) : Z :=
  let d := (Z.log2 (Z.abs (Qnum x)) - Z.log2 (Zpos (Qden x)))%Z in
  if Qle_bool (2 ^ d) (Qabs x) then d else (d - 1)%Z.

(** The exponent of the last bit of the double nearest to [x]: 52 below
    that of its first bit, and no less than -1074. *)
Definition binary64_exp (x : Q) : Z := Z.max (Qilog2 x - 52) (-1074).

(** The multiple of [2 ^ e] nearest to [x], the even one at a tie. *)
Definition round_at (e : Z) (x : Q) : Q :=
  inject_Z (round_half_even (x / 2 ^ e)) * 2 ^ e.

(** The double nearest to [x], by IEEE round-to-nearest with ties to
    even, for [x] within the range of the doubles. *)
Definition binary64 (x : Q) : Q := round_at (binary64_exp x) x.

(** A sum of doubles taken from left to right, as numpy adds a column
    of a few numbers. *)
Definition binary64_sum (l : list Q) : Q :=
  fold_left (fun acc x => binary64 (acc + x)) l 0.

(** The square root of numpy ([np.sqrt], and the one inside
    [Series.std]) is not a rational function: the embedding takes it as
    an interface, of which only non-negativity is used. *)
Class Sqrt : Type := {
  q_sqrt : Q -> Q;
  q_sqrt_nonneg : forall x, 0 <= q_sqrt x
}.

Definition np_sqrt {S : Sqrt} (x : pfloat) : pfloat :=
  match x with
  | Fin q => if Qltb q 0 then NaN else Fin (q_sqrt q)
  | PInf => PInf
  | _ => NaN
  end.

(** ** Python errors *)

Inductive py_error : Type := ZeroDivisionError | IndexError.

(** The outcome of a Python call: a value, or a raised exception. *)
Inductive exn (A : Type) : Type :=
| Return (a : A)
| Raise (e : py_error).

Arguments Return {A} a.
Arguments Raise {A} e.

Definition bind {A B : Type} (m : exn A) (k : A -> exn B) : exn B :=
  match m with
  | Return a => k a
  | Raise e => Raise e
  end.

Notation "x <- m ;; k" := (bind m (fun x => k))
  (at level 61, m at next level, right associativity).

(** [a / b] on Python floats raises on a zero divisor. *)
Definition py_truediv (a b : pfloat) : exn pfloat :=
  if pf_eqb b (Fin 0) then Raise ZeroDivisionError else Return (pf_div a b).

Definition q_truediv (a b : Q) : exn Q :=
  if Qeq_bool b 0 then Raise ZeroDivisionError else Return (a / b).

(** [l[i]] on a Python list. *)
Definition py_index {A : Type} (l : list A) (i : nat) : exn A :=
  match nth_error l i with
  | Some a => Return a
  | None => Raise IndexError
  end.

(** [s.iloc[-1]] *)
Definition iloc_last {A : Type} (l : list A) : exn A :=
  match rev l with
  | a :: _ => Return a
  | [] => Raise IndexError
  end.

(** ** Generic list helpers *)

Definition is_empty {A : Type} (l : list A) : bool :=
  match l with [] => true | _ => false end.

Fixpoint map2 {A B C : Type} (f : A -> B -> C) (l1 : list A) (l2 : list B)
  : list C :=
  match l1, l2 with
  | a :: l1', b :: l2' => f a b :: map2 f l1' l2'
  | _, _ => []
  end.

(** A stable insertion sort.  [before x y = true] when [x] must come
    strictly before [y]; an element is inserted behind everything that
    must come before it and in front of its ties, which follow it in the
    input. *)
Section StableSort.
Context {A : Type} (before : A -> A -> bool).

Fixpoint insert_sorted (x : A) (l : list A) : list A :=
  match l with
  | [] => [x]
  | y :: l' => if before y x then y :: insert_sorted x l' else x :: y :: l'
  end.

Definition stable_sort (l : list A) : list A :=
  fold_right insert_sorted [] l.
End StableSort.

(** [Series.unique()]: the distinct values in order of first appearance. *)
Fixpoint unique (l : list string) : list string :=
  match l with
  | [] => []
  | x :: l' => x :: filter (fun y => negb (String.eqb y x)) (unique l')
  end.

(** [sorted(strings)] *)
Definition sorted_str (l : list string) : list string :=
  stable_sort String.ltb l.

(** [sorted(values, reverse=True)] *)
Definition sorted_reverse (l : list Q) : list Q :=
  stable_sort (fun x y => Qltb y x) l.

(** ** Records

    Only the keys that the two modules read are kept; the dicts built by
    [equity_to_dict], [position_to_dict] and [trade_to_dict] carry more. *)

Module DailyEquity.
Record t : Type := mk {
  strategy_code : string;
  trade_date : string;
  deposit_withdraw : pfloat;
  equity : pfloat;
  margin_used : pfloat
}.
End DailyEquity.

Module Position.
Record t : Type := mk {
  strategy_code : string;
  trade_date : string;
  contract : string;
  long_qty : Z;
  short_qty : Z;
  prev_settlement : Q;
  settlement : Q;
  floating_pnl : Q;
  position_value : Q
}.
End Position.

Module Trade.
Record t : Type := mk {
  strategy_code : string;
  trade_date : string;
  contract : string;
  direction : string;
  offset_flag : string;
  price : Q;
  quantity : Z;
  amount : Q
}.
End Trade.

Module PerformanceMetrics.
Record t : Type := mk {
  strategy_code : string;
  calc_date : string;
  total_return : pfloat;
  annualized_return : pfloat;
  sharpe_ratio : pfloat;
  max_drawdown : pfloat;
  calmar_ratio : pfloat;
  win_rate : pfloat;
  volatility : pfloat;
  avg_margin_ratio : pfloat;
  performance_score : pfloat;
  risk_score : pfloat;
  total_score : pfloat
}.
End PerformanceMetrics.

Module DailyMetrics.
Record t : Type := mk {
  strategy_code : string;
  trade_date : string;
  margin_ratio : pfloat;
  long_exposure : Q;
  short_exposure : Q;
  net_exposure : pfloat;
  gross_exposure : pfloat;
  total_position_value : Q;
  top1_concentration : Q;
  top3_concentration : Q;
  position_count : nat;
  trade_count : nat;
  turnover : Q
}.
End DailyMetrics.

(** ** pandas column operations *)

(** [s.shift(1)]: every value moves one row down, the first row is NaN. *)
Definition shift1 (s : list pfloat) : list pfloat :=
  firstn (length s) (NaN :: s).

(** [s.cumprod()] and [s.cummax()] with the default [skipna=True]: a NaN
    row is NaN in the result and does not touch the running value. *)
Fixpoint cum_from (op : pfloat -> pfloat -> pfloat) (acc : pfloat)
  (s : list pfloat) : list pfloat :=
  match s with
  | [] => []
  | x :: s' =>
      if pf_isnan x then NaN :: cum_from op acc s'
      else let acc' := op acc x in acc' :: cum_from op acc' s'
  end.

Definition cumprod (s : list pfloat) : list pfloat := cum_from pf_mul (Fin 1) s.
Definition cummax (s : list pfloat) : list pfloat := cum_from pf_maximum NInf s.

Definition dropna (s : list pfloat) : list pfloat :=
  filter (fun x => negb (pf_isnan x)) s.

Definition pf_sum (s : list pfloat) : pfloat := fold_left pf_add s (Fin 0).

Definition pf_of_nat (n : nat) : pfloat := Fin (inject_Z (Z.of_nat n)).

(** [s.mean()]: over the rows that are not NaN; NaN when there is none. *)
Definition series_mean (s : list pfloat) : pfloat :=
  let v := dropna s in
  pf_div (pf_sum v) (pf_of_nat (length v)).

(** [s.max()]: over the rows that are not NaN; NaN when there is none. *)
Definition series_max (s : list pfloat) : pfloat :=
  match dropna s with
  | [] => NaN
  | x :: v => fold_left pf_maximum v x
  end.

(** [s.std()]: the sample standard deviation (ddof = 1) of the rows that
    are not NaN; NaN when fewer than two are left. *)
Definition series_std {S : Sqrt} (s : list pfloat) : pfloat :=
  let v := dropna s in
  let n := length v in
  if (n <=? 1)%nat then NaN
  else
    let avg := pf_div (pf_sum v) (pf_of_nat n) in
    let sqr := pf_sum (map (fun x => let d := pf_sub avg x in pf_mul d d) v) in
    np_sqrt (pf_div sqr (pf_of_nat (n - 1))).

(** [(s > 0).sum()], [(s != 0).sum()] *)
Definition count_if (p : pfloat -> bool) (s : list pfloat) : nat :=
  length (filter p s).

(** [df['trade_date'].max()] *)
Definition str_max (l : list string) : string :=
  match l with
  | [] => EmptyString
  | x :: l' => fold_left (fun m d => if String.ltb m d then d else m) l' x
  end.

(** ** MetricsCalculator *)

Record MetricsCalculator : Type := { risk_free_rate : Q }.

(** The frame returned by [calculate_daily_returns], column by column. *)
Module Returns.
Record t : Type := mk {
  rows : list DailyEquity.t;
  prev_equity : list pfloat;
  daily_return : list pfloat;
  cumulative_return : list pfloat;
  running_max : list pfloat;
  drawdown : list pfloat;
  max_drawdown : list pfloat
}.
End Returns.

(** The first of two equity records is not dated after the second. *)
Definition date_le (a b : DailyEquity.t) : Prop :=
  String.ltb (DailyEquity.trade_date b) (DailyEquity.trade_date a) = false.

(** [equity_df.sort_values('trade_date')].  pandas sorts with its
    default quicksort, which is not stable: the order in which the
    records of one trade date come out is not specified.  The sort is
    therefore an interface, of which only this is known: the result is
    a permutation of the frame, in the order of the trade dates. *)
Class SortValues : Type := {
  sort_values_trade_date : list DailyEquity.t -> list DailyEquity.t;
  sort_values_perm :
    forall df, Permutation df (sort_values_trade_date df);
  sort_values_sorted :
    forall df, StronglySorted date_le (sort_values_trade_date df)
}.

(** One such sort, to compute with: the stable one. *)
Definition stable_sort_trade_date (df : list DailyEquity.t)
  : list DailyEquity.t :=
  stable_sort
    (fun a b => String.ltb (DailyEquity.trade_date a) (DailyEquity.trade_date b))
    df.

Definition fillna0 (x : pfloat) : pfloat := if pf_isnan x then Fin 0 else x.

Definition calculate_daily_returns {O : SortValues}
  (equity_df : list DailyEquity.t)
  : Returns.t :=
  let df := sort_values_trade_date equity_df in
  let equity := map DailyEquity.equity df in
  let deposit_withdraw := map DailyEquity.deposit_withdraw df in
  let prev_equity := shift1 equity in
  let daily_return :=
    map2 pf_div
      (map2 pf_sub (map2 pf_sub equity prev_equity) deposit_withdraw)
      prev_equity in
  let daily_return := map fillna0 daily_return in
  let cumulative_return :=
    map (fun x => pf_sub x (Fin 1))
      (cumprod (map (fun r => pf_add (Fin 1) r) daily_return)) in
  let running_max := cummax equity in
  let drawdown := map2 pf_div (map2 pf_sub running_max equity) running_max in
  let max_drawdown := cummax drawdown in
  Returns.mk df prev_equity daily_return cumulative_return running_max
    drawdown max_drawdown.

Definition _calculate_performance_score
  (total_return sharpe max_drawdown win_rate : pfloat) : pfloat :=
  let return_score :=
    py_min (Fin 40)
      (py_max (Fin 0) (pf_mul (pf_add total_return (Fin 0.05)) (Fin 200))) in
  let sharpe_score :=
    py_min (Fin 30) (py_max (Fin 0) (pf_mul sharpe (Fin 15))) in
  let drawdown_score :=
    py_max (Fin 0) (pf_sub (Fin 20) (pf_mul max_drawdown (Fin 100))) in
  let winrate_score := pf_mul win_rate (Fin 10) in
  pf_add (pf_add (pf_add return_score sharpe_score) drawdown_score)
    winrate_score.

Definition _calculate_risk_score
  (avg_margin_ratio volatility max_drawdown : pfloat) : pfloat :=
  let margin_score :=
    py_max (Fin 0) (pf_sub (Fin 40) (pf_mul avg_margin_ratio (Fin 80))) in
  let vol_score :=
    py_max (Fin 0) (pf_sub (Fin 30) (pf_mul volatility (Fin 60))) in
  let drawdown_score :=
    py_max (Fin 0) (pf_sub (Fin 30) (pf_mul max_drawdown (Fin 150))) in
  pf_add (pf_add margin_score vol_score) drawdown_score.

Definition calculate_performance {O : SortValues}
  {S : Sqrt} (self : MetricsCalculator)
  (equity_df : list DailyEquity.t) (strategy_code : string)
  : exn (option PerformanceMetrics.t) :=
  if (length equity_df <? 2)%nat then Return None
  else
    let df := calculate_daily_returns equity_df in
    let calc_date := str_max (map DailyEquity.trade_date (Returns.rows df)) in
    total_return <- iloc_last (Returns.cumulative_return df) ;;
    let trading_days := length (Returns.rows df) in
    annualized_return <-
      (if (0 <? trading_days)%nat
       then r <- q_truediv 252 (inject_Z (Z.of_nat trading_days)) ;;
            Return (pf_mul total_return (Fin r))
       else Return (Fin 0)) ;;
    let daily_std := series_std (Returns.daily_return df) in
    let volatility :=
      if negb (pf_isnan daily_std) then pf_mul daily_std (np_sqrt (Fin 252))
      else Fin 0 in
    let excess_return := pf_sub annualized_return (Fin (risk_free_rate self)) in
    let sharpe_ratio :=
      if pf_gtb volatility (Fin 0) then pf_div excess_return volatility
      else Fin 0 in
    let max_drawdown := series_max (Returns.max_drawdown df) in
    let calmar_ratio :=
      if pf_gtb max_drawdown (Fin 0) then pf_div annualized_return max_drawdown
      else Fin 0 in
    let win_days :=
      count_if (fun r => pf_gtb r (Fin 0)) (Returns.daily_return df) in
    let total_days :=
      count_if (fun r => pf_neb r (Fin 0)) (Returns.daily_return df) in
    let win_rate :=
      if (0 <? total_days)%nat
      then pf_div (pf_of_nat win_days) (pf_of_nat total_days)
      else Fin 0 in
    let avg_margin_ratio :=
      series_mean
        (map2 pf_div (map DailyEquity.margin_used (Returns.rows df))
           (map DailyEquity.equity (Returns.rows df))) in
    let avg_margin_ratio :=
      if pf_isnan avg_margin_ratio then Fin 0 else avg_margin_ratio in
    let performance_score :=
      _calculate_performance_score total_return sharpe_ratio max_drawdown
        win_rate in
    let risk_score :=
      _calculate_risk_score avg_margin_ratio volatility max_drawdown in
    let total_score :=
      pf_add (pf_mul performance_score (Fin 0.5)) (pf_mul risk_score (Fin 0.5)) in
    Return (Some (PerformanceMetrics.mk
      strategy_code
      calc_date
      (pf_round total_return 6)
      (pf_round annualized_return 6)
      (pf_round sharpe_ratio 4)
      (pf_round max_drawdown 6)
      (pf_round calmar_ratio 4)
      (pf_round win_rate 4)
      (pf_round volatility 6)
      (pf_round avg_margin_ratio 4)
      (pf_round performance_score 2)
      (pf_round risk_score 2)
      (pf_round total_score 2))).

(** *** Daily risk metrics *)

(** [str.upper] and [str.isalpha] on the characters of ASCII. *)
Definition ascii_upper (c : ascii) : ascii :=
  let n := nat_of_ascii c in
  if ((97 <=? n) && (n <=? 122))%nat then ascii_of_nat (n - 32) else c.

Definition ascii_isalpha (c : ascii) : bool :=
  let n := nat_of_ascii c in
  (((65 <=? n) && (n <=? 90)) || ((97 <=? n) && (n <=? 122)))%nat.

Fixpoint str_upper (s : string) : string :=
  match s with
  | EmptyString => EmptyString
  | String c s' => String (ascii_upper c) (str_upper s')
  end.

Fixpoint str_filter (p : ascii -> bool) (s : string) : string :=
  match s with
  | EmptyString => EmptyString
  | String c s' => if p c then String c (str_filter p s') else str_filter p s'
  end.

(** [str.isascii] *)
Definition ascii_isascii (c : ascii) : bool := (nat_of_ascii c <? 128)%nat.

Fixpoint str_isascii (s : string) : bool :=
  match s with
  | EmptyString => true
  | String c s' => ascii_isascii c && str_isascii s'
  end.

(** [''.join(filter(str.isalpha, contract.upper()))].  Python applies
    [str.upper] and [str.isalpha] to Unicode code points, by tables that
    are no part of this program: a letter of any script counts as a
    letter, and is kept.  A string here is the UTF-8 text of the Python
    string; on an ASCII contract the expression gives the letters of the
    contract in upper case, and what it gives on a contract with a
    character outside ASCII is left to the interface. *)
Class ContractRoot : Type := {
  contract_base : string -> string;
  contract_base_ascii : forall contract,
    str_isascii contract = true ->
    contract_base contract = str_filter ascii_isalpha (str_upper contract)
}.

(** The expression with the ASCII tables alone, to compute with on ASCII
    contracts. *)
Definition ascii_contract_base (contract : string) : string :=
  str_filter ascii_isalpha (str_upper contract).

Definition ascii_contract_root : ContractRoot :=
  {| contract_base := ascii_contract_base;
     contract_base_ascii := fun _ _ => eq_refl |}.

(** A Python dict with string keys, in insertion order. *)
Definition dict (V : Type) : Type := list (string * V).

Fixpoint dict_get {V : Type} (k : string) (d : dict V) : option V :=
  match d with
  | [] => None
  | (k', v) :: d' => if String.eqb k' k then Some v else dict_get k d'
  end.

(** [d[k] = v]: an existing key keeps its place, a new one goes last. *)
Fixpoint dict_set {V : Type} (k : string) (v : V) (d : dict V) : dict V :=
  match d with
  | [] => [(k, v)]
  | (k', v') :: d' =>
      if String.eqb k' k then (k', v) :: d' else (k', v') :: dict_set k v d'
  end.

(** [if k not in d: d[k] = 0] followed by [d[k] += value]. *)
Definition dict_add (k : string) (value : Q) (d : dict Q) : dict Q :=
  match dict_get k d with
  | None => dict_set k (0 + value) d
  | Some v => dict_set k (v + value) d
  end.

(** The three accumulators of the loop over the positions. *)
Record exposures : Type := {
  long_exposure : Q;
  short_exposure : Q;
  position_values : dict Q
}.

Definition exposure_step {K : ContractRoot}
  (trade_date : string) (st : exposures)
  (pos : Position.t) : exposures :=
  if negb (String.eqb (Position.trade_date pos) trade_date) then st
  else
    let value := Position.position_value pos in
    let contract_base := contract_base (Position.contract pos) in
    let long_exposure :=
      if (0 <? Position.long_qty pos)%Z then long_exposure st + value
      else long_exposure st in
    let short_exposure :=
      if (0 <? Position.short_qty pos)%Z then short_exposure st + value
      else short_exposure st in
    {| long_exposure := long_exposure;
       short_exposure := short_exposure;
       position_values := dict_add contract_base value (position_values st) |}.

Definition exposure_loop {K : ContractRoot}
  (trade_date : string) (positions : list Position.t)
  : exposures :=
  fold_left (exposure_step trade_date) positions
    {| long_exposure := 0; short_exposure := 0; position_values := [] |}.

Definition calculate_daily_metrics {K : ContractRoot}
  (equity_row : DailyEquity.t)
  (positions : list Position.t) (trades : list Trade.t)
  : exn (option DailyMetrics.t) :=
  let strategy_code := DailyEquity.strategy_code equity_row in
  let trade_date := DailyEquity.trade_date equity_row in
  let equity := DailyEquity.equity equity_row in
  if pf_leb equity (Fin 0) then Return None
  else
    margin_ratio <-
      (if pf_gtb equity (Fin 0)
       then py_truediv (DailyEquity.margin_used equity_row) equity
       else Return (Fin 0)) ;;
    let st := exposure_loop trade_date positions in
    let long_exposure := long_exposure st in
    let short_exposure := short_exposure st in
    let position_values := position_values st in
    let total_position_value := long_exposure + short_exposure in
    net_exposure <-
      (if pf_gtb equity (Fin 0)
       then py_truediv (Fin (long_exposure - short_exposure)) equity
       else Return (Fin 0)) ;;
    gross_exposure <-
      (if pf_gtb equity (Fin 0)
       then py_truediv (Fin total_position_value) equity
       else Return (Fin 0)) ;;
    conc <-
      (if negb (is_empty position_values)
       then
         let sorted_values := sorted_reverse (map snd position_values) in
         top1_concentration <-
           (if Qltb 0 total_position_value
            then s0 <- py_index sorted_values 0 ;;
                 q_truediv s0 total_position_value
            else Return 0) ;;
         let top3_sum := Qsum (firstn 3 sorted_values) in
         top3_concentration <-
           (if Qltb 0 total_position_value
            then q_truediv top3_sum total_position_value
            else Return 0) ;;
         Return (top1_concentration, top3_concentration,
                 length position_values)
       else Return (0, 0, 0%nat)) ;;
    let '(top1_concentration, top3_concentration, position_count) := conc in
    let day_trades :=
      filter (fun t => String.eqb (Trade.trade_date t) trade_date) trades in
    let trade_count := length day_trades in
    let turnover := Qsum (map Trade.amount day_trades) in
    Return (Some (DailyMetrics.mk
      strategy_code
      trade_date
      (pf_round margin_ratio 4)
      (py_round long_exposure 2)
      (py_round short_exposure 2)
      (pf_round net_exposure 6)
      (pf_round gross_exposure 6)
      (py_round total_position_value 2)
      (py_round top1_concentration 4)
      (py_round top3_concentration 4)
      position_count
      trade_count
      (py_round turnover 2))).

(** ** BehaviorDetector *)

Module BehaviorAlert.
(** The [details] dict of an alert; its keys depend on the alert type. *)
Inductive payload : Type :=
| FloatingLoss (floating_pnl loss_ratio : Q) (add_quantity : Z)
    (add_direction : string) (add_price position_value : Q)
| CounterTrend (direction : string) (price_change change_pct : Q)
    (quantity : Z) (price settlement prev_settlement : Q).

(** [description], a formatted message for the reader, is left out. *)
Record t : Type := mk {
  strategy_code : string;
  trade_date : string;
  alert_type : string;
  severity : string;
  contract : string;
  details : payload
}.
End BehaviorAlert.

Definition OPEN : string := "开仓".
Definition BUY : string := "买".
Definition SELL : string := "卖".

Definition floating_loss_severity {D : FloatArith} (loss_ratio : Q) : string :=
  if Qltb (fl_round 0.05) loss_ratio then "high"
  else if Qltb (fl_round 0.02) loss_ratio then "medium"
  else "low".

(** The body of the loop over the day's opening trades. *)
Definition floating_loss_check {D : FloatArith}
  (strategy_code trade_date : string)
  (day_positions : list Position.t) (trade : Trade.t)
  : list BehaviorAlert.t :=
  let contract := Trade.contract trade in
  let contract_positions :=
    filter (fun p => String.eqb (Position.contract p) contract)
      day_positions in
  if is_empty contract_positions then []
  else
    let total_floating_pnl :=
      fl_sum (map Position.floating_pnl contract_positions) in
    if Qltb total_floating_pnl 0 then
      let position_value :=
        fl_sum (map Position.position_value contract_positions) in
      let loss_ratio :=
        if Qltb 0 position_value
        then fl_div (Qabs total_floating_pnl) position_value
        else 0 in
      let severity := floating_loss_severity loss_ratio in
      [BehaviorAlert.mk strategy_code trade_date "floating_loss_add"
         severity contract
         (BehaviorAlert.FloatingLoss
            (py_round total_floating_pnl 2)
            (py_round loss_ratio 4)
            (Trade.quantity trade)
            (Trade.direction trade)
            (Trade.price trade)
            (py_round position_value 2))]
    else [].

Definition detect_floating_loss_add {D : FloatArith}
  (positions : list Position.t)
  (trades : list Trade.t) (equity_data : list DailyEquity.t)
  : list BehaviorAlert.t :=
  if is_empty positions || is_empty trades then []
  else
    let all_dates := sorted_str (unique (map Position.trade_date positions)) in
    flat_map (fun strategy_code =>
      let strategy_positions :=
        filter (fun p => String.eqb (Position.strategy_code p) strategy_code)
          positions in
      let strategy_trades :=
        filter (fun t => String.eqb (Trade.strategy_code t) strategy_code)
          trades in
      flat_map (fun trade_date =>
        let day_positions :=
          filter (fun p => String.eqb (Position.trade_date p) trade_date)
            strategy_positions in
        let day_trades :=
          filter (fun t => String.eqb (Trade.trade_date t) trade_date
                           && String.eqb (Trade.offset_flag t) OPEN)
            strategy_trades in
        if is_empty day_positions || is_empty day_trades then []
        else
          flat_map
            (floating_loss_check strategy_code trade_date day_positions)
            day_trades)
        all_dates)
      (unique (map Position.strategy_code positions)).

(** An entry of [price_history[contract][trade_date]]. *)
Record price_info : Type := {
  pi_settlement : Q;
  pi_prev_settlement : Q;
  pi_change : Q;
  pi_change_pct : Q
}.

Definition price_history_step {D : FloatArith}
  (price_history : dict (dict price_info))
  (pos : Position.t) : dict (dict price_info) :=
  let contract := Position.contract pos in
  let trade_date := Position.trade_date pos in
  let settlement := Position.settlement pos in
  let prev_settlement := Position.prev_settlement pos in
  let by_date :=
    match dict_get contract price_history with
    | None => []
    | Some d => d
    end in
  dict_set contract
    (dict_set trade_date
       {| pi_settlement := settlement;
          pi_prev_settlement := prev_settlement;
          pi_change :=
            if Qltb 0 prev_settlement then fl_sub settlement prev_settlement
            else 0;
          pi_change_pct :=
            if Qltb 0 prev_settlement
            then fl_div (fl_sub settlement prev_settlement) prev_settlement
            else 0 |}
       by_date)
    price_history.

Definition counter_trend_severity {D : FloatArith} (change_pct : Q) : string :=
  if Qltb (fl_round 0.03) (Qabs change_pct) then "high"
  else if Qltb (fl_round 0.015) (Qabs change_pct) then "medium"
  else "low".

(** The body of the loop over the strategy's trades. *)
Definition counter_trend_check {D : FloatArith} (strategy_code : string)
  (price_history : dict (dict price_info)) (trade : Trade.t)
  : list BehaviorAlert.t :=
  if negb (String.eqb (Trade.offset_flag trade) OPEN) then []
  else
    let contract := Trade.contract trade in
    let trade_date := Trade.trade_date trade in
    let direction := Trade.direction trade in
    match dict_get contract price_history with
    | None => []
    | Some by_date =>
        match dict_get trade_date by_date with
        | None => []
        | Some price_info =>
            let price_change := pi_change price_info in
            let change_pct := pi_change_pct price_info in
            let is_counter_trend :=
              if String.eqb direction BUY && Qltb price_change 0 then true
              else if String.eqb direction SELL && Qltb 0 price_change
                   then true
                   else false in
            if is_counter_trend then
              let severity := counter_trend_severity change_pct in
              [BehaviorAlert.mk strategy_code trade_date "counter_trend_add"
                 severity contract
                 (BehaviorAlert.CounterTrend
                    direction
                    (py_round price_change 2)
                    (py_round change_pct 4)
                    (Trade.quantity trade)
                    (Trade.price trade)
                    (pi_settlement price_info)
                    (pi_prev_settlement price_info))]
            else []
        end
    end.

Definition detect_counter_trend_add {D : FloatArith}
  (positions : list Position.t)
  (trades : list Trade.t) : list BehaviorAlert.t :=
  if is_empty positions || is_empty trades then []
  else
    flat_map (fun strategy_code =>
      let strategy_positions :=
        filter (fun p => String.eqb (Position.strategy_code p) strategy_code)
          positions in
      let strategy_trades :=
        filter (fun t => String.eqb (Trade.strategy_code t) strategy_code)
          trades in
      let price_history :=
        fold_left price_history_step strategy_positions [] in
      flat_map (counter_trend_check strategy_code price_history)
        strategy_trades)
      (unique (map Position.strategy_code positions)).

(** [severity_order.get(severity, 3)] *)
Definition severity_order : dict nat :=
  [("high", 0%nat); ("medium", 1%nat); ("low", 2%nat)].

Definition severity_rank (severity : string) : nat :=
  match dict_get severity severity_order with
  | Some r => r
  | None => 3%nat
  end.

(** The sort key [(x.trade_date, severity_order.get(x.severity, 3))] and
    the strict order of two such tuples. *)
Definition alert_key (x : BehaviorAlert.t) : string * nat :=
  (BehaviorAlert.trade_date x, severity_rank (BehaviorAlert.severity x)).

Definition key_ltb (k1 k2 : string * nat) : bool :=
  String.ltb (fst k1) (fst k2)
  || (String.eqb (fst k1) (fst k2) && (snd k1 <? snd k2)%nat).

(** [alerts.sort(key=..., reverse=True)]: descending in the key, ties in
    their original order. *)
Definition sort_alerts (alerts : list BehaviorAlert.t)
  : list BehaviorAlert.t :=
  stable_sort (fun a b => key_ltb (alert_key b) (alert_key a)) alerts.

(** [if k not in d: d[k] = []] followed by [d[k].append(a)]. *)
Definition dict_append {V : Type} (k : string) (a : V) (d : dict (list V))
  : dict (list V) :=
  match dict_get k d with
  | None => dict_set k [a] d
  | Some l => dict_set k (l ++ [a]) d
  end.

Definition detect_all {D : FloatArith}
  (positions : list Position.t) (trades : list Trade.t)
  (equity_data : list DailyEquity.t) : dict (list BehaviorAlert.t) :=
  let floating_loss_alerts :=
    detect_floating_loss_add positions trades equity_data in
  let counter_trend_alerts := detect_counter_trend_add positions trades in
  let all_alerts := floating_loss_alerts ++ counter_trend_alerts in
  let alerts_by_strategy :=
    fold_left
      (fun d alert => dict_append (BehaviorAlert.strategy_code alert) alert d)
      all_alerts [] in
  map (fun kv => (fst kv, sort_alerts (snd kv))) alerts_by_strategy.

(** ** Notions used in the statements

    Quantities that the code computes on the way and does not return,
    and conditions on its inputs. *)

(** The two concentration ratios before rounding, as the code computes
    them from the accumulators of the position loop. *)
Definition top1_ratio (st : exposures) : Q :=
  let total := long_exposure st + short_exposure st in
  if is_empty (position_values st) then 0
  else if Qltb 0 total
       then hd 0 (sorted_reverse (map snd (position_values st))) / total
       else 0.

Definition top3_ratio (st : exposures) : Q :=
  let total := long_exposure st + short_exposure st in
  if is_empty (position_values st) then 0
  else if Qltb 0 total
       then Qsum (firstn 3 (sorted_reverse (map snd (position_values st))))
            / total
       else 0.

(** The share of each contract root: its aggregated position value over
    the total position value [long_exposure + short_exposure]. *)
Definition concentration_fractions (st : exposures) : list Q :=
  let total := long_exposure st + short_exposure st in
  map (fun kv => snd kv / total) (position_values st).

(** The sum of the values of a dict. *)
Definition dict_values_sum (d : dict Q) : Q := Qsum (map snd d).

(** The positions of a trading day, whatever their strategy; among them
    those held long, those held short, and those of a contract root. *)
Definition on_day (d : string) (p : Position.t) : bool :=
  String.eqb (Position.trade_date p) d.

Definition held_long (p : Position.t) : bool := (0 <? Position.long_qty p)%Z.
Definition held_short (p : Position.t) : bool := (0 <? Position.short_qty p)%Z.

Definition of_root {K : ContractRoot} (root : string) (p : Position.t) : bool :=
  String.eqb (contract_base (Position.contract p)) root.

Definition values_of (positions : list Position.t) : list Q :=
  map Position.position_value positions.

(** The value of the day's positions held long and short at once. *)
Definition hedged_value (d : string) (positions : list Position.t) : Q :=
  Qsum (values_of
          (filter (fun p => on_day d p && (held_long p && held_short p))
             positions)).

(** The value kept for a contract root, given the value [o] it had before
    the loop and the values [l] added since. *)
Fixpoint accumulate (o : option Q) (l : list Q) : option Q :=
  match l with
  | [] => o
  | x :: l' =>
      accumulate (Some (match o with None => 0 + x | Some v => v + x end)) l'
  end.

(** The same record under another strategy code. *)
Definition position_with_strategy (s : string) (p : Position.t) : Position.t :=
  Position.mk s (Position.trade_date p) (Position.contract p)
    (Position.long_qty p) (Position.short_qty p) (Position.prev_settlement p)
    (Position.settlement p) (Position.floating_pnl p)
    (Position.position_value p).

Definition trade_with_strategy (s : string) (t : Trade.t) : Trade.t :=
  Trade.mk s (Trade.trade_date t) (Trade.contract t) (Trade.direction t)
    (Trade.offset_flag t) (Trade.price t) (Trade.quantity t) (Trade.amount t).

(** What an unguarded numpy division by a zero previous equity leaves in
    [daily_return], by the numerator [equity - prev_equity -
    deposit_withdraw]. *)
Definition return_over_zero (numerator : pfloat) : pfloat :=
  match numerator with
  | Fin a => match Qcompare a 0 with Eq => Fin 0 | Gt => PInf | Lt => NInf end
  | NaN => Fin 0
  | PInf => PInf
  | NInf => NInf
  end.

(** The margin ratio of a record, as [calculate_performance] divides it. *)
Definition margin_ratio_of (row : DailyEquity.t) : pfloat :=
  pf_div (DailyEquity.margin_used row) (DailyEquity.equity row).

(** The drawdown of a row, from its running maximum and its equity. *)
Definition drawdown_of (running_max equity : pfloat) : pfloat :=
  pf_div (pf_sub running_max equity) running_max.

(** A finite value that is not negative; a value on the positive side:
    such a finite value or [+inf]; a value that is not negative: one on
    the positive side, or a missing one. *)
Definition fin_nonneg (x : pfloat) : Prop := exists q, x = Fin q /\ 0 <= q.

Definition positive_side (x : pfloat) : Prop := x = PInf \/ fin_nonneg x.

Definition not_negative (x : pfloat) : Prop := x = NaN \/ positive_side x.

(** What the two running maxima carry from row to row: the equity peak
    is not NaN; the worst drawdown is the start value [-inf] or on the
    positive side; and once the peak is a negative number, a drawdown has
    been recorded. *)
Definition carried (peak worst : pfloat) : Prop :=
  peak <> NaN
  /\ (worst = NInf \/ positive_side worst)
  /\ (forall r, peak = Fin r -> r < 0 -> positive_side worst).

(** The two entries of [price_history[contract][trade_date]]. *)
Definition lookup2 (contract trade_date : string)
  (price_history : dict (dict price_info)) : option price_info :=
  match dict_get contract price_history with
  | None => None
  | Some by_date => dict_get trade_date by_date
  end.

(** ** The detectors, trade by trade

    What the specification says of one trade, read off the whole input
    rather than off the groups that the loops build. *)

Definition is_opening (t : Trade.t) : bool :=
  String.eqb (Trade.offset_flag t) OPEN.

(** The positions of the trade's strategy, trading day and contract. *)
Definition same_holding (t : Trade.t) (p : Position.t) : bool :=
  String.eqb (Position.strategy_code p) (Trade.strategy_code t)
  && String.eqb (Position.trade_date p) (Trade.trade_date t)
  && String.eqb (Position.contract p) (Trade.contract t).

Definition holdings (positions : list Position.t) (t : Trade.t)
  : list Position.t :=
  filter (same_holding t) positions.

(** The two sums and the ratio of a holding, as the code computes
    them. *)
Definition floating_pnl_of {D : FloatArith} (positions : list Position.t)
  (t : Trade.t) : Q :=
  fl_sum (map Position.floating_pnl (holdings positions t)).

Definition position_value_of {D : FloatArith} (positions : list Position.t)
  (t : Trade.t) : Q :=
  fl_sum (map Position.position_value (holdings positions t)).

Definition loss_ratio_of {D : FloatArith} (positions : list Position.t)
  (t : Trade.t) : Q :=
  if Qltb 0 (position_value_of positions t)
  then fl_div (Qabs (floating_pnl_of positions t))
         (position_value_of positions t)
  else 0.

(** An opening trade on a holding whose floating P&L sums to a loss. *)
Definition adds_to_loss {D : FloatArith}
  (positions : list Position.t) (t : Trade.t) : bool :=
  is_opening t && Qltb (floating_pnl_of positions t) 0.

Definition floating_loss_alert {D : FloatArith}
  (positions : list Position.t) (t : Trade.t)
  : BehaviorAlert.t :=
  BehaviorAlert.mk (Trade.strategy_code t) (Trade.trade_date t)
    "floating_loss_add"
    (floating_loss_severity (loss_ratio_of positions t))
    (Trade.contract t)
    (BehaviorAlert.FloatingLoss
       (py_round (floating_pnl_of positions t) 2)
       (py_round (loss_ratio_of positions t) 4)
       (Trade.quantity t) (Trade.direction t) (Trade.price t)
       (py_round (position_value_of positions t) 2)).

(** The price move of the trade's contract on the trade's day: that of the
    last position record of the holding, if there is one. *)
Definition price_move_of_position {D : FloatArith}
  (p : Position.t) : price_info :=
  {| pi_settlement := Position.settlement p;
     pi_prev_settlement := Position.prev_settlement p;
     pi_change :=
       if Qltb 0 (Position.prev_settlement p)
       then fl_sub (Position.settlement p) (Position.prev_settlement p)
       else 0;
     pi_change_pct :=
       if Qltb 0 (Position.prev_settlement p)
       then fl_div
              (fl_sub (Position.settlement p) (Position.prev_settlement p))
              (Position.prev_settlement p)
       else 0 |}.

Definition price_move {D : FloatArith}
  (positions : list Position.t) (t : Trade.t)
  : option price_info :=
  option_map price_move_of_position (find (same_holding t) (rev positions)).

(** Buying into a falling price or selling into a rising one. *)
Definition against_move (t : Trade.t) (move : price_info) : bool :=
  (String.eqb (Trade.direction t) BUY && Qltb (pi_change move) 0)
  || (String.eqb (Trade.direction t) SELL && Qltb 0 (pi_change move)).

Definition counter_trend_alert {D : FloatArith}
  (move : price_info) (t : Trade.t)
  : BehaviorAlert.t :=
  BehaviorAlert.mk (Trade.strategy_code t) (Trade.trade_date t)
    "counter_trend_add"
    (counter_trend_severity (pi_change_pct move))
    (Trade.contract t)
    (BehaviorAlert.CounterTrend (Trade.direction t)
       (py_round (pi_change move) 2)
       (py_round (pi_change_pct move) 4)
       (Trade.quantity t) (Trade.price t)
       (pi_settlement move) (pi_prev_settlement move)).

(** The alerts of the counter-trend trades, in the order of the trades. *)
Definition counter_trend_alerts {D : FloatArith} (positions : list Position.t)
  (trades : list Trade.t) : list BehaviorAlert.t :=
  flat_map (fun t =>
    match price_move positions t with
    | Some move =>
        if is_opening t && against_move t move
        then [counter_trend_alert move t] else []
    | None => []
    end) trades.

(** ** Sample inputs

    The constructors take the fields in the order of the records: a
    position is [strategy_code], [trade_date], [contract], [long_qty],
    [short_qty], [prev_settlement], [settlement], [floating_pnl],
    [position_value]; a trade is [strategy_code], [trade_date],
    [contract], [direction], [offset_flag], [price], [quantity],
    [amount]; an equity record is [strategy_code], [trade_date],
    [deposit_withdraw], [equity], [margin_used]. *)

(** An equity row with positive equity. *)
Definition sample_row : DailyEquity.t :=
  DailyEquity.mk "s1" "2025-12-01" (Fin 0) (Fin 100000) (Fin 5000).

(** One strategy, one day, two contracts held at a floating loss (6% of the
    position value on [rb2505], 0.1% on [cu2601]) with unchanged settlement
    prices, and one opening trade on each. *)
Definition loss_positions : list Position.t :=
  [ Position.mk "s1" "2025-12-01" "rb2505" 3 0 100 100 (-600) 10000;
    Position.mk "s1" "2025-12-01" "cu2601" 1 0 100 100 (-10) 10000 ].

Definition loss_trades : list Trade.t :=
  [ Trade.mk "s1" "2025-12-01" "rb2505" BUY OPEN 100 3 300;
    Trade.mk "s1" "2025-12-01" "cu2601" BUY OPEN 100 1 100 ].

(** One contract held long and short at once. *)
Definition hedged_positions : list Position.t :=
  [ Position.mk "s1" "2025-12-01" "rb2505" 3 3 100 100 0 10000 ].

(** A contract held long, and a record of another contract with neither
    a long nor a short quantity. *)
Definition flat_positions : list Position.t :=
  [ Position.mk "s1" "2025-12-01" "rb2505" 1 0 100 100 0 10;
    Position.mk "s1" "2025-12-01" "cu2601" 0 0 100 100 0 100 ].

(** Two contracts held long, one with a negative position value. *)
Definition negative_positions : list Position.t :=
  [ Position.mk "s1" "2025-12-01" "rb2505" 1 0 100 100 0 30;
    Position.mk "s1" "2025-12-01" "cu2601" 1 0 100 100 0 (-10) ].

(** One contract held long, worth less than half a cent. *)
Definition tiny_positions : list Position.t :=
  [ Position.mk "s1" "2025-12-01" "rb2505" 1 0 100 100 0 0.004 ].

(** A position at a floating loss of 600 on a value of 10000, whose
    settlement price fell from 100 to 97, and an opening buy of 3 lots on
    that contract the same day. *)
Definition losing_position : Position.t :=
  Position.mk "s1" "2025-12-01" "rb2505" 5 0 100 97 (-600) 10000.

Definition opening_buy : Trade.t :=
  Trade.mk "s1" "2025-12-01" "rb2505" BUY OPEN 97 3 291.

(** A holding of two records at floating losses of 0.1 and 0.2 on a
    value of 3 each, then a record at a floating profit of 0.3, and a
    short position whose settlement price rose from 10 to 10.30; the
    decimals as they are converted to numbers by [as_number]. *)
Definition small_losses (as_number : Q -> Q) : list Position.t :=
  [ Position.mk "s1" "2025-12-01" "rb2505" 1 0 100 100 (as_number (-0.1)) 3;
    Position.mk "s1" "2025-12-01" "rb2505" 1 0 100 100 (as_number (-0.2)) 3 ].

Definition offset_profit (as_number : Q -> Q) : Position.t :=
  Position.mk "s1" "2025-12-01" "rb2505" 1 0 100 100 (as_number 0.3) 0.

Definition risen_position (as_number : Q -> Q) : Position.t :=
  Position.mk "s1" "2025-12-01" "rb2505" 0 5 10 (as_number 10.3) 0 1000.

Definition opening_sell : Trade.t :=
  Trade.mk "s1" "2025-12-01" "rb2505" SELL OPEN 10 3 30.

(** Two days of one strategy: an equity of 0 on the first, 100 on the
    second, no deposit. *)
Definition zero_then_100 : list DailyEquity.t :=
  [ DailyEquity.mk "s1" "2025-12-01" (Fin 0) (Fin 0) (Fin 0);
    DailyEquity.mk "s1" "2025-12-02" (Fin 0) (Fin 100) (Fin 0) ].

(** Two days at a constant equity of 8000 with a margin of 1, and the same
    with the equity negative. *)
Definition steady_equity : list DailyEquity.t :=
  [ DailyEquity.mk "s1" "2025-12-01" (Fin 0) (Fin 8000) (Fin 1);
    DailyEquity.mk "s1" "2025-12-02" (Fin 0) (Fin 8000) (Fin 1) ].

Definition steady_deficit : list DailyEquity.t :=
  [ DailyEquity.mk "s1" "2025-12-01" (Fin 0) (Fin (-8000)) (Fin 1);
    DailyEquity.mk "s1" "2025-12-02" (Fin 0) (Fin (-8000)) (Fin 1) ].

Definition default_calculator : MetricsCalculator :=
  {| risk_free_rate := 0.03 |}.

(** Arithmetic without rounding, an instance of [FloatArith]: what the
    detector would compute on the decimals themselves. *)
Definition exact_arith : FloatArith :=
  {| fl_round := fun x => x;
     fl_sum := Qsum;
     fl_round_mono := fun _ _ H => H;
     fl_round_opp := fun x => Qeq_refl (- x);
     fl_round_dyadic := fun m n _ _ => Qeq_refl _;
     fl_sum_nil := Qeq_refl 0;
     fl_sum_one := fun x => Qplus_0_l x |}.

(** A square root to six decimals, rounded down: an instance of [Sqrt] to
    compute with. *)
Definition sqrt_micro_value (x : Q) : Q :=
  inject_Z (Z.sqrt (Qfloor (x * 1000000000000))) / 1000000.

Definition sqrt_micro : Sqrt :=
  {| q_sqrt := sqrt_micro_value;
     q_sqrt_nonneg := fun x =>
       Qmult_le_0_compat _ _
         (eq_ind _ (fun P : Prop => P) (Z.sqrt_nonneg _) _ (Zle_Qle 0 _))
         (Qinv_le_0_compat 1000000 (Qlt_le_weak 0 1000000 eq_refl)) |}.

(** ** Notions used in the further properties *)

(** A finite value above zero, one equal to zero, one in [[0, 1)]; and
    [x <= y] between two finite values. *)
Definition fin_positive (x : pfloat) : Prop := exists q, x = Fin q /\ 0 < q.

Definition fin_zero (x : pfloat) : Prop := exists q, x = Fin q /\ q == 0.


Definition fin_le (x y : pfloat) : Prop :=
  exists a b, x = Fin a /\ y = Fin b /\ a <= b.

(** The records of one trading day. *)
Definition on_date (d : string) (row : DailyEquity.t) : bool :=
  String.eqb (DailyEquity.trade_date row) d.


(** An upper-case ASCII letter. *)
Definition ascii_isupper (c : ascii) : bool :=
  let n := nat_of_ascii c in ((65 <=? n) && (n <=? 90))%nat.

(** The contract root of a position. *)
Definition root_of {K : ContractRoot} (p : Position.t) : string :=
  contract_base (Position.contract p).

(** The trades of a trading day, whatever their strategy. *)
Definition traded_on (d : string) (t : Trade.t) : bool :=
  String.eqb (Trade.trade_date t) d.


(** *** The summary of the alerts *)

Module BehaviorSummary.
(** The dict that [get_behavior_summary] keeps for a strategy. *)
Record t : Type := mk {
  total_alerts : nat;
  floating_loss_add_count : nat;
  counter_trend_add_count : nat;
  high_severity_count : nat;
  behavior_risk_score : nat;
  recent_alerts : list BehaviorAlert.t
}.
End BehaviorSummary.

(** [alert_to_dict]: a dict with the fields of the alert, under their
    names. *)
Definition alert_to_dict (alert : BehaviorAlert.t) : BehaviorAlert.t := alert.

Definition get_behavior_summary {D : FloatArith} (positions : list Position.t)
  (trades : list Trade.t) (equity_data : list DailyEquity.t)
  : dict BehaviorSummary.t :=
  let alerts_by_strategy := detect_all positions trades equity_data in
  fold_left (fun summary kv =>
    let strategy_code := fst kv in
    let alerts := snd kv in
    let floating_loss_count :=
      length (filter (fun a => String.eqb (BehaviorAlert.alert_type a)
                                 "floating_loss_add") alerts) in
    let counter_trend_count :=
      length (filter (fun a => String.eqb (BehaviorAlert.alert_type a)
                                 "counter_trend_add") alerts) in
    let high_severity_count :=
      length (filter (fun a => String.eqb (BehaviorAlert.severity a) "high")
                alerts) in
    let behavior_risk_score :=
      Nat.min 100
        (floating_loss_count * 5 + counter_trend_count * 3
         + high_severity_count * 10) in
    dict_set strategy_code
      (BehaviorSummary.mk (length alerts) floating_loss_count
         counter_trend_count high_severity_count behavior_risk_score
         (map alert_to_dict (firstn 5 alerts)))
      summary)
    alerts_by_strategy [].

(** The alerts of both detectors, in the order in which [detect_all]
    puts them together. *)
Definition all_alerts {D : FloatArith}
  (positions : list Position.t) (trades : list Trade.t)
  (equity_data : list DailyEquity.t) : list BehaviorAlert.t :=
  detect_floating_loss_add positions trades equity_data
  ++ detect_counter_trend_add positions trades.

(** The alerts of a strategy. *)
Definition of_strategy (k : string) (a : BehaviorAlert.t) : bool :=
  String.eqb (BehaviorAlert.strategy_code a) k.

(** An alert of one of the two types, with one of the three
    severities. *)
Definition well_formed_alert (a : BehaviorAlert.t) : Prop :=
  (BehaviorAlert.alert_type a = "floating_loss_add"
   \/ BehaviorAlert.alert_type a = "counter_trend_add")
  /\ In (BehaviorAlert.severity a) ["high"; "medium"; "low"].

(** The first of two alerts of a list may stand before the second: it
    is not dated before it and, on the same date, its severity does not
    rank before the other's in [severity_order]. *)
Definition alert_precedes (a b : BehaviorAlert.t) : Prop :=
  String.ltb (BehaviorAlert.trade_date a) (BehaviorAlert.trade_date b) = false
  /\ (BehaviorAlert.trade_date a = BehaviorAlert.trade_date b ->
      (severity_rank (BehaviorAlert.severity b)
       <= severity_rank (BehaviorAlert.severity a))%nat).

(** The alerts of a trading day and severity. *)
Definition same_key (d : string) (severity : string) (a : BehaviorAlert.t)
  : bool :=
  String.eqb (BehaviorAlert.trade_date a) d
  && String.eqb (BehaviorAlert.severity a) severity.


(** ** SupabaseUploader

    The two upload functions that call the calculator.  The database
    client is an oracle: [execute i batch] tells whether the request
    for the batch that starts at record [i] went through ([true]) or
    raised, in which case the function prints a message and goes on. *)

(** [metrics_module.MetricsCalculator()]: the default risk-free rate. *)
Definition MetricsCalculator_default : MetricsCalculator :=
  {| risk_free_rate := 0.03 |}.

(** [performance_to_dict] and [daily_metrics_to_dict]: a dict with the
    fields of the record, under their names. *)
Definition performance_to_dict (metrics : PerformanceMetrics.t)
  : PerformanceMetrics.t := metrics.

Definition daily_metrics_to_dict (metrics : DailyMetrics.t) : DailyMetrics.t :=
  metrics.

(** [strategy_id = self.strategy_id_map.get(code)] followed by
    [if not strategy_id: continue]: a missing key and an empty id are
    skipped alike. *)
Definition strategy_id_of (strategy_id_map : dict string) (code : string)
  : option string :=
  match dict_get code strategy_id_map with
  | Some strategy_id =>
      if String.eqb strategy_id EmptyString then None else Some strategy_id
  | None => None
  end.

(** [range(start, stop, step)] for a positive step; [stop] steps are
    enough to reach [stop]. *)
Fixpoint range_from (fuel start stop step : nat) : list nat :=
  match fuel with
  | O => []
  | S fuel' =>
      if (start <? stop)%nat
      then start :: range_from fuel' (start + step) stop step
      else []
  end.

Definition py_range (start stop step : nat) : list nat :=
  range_from stop start stop step.

(** [l[i:j]] for [i <= j]. *)
Definition py_slice {A : Type} (l : list A) (i j : nat) : list A :=
  firstn (j - i) (skipn i l).

Definition batch_size : nat := 100.

(** The loop [for i in range(0, len(records), batch_size)]: the number
    of records of the batches that went through. *)
Definition upload_batches {A : Type} (execute : nat -> list A -> bool)
  (records : list A) : nat :=
  fold_left (fun uploaded i =>
    let batch := py_slice records i (i + batch_size) in
    if execute i batch then (uploaded + length batch)%nat else uploaded)
    (py_range 0 (length records) batch_size) 0%nat.

(** The records that [upload_daily_metrics] builds: the strategy id and
    the fields of the daily metrics (of which the record leaves out the
    strategy code). *)
Definition daily_metrics_records {K : ContractRoot}
  (strategy_id_map : dict string)
  (equity_df : list DailyEquity.t) (position_dicts : list Position.t)
  (trade_dicts : list Trade.t) : exn (list (string * DailyMetrics.t)) :=
  fold_left (fun acc row =>
    records <- acc ;;
    match strategy_id_of strategy_id_map (DailyEquity.strategy_code row) with
    | None => Return records
    | Some strategy_id =>
        daily <- calculate_daily_metrics row position_dicts trade_dicts ;;
        match daily with
        | Some metrics =>
            let dm := daily_metrics_to_dict metrics in
            Return (records ++ [(strategy_id, dm)])
        | None => Return records
        end
    end)
    equity_df (Return []).

Definition upload_daily_metrics {K : ContractRoot}
  (strategy_id_map : dict string)
  (execute : nat -> list (string * DailyMetrics.t) -> bool)
  (equity_df : list DailyEquity.t) (positions_list : list Position.t)
  (trades_list : list Trade.t) : exn nat :=
  records <-
    daily_metrics_records strategy_id_map equity_df positions_list trades_list ;;
  Return (upload_batches execute records).

Module StrategyScore.
(** A record of the [strategy_scores] table: the strategy id, the fields
    of the performance metrics (of which the record leaves out the
    strategy code) and the rank. *)
Record t : Type := mk {
  strategy_id : string;
  metrics : PerformanceMetrics.t;
  rank : nat
}.
End StrategyScore.

(** The loop over [equity_df['strategy_code'].unique()]. *)
Definition strategy_score_entries {O : SortValues}
  {S : Sqrt} (strategy_id_map : dict string)
  (equity_df : list DailyEquity.t)
  : exn (list (string * PerformanceMetrics.t)) :=
  fold_left (fun acc strategy_code =>
    records <- acc ;;
    match strategy_id_of strategy_id_map strategy_code with
    | None => Return records
    | Some strategy_id =>
        let strategy_equity :=
          filter (fun row =>
                    String.eqb (DailyEquity.strategy_code row) strategy_code)
            equity_df in
        perf <-
          calculate_performance MetricsCalculator_default strategy_equity
            strategy_code ;;
        match perf with
        | Some metrics =>
            let pm := performance_to_dict metrics in
            Return (records ++ [(strategy_id, pm)])
        | None => Return records
        end
    end)
    (unique (map DailyEquity.strategy_code equity_df)) (Return []).

(** [enumerate(l)] *)
Definition enumerate {A : Type} (l : list A) : list (nat * A) :=
  combine (seq 0 (length l)) l.

(** [records.sort(key=lambda x: x['total_score'], reverse=True)] and the
    ranks [i + 1].  Python's sort compares the keys with [<]; the model
    is the stable sort that it is when no key is NaN, which is the case
    of every total score. *)
Definition strategy_score_records {O : SortValues}
  {S : Sqrt} (strategy_id_map : dict string)
  (equity_df : list DailyEquity.t) : exn (list StrategyScore.t) :=
  records <- strategy_score_entries strategy_id_map equity_df ;;
  let records :=
    stable_sort
      (fun a b =>
         pf_ltb (PerformanceMetrics.total_score (snd b))
           (PerformanceMetrics.total_score (snd a)))
      records in
  Return (map (fun ir =>
                 StrategyScore.mk (fst (snd ir)) (snd (snd ir)) (fst ir + 1))
            (enumerate records)).

(** The request either goes through and the number of records is
    returned, or raises and [0] is returned. *)
Definition upload_strategy_scores {O : SortValues}
  {S : Sqrt} (strategy_id_map : dict string)
  (execute : list StrategyScore.t -> bool) (equity_df : list DailyEquity.t)
  : exn nat :=
  records <- strategy_score_records strategy_id_map equity_df ;;
  Return (if execute records then length records else 0%nat).

(** A strategy with an id and at least two equity records. *)
Definition scored (strategy_id_map : dict string)
  (equity_df : list DailyEquity.t) (code : string) : bool :=
  match strategy_id_of strategy_id_map code with
  | Some _ =>
      (2 <=? length (filter (fun row =>
                               String.eqb (DailyEquity.strategy_code row) code)
                       equity_df))%nat
  | None => false
  end.

(** An equity row that gives a record of daily metrics: its strategy
    has an id and its equity is not zero or less. *)
Definition measured (strategy_id_map : dict string) (row : DailyEquity.t)
  : bool :=
  match strategy_id_of strategy_id_map (DailyEquity.strategy_code row) with
  | Some _ => negb (pf_leb (DailyEquity.equity row) (Fin 0))
  | None => false
  end.

(** The fields of the daily metrics that are read off the positions and
    the trades. *)
Definition position_fields (m : DailyMetrics.t)
  : Q * Q * Q * Q * Q * nat * nat * Q :=
  (DailyMetrics.long_exposure m, DailyMetrics.short_exposure m,
   DailyMetrics.total_position_value m, DailyMetrics.top1_concentration m,
   DailyMetrics.top3_concentration m, DailyMetrics.position_count m,
   DailyMetrics.trade_count m, DailyMetrics.turnover m).


(** ** export_data

    The third section of [main]: the risk metrics of the latest trading
    day, strategy by strategy. *)

Module RiskRow.
(** An entry of [risk_data]. *)
Record t : Type := mk {
  strategy_code : string;
  margin_ratio : pfloat;
  net_exposure : pfloat;
  gross_exposure : pfloat;
  top1_concentration : Q;
  position_count : nat;
  trade_count : nat;
  turnover : Q
}.
End RiskRow.

Definition risk_data {K : ContractRoot} (equity_df : list DailyEquity.t)
  (position_dicts : list Position.t) (trade_dicts : list Trade.t)
  : exn (list RiskRow.t) :=
  let latest_date := str_max (map DailyEquity.trade_date equity_df) in
  fold_left (fun acc strategy_code =>
    risk_data <- acc ;;
    let strategy_equity :=
      filter (fun row =>
                String.eqb (DailyEquity.strategy_code row) strategy_code
                && String.eqb (DailyEquity.trade_date row) latest_date)
        equity_df in
    if (0 <? length strategy_equity)%nat then
      let strategy_positions :=
        filter (fun p => String.eqb (Position.strategy_code p) strategy_code)
          position_dicts in
      let strategy_trades :=
        filter (fun t => String.eqb (Trade.strategy_code t) strategy_code)
          trade_dicts in
      equity_row <- py_index strategy_equity 0 ;;
      daily <-
        calculate_daily_metrics equity_row strategy_positions strategy_trades ;;
      match daily with
      | Some metrics =>
          let dm := daily_metrics_to_dict metrics in
          Return (risk_data ++
                  [RiskRow.mk (DailyMetrics.strategy_code dm)
                     (DailyMetrics.margin_ratio dm)
                     (DailyMetrics.net_exposure dm)
                     (DailyMetrics.gross_exposure dm)
                     (DailyMetrics.top1_concentration dm)
                     (DailyMetrics.position_count dm)
                     (DailyMetrics.trade_count dm)
                     (DailyMetrics.turnover dm)])
      | None => Return risk_data
      end
    else Return risk_data)
    (unique (map DailyEquity.strategy_code equity_df)) (Return []).

(** The records of a strategy. *)
Definition position_of (code : string) (p : Position.t) : bool :=
  String.eqb (Position.strategy_code p) code.

Definition trade_of (code : string) (t : Trade.t) : bool :=
  String.eqb (Trade.strategy_code t) code.

(** The first equity record of a strategy on a trading day. *)
Definition equity_on (equity_df : list DailyEquity.t) (code d : string)
  : option DailyEquity.t :=
  find (fun row => String.eqb (DailyEquity.strategy_code row) code
                   && String.eqb (DailyEquity.trade_date row) d)
    equity_df.

(** A strategy that gets a risk row: its first equity record of the day
    has an equity that is not zero or less. *)
Definition reported (equity_df : list DailyEquity.t) (d code : string) : bool :=
  match equity_on equity_df code d with
  | Some row => negb (pf_leb (DailyEquity.equity row) (Fin 0))
  | None => false
  end.

(** * Properties *)

(** ** Lists, sorting and columns *)

Section StableSortFacts.
Context {A : Type} (before : A -> A -> bool).

Lemma insert_sorted_perm (x : A) (l : list A) :
  Permutation (x :: l) (insert_sorted before x l).
Proof.
  induction l as [|y l IH]; simpl; [reflexivity|].
  destruct (before y x); [|reflexivity].
  rewrite perm_swap. now constructor.
Qed.

Lemma stable_sort_perm (l : list A) : Permutation l (stable_sort before l).
Proof.
  induction l as [|x l IH]; simpl; [constructor|].
  rewrite <- insert_sorted_perm. now constructor.
Qed.

Lemma stable_sort_length (l : list A) :
  length (stable_sort before l) = length l.
Proof. symmetry. apply Permutation_length, stable_sort_perm. Qed.
End StableSortFacts.

(** ** The order of strings *)

Lemma ltb_irrefl s : String.ltb s s = false.
Proof.
  unfold String.ltb. pose proof (String.compare_antisym s s) as H.
  destruct (String.compare s s); simpl in H; congruence.
Qed.

Lemma ltb_asym a b : String.ltb a b = true -> String.ltb b a = false.
Proof.
  unfold String.ltb. rewrite (String.compare_antisym a b).
  destruct (String.compare b a); simpl; congruence.
Qed.

Lemma ltb_trans a b c :
  String.ltb a b = true -> String.ltb b c = true -> String.ltb a c = true.
Proof.
  unfold String.ltb.
  destruct (String.compare a b) eqn:E1; try discriminate.
  destruct (String.compare b c) eqn:E2; try discriminate.
  intros _ _.
  pose proof (@RelationClasses.StrictOrder_Transitive _ _
                OrdersEx.String_as_OT.lt_strorder a b c E1 E2) as H.
  unfold OrdersEx.String_as_OT.lt in H.
  change (String.compare a c = Lt) in H. now rewrite H.
Qed.

Lemma ltb_false_cases a b :
  String.ltb b a = false -> a = b \/ String.ltb a b = true.
Proof.
  unfold String.ltb. rewrite (String.compare_antisym b a).
  destruct (String.compare a b) eqn:E; simpl; intros H.
  - left. now apply String.compare_eq_iff.
  - now right.
  - discriminate.
Qed.

Lemma not_ltb_trans a b c :
  String.ltb b a = false -> String.ltb c b = false -> String.ltb c a = false.
Proof.
  intros H1 H2.
  destruct (ltb_false_cases _ _ H1) as [-> | Hab]; [exact H2|].
  destruct (ltb_false_cases _ _ H2) as [<- | Hbc]; [exact H1|].
  apply ltb_asym. now apply ltb_trans with b.
Qed.

Lemma not_ltb_antisym a b :
  String.ltb b a = false -> String.ltb a b = false -> a = b.
Proof.
  intros H1 H2. destruct (ltb_false_cases _ _ H1) as [E | E]; [exact E|].
  congruence.
Qed.

(** ** What a stable sort guarantees *)

Section StableSortOrder.
Context {A : Type} (before : A -> A -> bool) (P : A -> Prop).
Hypothesis before_asym :
  forall a b, P a -> P b -> before a b = true -> before b a = false.
Hypothesis not_before_trans :
  forall a b c, P a -> P b -> P c ->
    before b a = false -> before c b = false -> before c a = false.

Lemma insert_sorted_sorted x l :
  P x -> Forall P l ->
  StronglySorted (fun a b => before b a = false) l ->
  StronglySorted (fun a b => before b a = false) (insert_sorted before x l).
Proof.
  intros Hx Hl Hs. induction Hs as [|y l' Hs IH Hy]; simpl.
  - constructor; constructor.
  - inversion Hl as [|? ? Py Pl']; subst.
    destruct (before y x) eqn:E.
    + constructor; [now apply IH|].
      apply (Permutation_Forall (insert_sorted_perm before x l')).
      constructor; [|exact Hy]. now apply before_asym.
    + constructor; [now constructor|].
      constructor; [exact E|].
      rewrite Forall_forall in *. intros z Hz.
      apply (not_before_trans x y z); auto.
Qed.

Lemma stable_sort_sorted l :
  Forall P l ->
  StronglySorted (fun a b => before b a = false) (stable_sort before l).
Proof.
  induction 1 as [|x l Hx Hl IH]; simpl; [constructor|].
  apply insert_sorted_sorted; auto.
  now apply (Permutation_Forall (stable_sort_perm before l)).
Qed.
End StableSortOrder.

Section StableSortGroups.
Context {A : Type} (before : A -> A -> bool) (p : A -> bool).
Hypothesis not_jumped :
  forall x y, p x = true -> before y x = true -> p y = false.

Lemma insert_sorted_filter x l :
  filter p (insert_sorted before x l)
  = if p x then x :: filter p l else filter p l.
Proof.
  induction l as [|y l IH]; simpl.
  - reflexivity.
  - destruct (before y x) eqn:E; simpl.
    + rewrite IH. destruct (p x) eqn:Ex; [|reflexivity].
      now rewrite (not_jumped x y Ex E).
    + reflexivity.
Qed.

Lemma stable_sort_filter l :
  filter p (stable_sort before l) = filter p l.
Proof.
  induction l as [|x l IH]; simpl; [reflexivity|].
  rewrite insert_sorted_filter, IH. reflexivity.
Qed.
End StableSortGroups.

Lemma sorted_perm_unique {A : Type} (R : A -> A -> Prop) (l1 l2 : list A) :
  (forall a b, In a l1 -> In b l1 -> R a b -> R b a -> a = b) ->
  StronglySorted R l1 -> StronglySorted R l2 -> Permutation l1 l2 -> l1 = l2.
Proof.
  revert l2. induction l1 as [|a l1 IH]; intros l2 Hanti S1 S2 Hp.
  - now apply Permutation_nil in Hp.
  - destruct l2 as [|b l2].
    { apply Permutation_sym, Permutation_nil in Hp. discriminate. }
    inversion S1 as [|? ? S1' Ha]; subst.
    inversion S2 as [|? ? S2' Hb]; subst.
    rewrite Forall_forall in Ha, Hb.
    assert (E : a = b).
    { assert (Ia : In a (b :: l2))
        by (apply (Permutation_in _ Hp); now left).
      assert (Ib : In b (a :: l1))
        by (apply (Permutation_in _ (Permutation_sym Hp)); now left).
      destruct Ia as [E | Ia]; [now symmetry|].
      destruct Ib as [E | Ib]; [exact E|].
      apply Hanti; [now left | now right | now apply Ha | now apply Hb]. }
    subst b. f_equal. apply Permutation_cons_inv in Hp.
    apply IH; auto. intros x y Hx Hy. apply Hanti; now right.
Qed.

Lemma StronglySorted_impl {A : Type} (R R' : A -> A -> Prop) l :
  (forall a b, R a b -> R' a b) -> StronglySorted R l -> StronglySorted R' l.
Proof.
  intros H. induction 1 as [|a l Hs IH Ha]; constructor; [exact IH|].
  eapply Forall_impl; [|exact Ha]. intros b. apply H.
Qed.

Lemma StronglySorted_impl_in {A : Type} (R R' : A -> A -> Prop) l :
  (forall a b, In a l -> In b l -> R a b -> R' a b) ->
  StronglySorted R l -> StronglySorted R' l.
Proof.
  intros H Hs. induction Hs as [|a l Hs IH Ha]; constructor.
  - apply IH. intros x y Hx Hy. apply H; now right.
  - rewrite Forall_forall in *. intros b Hb.
    apply H; [now left | now right | now apply Ha].
Qed.

Lemma StronglySorted_map {A B : Type} (R : B -> B -> Prop) (f : A -> B) l :
  StronglySorted (fun a b => R (f a) (f b)) l -> StronglySorted R (map f l).
Proof.
  induction 1 as [|a l Hs IH Ha]; simpl; constructor; [exact IH|].
  now apply Forall_map.
Qed.

Lemma NoDup_map_eq {A B : Type} (f : A -> B) (l : list A) a b :
  NoDup (map f l) -> In a l -> In b l -> f a = f b -> a = b.
Proof.
  induction l as [|x l IH]; simpl; intros Hnd Ha Hb E; [contradiction|].
  inversion Hnd as [|? ? Hx Hnd']; subst.
  destruct Ha as [-> | Ha], Hb as [-> | Hb]; auto.
  - exfalso. apply Hx. rewrite E. now apply in_map.
  - exfalso. apply Hx. rewrite <- E. now apply in_map.
Qed.

(** ** A sort to compute with *)

Lemma stable_sort_trade_date_sorted df :
  StronglySorted date_le (stable_sort_trade_date df).
Proof.
  unfold stable_sort_trade_date.
  apply (stable_sort_sorted _ (fun _ => True)).
  - intros a b _ _. apply ltb_asym.
  - intros a b c _ _ _ H1 H2.
    now apply not_ltb_trans with (DailyEquity.trade_date b).
  - apply Forall_forall. auto.
Qed.

(** The stable sort is an instance of the interface of
    [sort_values]. *)
Lemma stable_sort_values : SortValues.
Proof.
  exact {| sort_values_trade_date := stable_sort_trade_date;
           sort_values_perm := fun df => stable_sort_perm _ df;
           sort_values_sorted := stable_sort_trade_date_sorted |}.
Defined.

Lemma sort_values_length {O : SortValues} df :
  length (sort_values_trade_date df) = length df.
Proof. symmetry. apply Permutation_length, sort_values_perm. Qed.

(** Records with pairwise distinct trade dates have one order only:
    every sort returns what the stable sort returns. *)
Lemma sort_values_unique {O : SortValues} df :
  NoDup (map DailyEquity.trade_date df) ->
  sort_values_trade_date df = stable_sort_trade_date df.
Proof.
  intros Hnd.
  assert (P1 : Permutation df (sort_values_trade_date df))
    by apply sort_values_perm.
  assert (P2 : Permutation df (stable_sort_trade_date df))
    by apply stable_sort_perm.
  apply (sorted_perm_unique date_le).
  - intros a b Ha Hb Hab Hba.
    apply (NoDup_map_eq DailyEquity.trade_date df); auto.
    + now apply (Permutation_in _ (Permutation_sym P1)).
    + now apply (Permutation_in _ (Permutation_sym P1)).
    + now apply not_ltb_antisym.
  - apply sort_values_sorted.
  - apply stable_sort_trade_date_sorted.
  - now rewrite <- P1, <- P2.
Qed.


Lemma map2_length {A B C : Type} (f : A -> B -> C) l1 l2 :
  length l1 = length l2 -> length (map2 f l1 l2) = length l1.
Proof.
  revert l2; induction l1 as [|a l1 IH]; intros [|b l2]; simpl; try easy.
  intros H; f_equal; apply IH; congruence.
Qed.

Lemma cum_from_length op acc s : length (cum_from op acc s) = length s.
Proof.
  revert acc; induction s as [|x s IH]; intros acc; simpl; [reflexivity|].
  destruct (pf_isnan x); simpl; now rewrite IH.
Qed.

Lemma shift1_length s : length (shift1 s) = length s.
Proof.
  unfold shift1. rewrite length_firstn. simpl. lia.
Qed.

(** Every column of the frame has one entry per input record. *)
Ltac column_length :=
  unfold calculate_daily_returns, cumprod, cummax;
  simpl;
  repeat first
    [ rewrite length_map | rewrite cum_from_length | rewrite shift1_length
    | rewrite sort_values_length | rewrite map2_length ];
  reflexivity.

Lemma calculate_daily_returns_rows_length {O : SortValues} df :
  length (Returns.rows (calculate_daily_returns df)) = length df.
Proof. column_length. Qed.

Lemma calculate_daily_returns_daily_length {O : SortValues} df :
  length (Returns.daily_return (calculate_daily_returns df)) = length df.
Proof. column_length. Qed.

Lemma calculate_daily_returns_cumulative_length {O : SortValues} df :
  length (Returns.cumulative_return (calculate_daily_returns df)) = length df.
Proof. column_length. Qed.

(** On records with pairwise distinct trade dates the sort does not
    matter: the frame and the result are those of the stable sort. *)
Lemma calculate_daily_returns_any_sort {O : SortValues} df :
  NoDup (map DailyEquity.trade_date df) ->
  calculate_daily_returns df = @calculate_daily_returns stable_sort_values df.
Proof.
  intros Hnd. unfold calculate_daily_returns.
  now rewrite (sort_values_unique df Hnd).
Qed.

Lemma calculate_performance_any_sort {S : Sqrt} {O : SortValues} self df code :
  NoDup (map DailyEquity.trade_date df) ->
  calculate_performance self df code
  = @calculate_performance stable_sort_values S self df code.
Proof.
  intros Hnd. unfold calculate_performance.
  now rewrite (calculate_daily_returns_any_sort df Hnd).
Qed.

Lemma iloc_last_nonempty {A : Type} (l : list A) :
  l <> [] -> exists a, iloc_last l = Return a.
Proof.
  intros H. unfold iloc_last.
  destruct (rev l) as [|a r] eqn:E.
  - apply (f_equal (@rev A)) in E. rewrite rev_involutive in E. now destruct H.
  - now exists a.
Qed.

(** ** Numeric guards *)

Lemma Qltb_lt x y : Qltb x y = true <-> x < y.
Proof.
  unfold Qltb. rewrite negb_true_iff, <- not_true_iff_false, Qle_bool_iff.
  split; [apply Qnot_le_lt | apply Qlt_not_le].
Qed.

Lemma Qltb_ge x y : Qltb x y = false <-> y <= x.
Proof.
  unfold Qltb. rewrite negb_false_iff. apply Qle_bool_iff.
Qed.

Lemma q_truediv_pos a b : 0 < b -> q_truediv a b = Return (a / b).
Proof.
  intros H. unfold q_truediv.
  destruct (Qeq_bool b 0) eqn:E; [|reflexivity].
  apply Qeq_bool_eq in E. rewrite E in H. now apply Qlt_irrefl in H.
Qed.

Lemma py_truediv_nonzero a b :
  pf_leb b (Fin 0) = false -> py_truediv a b = Return (pf_div a b).
Proof.
  unfold pf_leb, py_truediv. intros H.
  apply orb_false_iff in H as [_ ->]. reflexivity.
Qed.

Lemma inject_nat_pos n : (0 < n)%nat -> 0 < inject_Z (Z.of_nat n).
Proof.
  intros H. change 0 with (inject_Z 0). rewrite <- Zlt_Qlt. lia.
Qed.

(** ** The results of [calculate_daily_metrics] *)

Lemma calculate_daily_metrics_returns {K : ContractRoot}
  equity_row positions trades :
  pf_leb (DailyEquity.equity equity_row) (Fin 0) = false ->
  let trade_date := DailyEquity.trade_date equity_row in
  let st := exposure_loop trade_date positions in
  let day_trades :=
    filter (fun t => String.eqb (Trade.trade_date t) trade_date) trades in
  exists m,
    calculate_daily_metrics equity_row positions trades = Return (Some m)
    /\ DailyMetrics.strategy_code m = DailyEquity.strategy_code equity_row
    /\ DailyMetrics.trade_date m = trade_date
    /\ DailyMetrics.long_exposure m = py_round (long_exposure st) 2
    /\ DailyMetrics.short_exposure m = py_round (short_exposure st) 2
    /\ DailyMetrics.total_position_value m
       = py_round (long_exposure st + short_exposure st) 2
    /\ DailyMetrics.top1_concentration m = py_round (top1_ratio st) 4
    /\ DailyMetrics.top3_concentration m = py_round (top3_ratio st) 4
    /\ DailyMetrics.position_count m = length (position_values st)
    /\ DailyMetrics.trade_count m = length day_trades
    /\ DailyMetrics.turnover m = py_round (Qsum (map Trade.amount day_trades)) 2.
Proof.
  intros Hle trade_date st day_trades.
  unfold calculate_daily_metrics. fold trade_date. fold st.
  rewrite Hle.
  assert (Hdiv : forall a,
    (if pf_gtb (DailyEquity.equity equity_row) (Fin 0)
     then py_truediv a (DailyEquity.equity equity_row)
     else Return (Fin 0))
    = Return (if pf_gtb (DailyEquity.equity equity_row) (Fin 0)
              then pf_div a (DailyEquity.equity equity_row) else Fin 0)).
  { intros a. destruct (pf_gtb _ _); [|reflexivity].
    now apply py_truediv_nonzero. }
  rewrite !Hdiv. cbn [bind].
  unfold top1_ratio, top3_ratio.
  destruct (position_values st) as [|kv pv] eqn:Epv; cbn [is_empty negb bind].
  - eexists; split; [reflexivity|]. cbn. repeat split; reflexivity.
  - destruct (Qltb 0 (long_exposure st + short_exposure st)) eqn:Etot.
    + apply Qltb_lt in Etot.
      assert (Hs : exists s0 rest,
        sorted_reverse (map snd (kv :: pv)) = s0 :: rest).
      { destruct (sorted_reverse (map snd (kv :: pv))) as [|s0 rest] eqn:Es.
        - apply (f_equal (@length Q)) in Es. unfold sorted_reverse in Es.
          rewrite stable_sort_length in Es. discriminate.
        - now exists s0, rest. }
      destruct Hs as (s0 & rest & Hs). rewrite Hs.
      unfold py_index. cbn [nth_error bind].
      rewrite !q_truediv_pos by assumption. cbn [bind].
      eexists; split; [reflexivity|]. cbn. repeat split; reflexivity.
    + cbn [bind].
      eexists; split; [reflexivity|]. cbn. repeat split; reflexivity.
Qed.

(** ** Absent results *)

(** C6: [calculate_performance] and [calculate_daily_metrics] always
    return, never raise; the former returns [None] exactly when fewer than
    two equity records are supplied, the latter exactly when the equity of
    the row is [<= 0]; otherwise the result is populated. *)
Theorem absent_result_conditions {K : ContractRoot} {O : SortValues}
  {S : Sqrt} (self : MetricsCalculator)
  (equity_df : list DailyEquity.t) (strategy_code : string)
  (equity_row : DailyEquity.t) (positions : list Position.t)
  (trades : list Trade.t) :
  (exists r,
     calculate_performance self equity_df strategy_code = Return r
     /\ (r = None <-> (length equity_df < 2)%nat))
  /\ (exists r,
        calculate_daily_metrics equity_row positions trades = Return r
        /\ (r = None <-> pf_leb (DailyEquity.equity equity_row) (Fin 0) = true)).
Proof.
  split.
  - unfold calculate_performance.
    destruct (length equity_df <? 2)%nat eqn:E.
    + exists None. apply Nat.ltb_lt in E. tauto.
    + apply Nat.ltb_ge in E.
      destruct (iloc_last_nonempty
                  (Returns.cumulative_return (calculate_daily_returns equity_df)))
        as [total_return ->].
      { intros H. apply (f_equal (@length pfloat)) in H.
        rewrite calculate_daily_returns_cumulative_length in H. simpl in H. lia. }
      cbn [bind]. rewrite calculate_daily_returns_rows_length.
      assert (Hn : (0 < length equity_df)%nat) by lia.
      apply Nat.ltb_lt in Hn as Hb. rewrite Hb.
      rewrite q_truediv_pos by now apply inject_nat_pos.
      cbn [bind]. eexists. split; [reflexivity|].
      split; [discriminate | lia].
  - destruct (pf_leb (DailyEquity.equity equity_row) (Fin 0)) eqn:E.
    + exists None. unfold calculate_daily_metrics. rewrite E. tauto.
    + destruct (calculate_daily_metrics_returns equity_row positions trades E)
        as (m & -> & _).
      exists (Some m). split; [reflexivity|]. split; discriminate.
Qed.

(** ** The alerts of [detect_all] *)

(** C9: the result of [detect_all], and of [detect_floating_loss_add],
    is the same for any two values of [equity_data]. *)
Theorem detect_all_ignores_equity_data {D : FloatArith}
  (positions : list Position.t)
  (trades : list Trade.t) (equity_data1 equity_data2 : list DailyEquity.t) :
  detect_all positions trades equity_data1
  = detect_all positions trades equity_data2
  /\ detect_floating_loss_add positions trades equity_data1
     = detect_floating_loss_add positions trades equity_data2.
Proof. split; reflexivity. Qed.

(** ** Dicts *)

Lemma dict_get_set_same {V : Type} k (v : V) d :
  dict_get k (dict_set k v d) = Some v.
Proof.
  induction d as [|[k' v'] d IH]; simpl.
  - now rewrite String.eqb_refl.
  - destruct (String.eqb k' k) eqn:E; simpl; now rewrite E.
Qed.

Lemma dict_get_set_other {V : Type} k k' (v : V) d :
  k <> k' -> dict_get k' (dict_set k v d) = dict_get k' d.
Proof.
  intros Hne. induction d as [|[k0 v0] d IH]; simpl.
  - destruct (String.eqb k k') eqn:E; [|reflexivity].
    apply String.eqb_eq in E. contradiction.
  - destruct (String.eqb k0 k) eqn:E; simpl; [|now rewrite IH].
    apply String.eqb_eq in E; subst k0.
    destruct (String.eqb k k') eqn:E'; [|reflexivity].
    apply String.eqb_eq in E'. contradiction.
Qed.

Lemma dict_get_add_same k value d :
  dict_get k (dict_add k value d)
  = Some (match dict_get k d with None => 0 + value | Some v => v + value end).
Proof. unfold dict_add. destruct (dict_get k d); apply dict_get_set_same. Qed.

Lemma dict_get_add_other k k' value d :
  k <> k' -> dict_get k' (dict_add k value d) = dict_get k' d.
Proof.
  intros H. unfold dict_add.
  destruct (dict_get k d); now apply dict_get_set_other.
Qed.

(** ** The loop over the positions *)

Lemma exposure_loop_long {K : ContractRoot} d positions st :
  long_exposure (fold_left (exposure_step d) positions st)
  = fold_left Qplus
      (values_of (filter (fun p => on_day d p && held_long p) positions))
      (long_exposure st).
Proof.
  revert st; induction positions as [|p ps IH]; intros st; simpl;
    [reflexivity|].
  rewrite IH. unfold exposure_step, on_day, held_long.
  destruct (String.eqb (Position.trade_date p) d); simpl; [|reflexivity].
  destruct (0 <? Position.long_qty p)%Z; reflexivity.
Qed.

Lemma exposure_loop_short {K : ContractRoot} d positions st :
  short_exposure (fold_left (exposure_step d) positions st)
  = fold_left Qplus
      (values_of (filter (fun p => on_day d p && held_short p) positions))
      (short_exposure st).
Proof.
  revert st; induction positions as [|p ps IH]; intros st; simpl;
    [reflexivity|].
  rewrite IH. unfold exposure_step, on_day, held_short.
  destruct (String.eqb (Position.trade_date p) d); simpl; [|reflexivity].
  destruct (0 <? Position.short_qty p)%Z; reflexivity.
Qed.

Lemma accumulate_some v l : accumulate (Some v) l = Some (fold_left Qplus l v).
Proof. revert v; induction l as [|x l IH]; intros v; simpl; auto. Qed.

Lemma exposure_loop_root {K : ContractRoot} d root positions st :
  dict_get root (position_values (fold_left (exposure_step d) positions st))
  = accumulate (dict_get root (position_values st))
      (values_of (filter (fun p => on_day d p && of_root root p) positions)).
Proof.
  revert st; induction positions as [|p ps IH]; intros st; simpl;
    [reflexivity|].
  rewrite IH. unfold exposure_step, on_day, of_root.
  destruct (String.eqb (Position.trade_date p) d); simpl; [|reflexivity].
  destruct (String.eqb (contract_base (Position.contract p)) root) eqn:E; simpl.
  - apply String.eqb_eq in E. rewrite <- E, dict_get_add_same. reflexivity.
  - apply String.eqb_neq in E. now rewrite dict_get_add_other.
Qed.

Lemma exposure_step_relabel {K : ContractRoot} d s st p :
  exposure_step d st (position_with_strategy s p) = exposure_step d st p.
Proof. reflexivity. Qed.

Lemma exposure_loop_relabel {K : ContractRoot}
  d (relabel : Position.t -> string) positions :
  exposure_loop d (map (fun p => position_with_strategy (relabel p) p) positions)
  = exposure_loop d positions.
Proof.
  unfold exposure_loop.
  generalize {| long_exposure := 0; short_exposure := 0; position_values := [] |}.
  induction positions as [|p ps IH]; intros st; simpl; [reflexivity|].
  now rewrite exposure_step_relabel, IH.
Qed.

Lemma day_trades_relabel d (relabel : Trade.t -> string) trades :
  map Trade.amount
    (filter (fun t => String.eqb (Trade.trade_date t) d)
       (map (fun t => trade_with_strategy (relabel t) t) trades))
  = map Trade.amount
      (filter (fun t => String.eqb (Trade.trade_date t) d) trades).
Proof.
  induction trades as [|t ts IH]; simpl; [reflexivity|].
  destruct (String.eqb (Trade.trade_date t) d); simpl; now rewrite IH.
Qed.

Lemma day_trades_relabel_length d (relabel : Trade.t -> string) trades :
  length
    (filter (fun t => String.eqb (Trade.trade_date t) d)
       (map (fun t => trade_with_strategy (relabel t) t) trades))
  = length (filter (fun t => String.eqb (Trade.trade_date t) d) trades).
Proof.
  rewrite <- (length_map Trade.amount), day_trades_relabel.
  apply length_map.
Qed.

(** C10: the positions and trades are selected by trading day alone.
    Giving the records any other strategy codes does not change the
    result, and the exposures, the per-root aggregation, [trade_count]
    and [turnover] range over every record of the row's trading day. *)
Theorem daily_metrics_select_by_day_only {K : ContractRoot}
  (equity_row : DailyEquity.t)
  (positions : list Position.t) (trades : list Trade.t)
  (relabel_p : Position.t -> string) (relabel_t : Trade.t -> string) :
  pf_leb (DailyEquity.equity equity_row) (Fin 0) = false ->
  let d := DailyEquity.trade_date equity_row in
  let day_trades := filter (fun t => String.eqb (Trade.trade_date t) d) trades in
  exists m,
    calculate_daily_metrics equity_row positions trades = Return (Some m)
    /\ calculate_daily_metrics equity_row
         (map (fun p => position_with_strategy (relabel_p p) p) positions)
         (map (fun t => trade_with_strategy (relabel_t t) t) trades)
       = Return (Some m)
    /\ DailyMetrics.long_exposure m
       = py_round
           (Qsum (values_of
                    (filter (fun p => on_day d p && held_long p) positions))) 2
    /\ DailyMetrics.short_exposure m
       = py_round
           (Qsum (values_of
                    (filter (fun p => on_day d p && held_short p) positions))) 2
    /\ (forall root,
          dict_get root (position_values (exposure_loop d positions))
          = match filter (fun p => on_day d p && of_root root p) positions with
            | [] => None
            | l => Some (Qsum (values_of l))
            end)
    /\ DailyMetrics.trade_count m = length day_trades
    /\ DailyMetrics.turnover m = py_round (Qsum (map Trade.amount day_trades)) 2.
Proof.
  intros Hle d day_trades.
  destruct (calculate_daily_metrics_returns equity_row positions trades Hle)
    as (m & Hm & _ & _ & Hlong & Hshort & _ & _ & _ & _ & Hcount & Hturn).
  exists m. split; [exact Hm|]. split; [|split; [|split; [|split; [|split]]]].
  - rewrite <- Hm. unfold calculate_daily_metrics.
    rewrite exposure_loop_relabel, day_trades_relabel,
      day_trades_relabel_length.
    reflexivity.
  - rewrite Hlong. unfold exposure_loop. now rewrite exposure_loop_long.
  - rewrite Hshort. unfold exposure_loop. now rewrite exposure_loop_short.
  - intros root. unfold exposure_loop. rewrite exposure_loop_root. simpl.
    fold d.
    destruct (filter (fun p => on_day d p && of_root root p) positions)
      as [|p l]; [reflexivity|].
    simpl. now rewrite accumulate_some.
  - exact Hcount.
  - exact Hturn.
Qed.

(** ** Rounding *)

Lemma round_half_even_lower x : (Qfloor x <= round_half_even x)%Z.
Proof.
  unfold round_half_even.
  destruct (Qcompare _ _); [destruct (Z.even _)| |]; lia.
Qed.

Lemma round_half_even_upper x : (round_half_even x <= Qfloor x + 1)%Z.
Proof.
  unfold round_half_even.
  destruct (Qcompare _ _); [destruct (Z.even _)| |]; lia.
Qed.

Lemma round_half_even_mono x y :
  x <= y -> (round_half_even x <= round_half_even y)%Z.
Proof.
  intros Hxy.
  pose proof (Qfloor_resp_le _ _ Hxy) as Hfl.
  destruct (Z.eq_dec (Qfloor x) (Qfloor y)) as [E|NE].
  - unfold round_half_even. rewrite <- E.
    destruct (Qcompare_spec (x - inject_Z (Qfloor x)) (1 # 2));
      destruct (Qcompare_spec (y - inject_Z (Qfloor x)) (1 # 2));
      try (destruct (Z.even (Qfloor x)); lia); try lia; exfalso; lra.
  - pose proof (round_half_even_upper x).
    pose proof (round_half_even_lower y). lia.
Qed.

Lemma round_half_even_comp x y : x == y -> round_half_even x = round_half_even y.
Proof.
  intros E. apply Z.le_antisymm; apply round_half_even_mono; rewrite E;
    apply Qle_refl.
Qed.

Lemma round_half_even_Z k : round_half_even (inject_Z k) = k.
Proof.
  unfold round_half_even. rewrite Qfloor_Z.
  replace (Qcompare (inject_Z k - inject_Z k) (1 # 2)) with Lt; [reflexivity|].
  symmetry. apply (proj1 (Qlt_alt _ _)). lra.
Qed.

Lemma round_half_even_close y :
  inject_Z (round_half_even y) - y <= 1 # 2
  /\ y - inject_Z (round_half_even y) <= 1 # 2.
Proof.
  pose proof (Qfloor_le y) as Hlo. pose proof (Qlt_floor y) as Hhi.
  rewrite inject_Z_plus in Hhi. unfold round_half_even.
  destruct (Qcompare_spec (y - inject_Z (Qfloor y)) (1 # 2)) as [E|E|E];
    [destruct (Z.even (Qfloor y))| |];
    rewrite ?inject_Z_plus; change (inject_Z 1) with 1 in *;
    generalize dependent (inject_Z (Qfloor y)); intros; lra.
Qed.

Lemma round_half_even_tie y :
  inject_Z (round_half_even y) - y == 1 # 2
  \/ y - inject_Z (round_half_even y) == 1 # 2 ->
  Z.even (round_half_even y) = true.
Proof.
  unfold round_half_even. cbv zeta.
  pose proof (Qfloor_le y) as Hlo. pose proof (Qlt_floor y) as Hhi.
  rewrite inject_Z_plus in Hhi. change (inject_Z 1) with 1 in Hhi.
  destruct (Qcompare_spec (y - inject_Z (Qfloor y)) (1 # 2)) as [E | E | E].
  - intros _. destruct (Z.even (Qfloor y)) eqn:Ev; [exact Ev|].
    rewrite Z.add_1_r, Z.even_succ, <- Z.negb_even, Ev. reflexivity.
  - intros [H | H]; exfalso; revert Hlo Hhi E H;
      generalize (inject_Z (Qfloor y)); intros; lra.
  - rewrite inject_Z_plus. change (inject_Z 1) with 1.
    intros [H | H]; exfalso; revert Hlo Hhi E H;
      generalize (inject_Z (Qfloor y)); intros; lra.
Qed.

Lemma round_half_even_unique y k :
  inject_Z k - y <= 1 # 2 -> y - inject_Z k <= 1 # 2 ->
  (inject_Z k - y == 1 # 2 \/ y - inject_Z k == 1 # 2 -> Z.even k = true) ->
  round_half_even y = k.
Proof.
  intros H1 H2 Hev.
  destruct (round_half_even_close y) as [C1 C2].
  pose proof (round_half_even_tie y) as Htie.
  set (k0 := round_half_even y) in *.
  assert (Hle : (k <= k0 + 1)%Z).
  { rewrite Zle_Qle, inject_Z_plus. change (inject_Z 1) with 1. lra. }
  assert (Hge : (k0 <= k + 1)%Z).
  { rewrite Zle_Qle, inject_Z_plus. change (inject_Z 1) with 1. lra. }
  destruct (Z.eq_dec k0 k) as [E | Hne]; [exact E|]. exfalso.
  assert (Hcase : k = (k0 + 1)%Z \/ k0 = (k + 1)%Z) by lia.
  destruct Hcase as [-> | E].
  - rewrite inject_Z_plus in *. change (inject_Z 1) with 1 in *.
    assert (Ek : Z.even (k0 + 1) = true) by (apply Hev; left; lra).
    assert (Ek0 : Z.even k0 = true) by (apply Htie; right; lra).
    rewrite Z.add_1_r, Z.even_succ, <- Z.negb_even, Ek0 in Ek. discriminate.
  - rewrite E in *. rewrite inject_Z_plus in *. change (inject_Z 1) with 1 in *.
    assert (Ek : Z.even k = true) by (apply Hev; right; lra).
    assert (Ek0 : Z.even (k + 1) = true) by (apply Htie; left; lra).
    rewrite Z.add_1_r, Z.even_succ, <- Z.negb_even, Ek in Ek0. discriminate.
Qed.

Lemma py_round_comp x y n : x == y -> py_round x n == py_round y n.
Proof.
  intros E. unfold py_round.
  rewrite (round_half_even_comp
             (x * inject_Z (10 ^ Z.of_nat n)) (y * inject_Z (10 ^ Z.of_nat n)))
    by now rewrite E.
  reflexivity.
Qed.

Lemma pow10_pos n : 0 < inject_Z (10 ^ Z.of_nat n).
Proof.
  change 0 with (inject_Z 0). rewrite <- Zlt_Qlt.
  apply Z.pow_pos_nonneg; lia.
Qed.

Lemma py_round_mono x y n : x <= y -> py_round x n <= py_round y n.
Proof.
  intros Hxy. unfold py_round.
  pose proof (pow10_pos n) as Hs.
  set (s := inject_Z (10 ^ Z.of_nat n)) in *.
  apply Qmult_le_compat_r.
  - rewrite <- Zle_Qle. apply round_half_even_mono.
    apply Qmult_le_compat_r; [exact Hxy | now apply Qlt_le_weak].
  - apply Qlt_le_weak, Qinv_lt_0_compat, Hs.
Qed.

(** Rounding leaves an integer unchanged. *)
Lemma py_round_Z k n : py_round (inject_Z k) n == inject_Z k.
Proof.
  unfold py_round.
  pose proof (pow10_pos n) as Hs.
  rewrite (round_half_even_comp _ (inject_Z (k * 10 ^ Z.of_nat n))).
  - rewrite round_half_even_Z, inject_Z_mult. field.
    intros E. rewrite E in Hs. now apply Qlt_irrefl in Hs.
  - now rewrite inject_Z_mult.
Qed.

Lemma py_round_between (a b : Z) x n :
  inject_Z a <= x <= inject_Z b ->
  inject_Z a <= py_round x n <= inject_Z b.
Proof.
  intros [Ha Hb]. split.
  - rewrite <- (py_round_Z a n). now apply py_round_mono.
  - rewrite <- (py_round_Z b n). now apply py_round_mono.
Qed.

Lemma py_round_unit x n : 0 <= x <= 1 -> 0 <= py_round x n <= 1.
Proof. apply (py_round_between 0 1). Qed.

Lemma py_round_percent x n : 0 <= x <= 100 -> 0 <= py_round x n <= 100.
Proof. apply (py_round_between 0 100). Qed.

(** ** Sums *)

Lemma fold_left_Qplus_acc l a : fold_left Qplus l a == a + Qsum l.
Proof.
  unfold Qsum. revert a; induction l as [|x l IH]; intros a; simpl.
  - lra.
  - rewrite IH, (IH (0 + x)). lra.
Qed.

Lemma Qsum_cons x l : Qsum (x :: l) == x + Qsum l.
Proof. unfold Qsum at 1. simpl. rewrite fold_left_Qplus_acc. lra. Qed.

Lemma Qsum_app l1 l2 : Qsum (l1 ++ l2) == Qsum l1 + Qsum l2.
Proof.
  induction l1 as [|x l1 IH]; simpl.
  - unfold Qsum at 2. simpl. lra.
  - rewrite !Qsum_cons, IH. lra.
Qed.

Lemma Qsum_perm l1 l2 : Permutation l1 l2 -> Qsum l1 == Qsum l2.
Proof.
  induction 1 as [|x l1 l2 _ IH|x y l|l1 l2 l3 _ IH1 _ IH2].
  - reflexivity.
  - now rewrite !Qsum_cons, IH.
  - rewrite !Qsum_cons. lra.
  - now rewrite IH1.
Qed.

Lemma Qsum_nonneg l : Forall (fun v => 0 <= v) l -> 0 <= Qsum l.
Proof.
  induction 1 as [|x l Hx _ IH].
  - apply Qle_refl.
  - rewrite Qsum_cons. lra.
Qed.

Lemma Qsum_firstn_le n l :
  Forall (fun v => 0 <= v) l -> Qsum (firstn n l) <= Qsum l.
Proof.
  intros H. rewrite <- (firstn_skipn n l) at 2. rewrite Qsum_app.
  assert (0 <= Qsum (skipn n l)).
  { apply Qsum_nonneg. rewrite <- (firstn_skipn n l) in H.
    now apply Forall_app in H. }
  lra.
Qed.

Lemma hd_le_Qsum_firstn n l :
  Forall (fun v => 0 <= v) l -> hd 0 l <= Qsum (firstn (S n) l).
Proof.
  intros H. destruct l as [|x l]; simpl.
  - apply Qle_refl.
  - rewrite Qsum_cons. inversion H; subst.
    assert (0 <= Qsum (firstn n l)).
    { apply Qsum_nonneg. rewrite <- (firstn_skipn n l) in H3.
      now apply Forall_app in H3. }
    lra.
Qed.

(** ** Aggregation by contract root *)

Lemma dict_set_sum k v d :
  dict_values_sum (dict_set k v d)
  == dict_values_sum d
     - match dict_get k d with None => 0 | Some v0 => v0 end + v.
Proof.
  unfold dict_values_sum.
  induction d as [|[k' v'] d IH]; simpl.
  - rewrite Qsum_cons. lra.
  - destruct (String.eqb k' k); simpl; rewrite !Qsum_cons.
    + lra.
    + rewrite IH. lra.
Qed.

Lemma dict_add_sum k v d :
  dict_values_sum (dict_add k v d) == dict_values_sum d + v.
Proof.
  unfold dict_add.
  destruct (dict_get k d) as [v0|] eqn:E; rewrite dict_set_sum, E; lra.
Qed.

Lemma dict_set_Forall (P : Q -> Prop) k v d :
  P v -> Forall P (map snd d) -> Forall P (map snd (dict_set k v d)).
Proof.
  intros Hv. induction d as [|[k' v'] d IH]; simpl; intros H.
  - now constructor.
  - inversion H; subst.
    destruct (String.eqb k' k); simpl; constructor; auto.
Qed.

Lemma dict_get_Forall (P : Q -> Prop) k v d :
  Forall P (map snd d) -> dict_get k d = Some v -> P v.
Proof.
  induction d as [|[k' v'] d IH]; simpl; intros H E; [discriminate|].
  inversion H; subst.
  destruct (String.eqb k' k); [now inversion E; subst | auto].
Qed.

Lemma dict_add_nonneg k v d :
  0 <= v -> Forall (fun x => 0 <= x) (map snd d) ->
  Forall (fun x => 0 <= x) (map snd (dict_add k v d)).
Proof.
  intros Hv Hd. unfold dict_add.
  destruct (dict_get k d) as [v0|] eqn:E; apply dict_set_Forall; auto.
  - pose proof (dict_get_Forall _ _ _ _ Hd E) as H0. simpl in H0. lra.
  - lra.
Qed.

Lemma exposure_loop_nonneg {K : ContractRoot} d positions st :
  Forall (fun p => on_day d p = true -> 0 <= Position.position_value p)
    positions ->
  Forall (fun x => 0 <= x) (map snd (position_values st)) ->
  Forall (fun x => 0 <= x)
    (map snd (position_values (fold_left (exposure_step d) positions st))).
Proof.
  intros Hp. revert st.
  induction Hp as [|p ps Hp _ IH]; intros st Hst; simpl; [exact Hst|].
  apply IH. unfold exposure_step. unfold on_day in Hp.
  destruct (String.eqb (Position.trade_date p) d); simpl; [|exact Hst].
  apply dict_add_nonneg; auto.
Qed.

(** When every position of the day counts in at least one of the two
    exposures, the exposures outgrow the per-root values by the value of
    the positions that count in both. *)
Lemma exposure_loop_balance {K : ContractRoot} d positions st :
  Forall (fun p => on_day d p = true -> held_long p || held_short p = true)
    positions ->
  let st' := fold_left (exposure_step d) positions st in
  long_exposure st' + short_exposure st' - dict_values_sum (position_values st')
  == long_exposure st + short_exposure st - dict_values_sum (position_values st)
     + hedged_value d positions.
Proof.
  intros Hp. revert st.
  induction Hp as [|p ps Hp _ IH]; intros st; simpl.
  - unfold hedged_value, Qsum. simpl. lra.
  - rewrite IH. unfold hedged_value. cbn [filter].
    unfold exposure_step. unfold on_day, held_long, held_short in *.
    destruct (String.eqb (Position.trade_date p) d); simpl;
      [|reflexivity].
    specialize (Hp eq_refl). rewrite dict_add_sum.
    destruct (0 <? Position.long_qty p)%Z, (0 <? Position.short_qty p)%Z;
      simpl in Hp; try discriminate; simpl;
      unfold values_of; cbn [map]; rewrite ?Qsum_cons; lra.
Qed.

Lemma hedged_value_nonneg d positions :
  Forall (fun p => on_day d p = true -> 0 <= Position.position_value p)
    positions ->
  0 <= hedged_value d positions.
Proof.
  intros H. unfold hedged_value, values_of. apply Qsum_nonneg.
  apply Forall_forall. intros v Hv.
  apply in_map_iff in Hv as (p & <- & Hp). apply filter_In in Hp as [Hin Hd].
  apply andb_true_iff in Hd as [Hd _].
  rewrite Forall_forall in H. now apply H.
Qed.

Lemma hedged_value_none d positions :
  Forall (fun p => on_day d p = true -> xorb (held_long p) (held_short p) = true)
    positions ->
  hedged_value d positions == 0.
Proof.
  intros H. unfold hedged_value.
  replace (filter (fun p => on_day d p && (held_long p && held_short p))
             positions) with (@nil Position.t); [reflexivity|].
  symmetry. rewrite <- (filter_false positions). apply filter_ext_in.
  intros p Hp. rewrite Forall_forall in H. specialize (H p Hp).
  destruct (on_day d p); [|reflexivity]. specialize (H eq_refl).
  destruct (held_long p), (held_short p); try discriminate; reflexivity.
Qed.

Lemma sorted_reverse_nonneg l :
  Forall (fun x => 0 <= x) l -> Forall (fun x => 0 <= x) (sorted_reverse l).
Proof.
  intros H. apply Forall_forall. intros x Hx.
  rewrite Forall_forall in H. apply H.
  eapply Permutation_in; [|exact Hx].
  symmetry. apply stable_sort_perm.
Qed.

Lemma top1_ratio_le_top3_ratio st :
  Forall (fun x => 0 <= x) (map snd (position_values st)) ->
  top1_ratio st <= top3_ratio st.
Proof.
  intros H. unfold top1_ratio, top3_ratio.
  destruct (is_empty (position_values st)); [apply Qle_refl|].
  destruct (Qltb 0 (long_exposure st + short_exposure st)) eqn:E;
    [|apply Qle_refl].
  apply Qltb_lt in E.
  apply Qmult_le_compat_r.
  - apply (hd_le_Qsum_firstn 2). now apply sorted_reverse_nonneg.
  - now apply Qlt_le_weak, Qinv_lt_0_compat.
Qed.

Lemma py_round_0 n : py_round 0 n == 0.
Proof. apply (py_round_Z 0). Qed.

(** C2, amended: [top1_concentration <= top3_concentration] when no
    position of the day has a negative value, and both are 0 when the sum
    of the two exposures, before rounding, is not positive. *)
Theorem top1_at_most_top3 {K : ContractRoot} (equity_row : DailyEquity.t)
  (positions : list Position.t) (trades : list Trade.t) :
  pf_leb (DailyEquity.equity equity_row) (Fin 0) = false ->
  let st := exposure_loop (DailyEquity.trade_date equity_row) positions in
  exists m,
    calculate_daily_metrics equity_row positions trades = Return (Some m)
    /\ (Forall (fun p => on_day (DailyEquity.trade_date equity_row) p = true ->
                         0 <= Position.position_value p) positions ->
        DailyMetrics.top1_concentration m <= DailyMetrics.top3_concentration m)
    /\ (long_exposure st + short_exposure st <= 0 ->
        DailyMetrics.top1_concentration m == 0
        /\ DailyMetrics.top3_concentration m == 0).
Proof.
  intros Hle st.
  destruct (calculate_daily_metrics_returns equity_row positions trades Hle)
    as (m & Hm & _ & _ & _ & _ & _ & Htop1 & Htop3 & _).
  fold st in Htop1, Htop3.
  exists m. split; [exact Hm|]. rewrite Htop1, Htop3. split.
  - intros Hpos. apply py_round_mono, top1_ratio_le_top3_ratio.
    apply exposure_loop_nonneg; [exact Hpos | constructor].
  - intros Htot. apply Qltb_ge in Htot.
    unfold top1_ratio, top3_ratio. rewrite Htot.
    destruct (is_empty (position_values st)); split; apply py_round_0.
Qed.

(** C2, counterexample: with two contract roots of equal value the top-1
    share is 0.5 and the top-3 share is 1, so [top1 >= top3] fails; and
    with a single position worth 0.004 the reported
    [total_position_value] is 0 while [top1_concentration] is 1. *)
Lemma top1_below_top3_example :
  (exists m,
     calculate_daily_metrics (K:=ascii_contract_root)
         sample_row loss_positions [] = Return (Some m)
     /\ ~ DailyMetrics.top3_concentration m <= DailyMetrics.top1_concentration m)
  /\ (exists m,
        calculate_daily_metrics (K:=ascii_contract_root)
            sample_row tiny_positions [] = Return (Some m)
        /\ DailyMetrics.total_position_value m == 0
        /\ ~ DailyMetrics.top1_concentration m == 0).
Proof.
  split; eexists; (split; [vm_compute; reflexivity|]); cbn.
  - intros H. vm_compute in H. now apply H.
  - split; [reflexivity | discriminate].
Qed.

(** The theorem at [sample_row] and [loss_positions]. *)
Lemma top1_at_most_top3_witness :
  exists m,
    calculate_daily_metrics (K:=ascii_contract_root)
        sample_row loss_positions [] = Return (Some m)
    /\ DailyMetrics.top1_concentration m <= DailyMetrics.top3_concentration m.
Proof.
  destruct (top1_at_most_top3 (K:=ascii_contract_root)
      sample_row loss_positions [] eq_refl)
    as (m & Hm & H & _).
  exists m. split; [exact Hm|]. apply H.
  repeat (apply Forall_cons; [intros _; discriminate|]). apply Forall_nil.
Defined.

(** The theorem at [sample_row], [loss_positions] and [loss_trades], the
    records relabelled to other strategies. *)
Lemma daily_metrics_select_by_day_only_witness :
  exists m,
    calculate_daily_metrics (K:=ascii_contract_root)
        sample_row loss_positions loss_trades
    = Return (Some m)
    /\ calculate_daily_metrics (K:=ascii_contract_root) sample_row
         (map (fun p => position_with_strategy "s2" p) loss_positions)
         (map (fun t => trade_with_strategy "s3" t) loss_trades)
       = Return (Some m)
    /\ DailyMetrics.trade_count m = 2%nat.
Proof.
  destruct (daily_metrics_select_by_day_only (K:=ascii_contract_root)
      sample_row loss_positions
              loss_trades (fun _ => "s2") (fun _ => "s3") eq_refl)
    as (m & Hm & Hm' & _ & _ & _ & Hcount & _).
  exists m. repeat split; assumption.
Defined.

(** ** Concentration fractions *)

Lemma Qsum_map_div {A : Type} (f : A -> Q) (c : Q) (l : list A) :
  Qsum (map (fun a => f a / c) l) == Qsum (map f l) / c.
Proof.
  induction l as [|a l IH]; simpl.
  - unfold Qsum; simpl. unfold Qdiv. lra.
  - rewrite !Qsum_cons, IH. unfold Qdiv. lra.
Qed.

Lemma In_le_Qsum x l : Forall (fun v => 0 <= v) l -> In x l -> x <= Qsum l.
Proof.
  induction 1 as [|y l Hy Hl IH]; simpl; [easy|].
  pose proof (Qsum_nonneg l Hl).
  rewrite Qsum_cons. intros [->|Hin]; [|specialize (IH Hin)]; lra.
Qed.

Lemma Qdiv_between_0_1 a b : 0 <= a -> a <= b -> 0 < b -> 0 <= a / b <= 1.
Proof.
  intros Ha Hab Hb. split.
  - apply Qle_shift_div_l; [exact Hb | lra].
  - apply Qle_shift_div_r; [exact Hb | lra].
Qed.

(** C4, amended: when the total position value is positive and every
    position of the day has a non-negative value and counts in at least
    one of the two exposures, the per-root fractions lie in [[0,1]] and
    so do the two reported concentrations; the fractions sum to 1 less
    the share of the positions held long and short at once, which count
    twice in the total: to at most 1, and to 1 exactly when those
    positions are worth nothing, as when every position counts in one
    exposure only. *)
Theorem concentration_fractions_partition {K : ContractRoot}
  (equity_row : DailyEquity.t)
  (positions : list Position.t) (trades : list Trade.t) :
  pf_leb (DailyEquity.equity equity_row) (Fin 0) = false ->
  Forall (fun p => on_day (DailyEquity.trade_date equity_row) p = true ->
                   0 <= Position.position_value p
                   /\ held_long p || held_short p = true) positions ->
  let st := exposure_loop (DailyEquity.trade_date equity_row) positions in
  let hedged := hedged_value (DailyEquity.trade_date equity_row) positions in
  0 < long_exposure st + short_exposure st ->
  exists m,
    calculate_daily_metrics equity_row positions trades = Return (Some m)
    /\ Forall (fun f => 0 <= f <= 1) (concentration_fractions st)
    /\ Qsum (concentration_fractions st)
       == 1 - hedged / (long_exposure st + short_exposure st)
    /\ Qsum (concentration_fractions st) <= 1
    /\ (Qsum (concentration_fractions st) == 1 <-> hedged == 0)
    /\ (Forall (fun p =>
                  on_day (DailyEquity.trade_date equity_row) p = true ->
                  xorb (held_long p) (held_short p) = true) positions ->
        Qsum (concentration_fractions st) == 1)
    /\ 0 <= DailyMetrics.top1_concentration m <= 1
    /\ 0 <= DailyMetrics.top3_concentration m <= 1.
Proof.
  intros Hle Hpos st hedged Htot.
  destruct (calculate_daily_metrics_returns equity_row positions trades Hle)
    as (m & Hm & _ & _ & _ & _ & _ & Htop1 & Htop3 & _).
  fold st in Htop1, Htop3.
  assert (Hval : Forall (fun p =>
                   on_day (DailyEquity.trade_date equity_row) p = true ->
                   0 <= Position.position_value p) positions).
  { eapply Forall_impl; [|exact Hpos]. intros p H Hd. now apply H. }
  assert (Hnn : Forall (fun x => 0 <= x) (map snd (position_values st))).
  { apply exposure_loop_nonneg; [exact Hval | constructor]. }
  assert (Hhedged : 0 <= hedged) by now apply hedged_value_nonneg.
  assert (Hsum : dict_values_sum (position_values st)
                 == long_exposure st + short_exposure st - hedged).
  { pose proof (exposure_loop_balance (DailyEquity.trade_date equity_row)
                  positions
                  {| long_exposure := 0; short_exposure := 0;
                     position_values := [] |}) as Hb.
    fold (exposure_loop (DailyEquity.trade_date equity_row) positions) in Hb.
    fold st in Hb. fold hedged in Hb.
    assert (Hx : Forall (fun p =>
                  on_day (DailyEquity.trade_date equity_row) p = true ->
                  held_long p || held_short p = true) positions).
    { eapply Forall_impl; [|exact Hpos]. intros p H Hd. now apply H. }
    specialize (Hb Hx). cbv zeta in Hb.
    cbn [long_exposure short_exposure position_values] in Hb.
    change (dict_values_sum []) with 0 in Hb. lra. }
  unfold dict_values_sum in Hsum.
  remember (long_exposure st + short_exposure st) as total eqn:Et.
  assert (Hsorted : Forall (fun x => 0 <= x)
                      (sorted_reverse (map snd (position_values st))))
    by now apply sorted_reverse_nonneg.
  assert (Hsortsum : Qsum (sorted_reverse (map snd (position_values st)))
                     == total - hedged).
  { rewrite <- Hsum. apply Qsum_perm. symmetry. apply stable_sort_perm. }
  assert (Hfrac : Qsum (concentration_fractions st) == 1 - hedged / total).
  { unfold concentration_fractions. rewrite <- Et.
    rewrite (Qsum_map_div snd), Hsum. field. lra. }
  assert (Hshare : 0 <= hedged / total).
  { apply Qle_shift_div_l; [exact Htot | lra]. }
  exists m. split; [exact Hm|].
  split; [|split; [exact Hfrac|split; [|split; [|split; [|split]]]]].
  - unfold concentration_fractions. rewrite <- Et.
    apply Forall_forall. intros f Hf.
    apply in_map_iff in Hf as ([k v] & <- & Hin). simpl.
    assert (Hv : In v (map snd (position_values st))).
    { apply in_map_iff. now exists (k, v). }
    apply Qdiv_between_0_1; [| |exact Htot].
    + rewrite Forall_forall in Hnn. now apply Hnn.
    + apply (Qle_trans _ (total - hedged)); [|lra].
      rewrite <- Hsum. now apply In_le_Qsum.
  - rewrite Hfrac. lra.
  - rewrite Hfrac. split; intros H.
    + assert (H0 : hedged / total == 0) by lra.
      rewrite <- (Qmult_div_r hedged total) by lra. rewrite H0. ring.
    + rewrite H. unfold Qdiv. ring.
  - intros Hx. rewrite Hfrac.
    unfold hedged. rewrite (hedged_value_none _ _ Hx). unfold Qdiv. ring.
  - rewrite Htop1. apply py_round_unit.
    unfold top1_ratio. rewrite <- Et.
    destruct (is_empty (position_values st)); [lra|].
    rewrite (proj2 (Qltb_lt _ _) Htot).
    destruct (sorted_reverse (map snd (position_values st))) as [|s0 rest] eqn:Es;
      simpl.
    + apply Qdiv_between_0_1; lra.
    + apply Qdiv_between_0_1; [| |exact Htot].
      * now inversion Hsorted.
      * apply (Qle_trans _ (total - hedged)); [|lra].
        rewrite <- Hsortsum. apply In_le_Qsum; [exact Hsorted | now left].
  - rewrite Htop3. apply py_round_unit.
    unfold top3_ratio. rewrite <- Et.
    destruct (is_empty (position_values st)); [lra|].
    rewrite (proj2 (Qltb_lt _ _) Htot).
    apply Qdiv_between_0_1; [| |exact Htot].
    + apply Qsum_nonneg.
      rewrite <- (firstn_skipn 3 (sorted_reverse _)) in Hsorted.
      now apply Forall_app in Hsorted.
    + apply (Qle_trans _ (total - hedged)); [|lra].
      rewrite <- Hsortsum. now apply Qsum_firstn_le.
Qed.

(** C4, counterexample: a single contract held long and short at once
    enters [total_position_value] twice and its root's value once, so the
    only fraction is 1/2 and the fractions do not sum to 1 (the reported
    top-3 share is 0.5).  Moreover a record with neither a long nor a
    short quantity gives a fraction above 1, and a negative position
    value a fraction below 0. *)
Lemma hedged_fractions_example :
  (exists m,
     calculate_daily_metrics (K:=ascii_contract_root)
         sample_row hedged_positions [] = Return (Some m)
     /\ 0 < DailyMetrics.total_position_value m
     /\ DailyMetrics.top3_concentration m == 0.5
     /\ map Qred
          (concentration_fractions (exposure_loop (K:=ascii_contract_root)
              "2025-12-01" hedged_positions))
        = [1 # 2]
     /\ ~ Qsum (concentration_fractions
                  (exposure_loop (K:=ascii_contract_root)
                      "2025-12-01" hedged_positions)) == 1)
  /\ (exists m,
        calculate_daily_metrics (K:=ascii_contract_root)
            sample_row flat_positions [] = Return (Some m)
        /\ 0 < DailyMetrics.total_position_value m
        /\ Exists (fun f => ~ f <= 1)
             (concentration_fractions
                (exposure_loop (K:=ascii_contract_root)
                    "2025-12-01" flat_positions)))
  /\ (exists m,
        calculate_daily_metrics (K:=ascii_contract_root)
            sample_row negative_positions []
        = Return (Some m)
        /\ 0 < DailyMetrics.total_position_value m
        /\ Exists (fun f => ~ 0 <= f)
             (concentration_fractions
                (exposure_loop (K:=ascii_contract_root)
                    "2025-12-01" negative_positions))).
Proof.
  split; [|split]; eexists; (split; [vm_compute; reflexivity|]); cbn.
  - repeat split; try reflexivity. intros H; vm_compute in H; discriminate.
  - split; [reflexivity|]. apply Exists_cons_tl, Exists_cons_hd.
    intros H; vm_compute in H; now apply H.
  - split; [reflexivity|]. apply Exists_cons_tl, Exists_cons_hd.
    intros H; vm_compute in H; now apply H.
Qed.

(** The theorem at [sample_row] and [hedged_positions], one contract
    held long and short at once: its fraction is within [[0,1]] and the
    fractions sum to 1 less 10000 / 20000. *)
Lemma concentration_fractions_partition_witness :
  exists m,
    calculate_daily_metrics (K:=ascii_contract_root) sample_row
      hedged_positions [] = Return (Some m)
    /\ Forall (fun f => 0 <= f <= 1)
         (concentration_fractions
            (exposure_loop (K:=ascii_contract_root) "2025-12-01"
               hedged_positions))
    /\ Qsum (concentration_fractions
               (exposure_loop (K:=ascii_contract_root) "2025-12-01"
                  hedged_positions))
       == 1 - 10000 / 20000.
Proof.
  destruct (concentration_fractions_partition (K:=ascii_contract_root)
              sample_row hedged_positions [] eq_refl)
    as (m & Hm & Hin & Hsum & _).
  - repeat (apply Forall_cons;
              [intros _; split; [discriminate | reflexivity]|]).
    apply Forall_nil.
  - reflexivity.
  - exists m. split; [exact Hm|]. split; [exact Hin|].
    rewrite Hsum. reflexivity.
Defined.

(** ** Daily returns *)

Lemma nth_error_map2 {A B C : Type} (f : A -> B -> C) l1 l2 i :
  nth_error (map2 f l1 l2) i
  = match nth_error l1 i, nth_error l2 i with
    | Some a, Some b => Some (f a b)
    | _, _ => None
    end.
Proof.
  revert l2 i; induction l1 as [|a l1 IH]; intros [|b l2] [|i]; simpl;
    try reflexivity.
  - now destruct (nth_error l1 i).
  - apply IH.
Qed.

Lemma nth_error_shift1 s i :
  nth_error (shift1 s) i
  = if (i <? length s)%nat
    then match i with O => Some NaN | S j => nth_error s j end
    else None.
Proof.
  unfold shift1. rewrite nth_error_firstn.
  destruct (i <? length s)%nat; [|reflexivity]. now destruct i.
Qed.

Lemma pf_div_nan_r x : pf_div x NaN = NaN.
Proof. now destruct x. Qed.

Lemma pf_div_zero n z :
  z == 0 -> fillna0 (pf_div n (Fin z)) = return_over_zero n.
Proof.
  intros Hz. destruct n as [a| | |]; simpl.
  - rewrite (Qeq_eq_bool _ _ Hz). now destruct (Qcompare a 0).
  - replace (Qltb z 0) with false; [reflexivity|].
    symmetry. apply Qltb_ge. rewrite Hz. apply Qle_refl.
  - replace (Qltb z 0) with false; [reflexivity|].
    symmetry. apply Qltb_ge. rewrite Hz. apply Qle_refl.
  - reflexivity.
Qed.

(** Row by row: the previous equity and the daily return. *)
Lemma daily_return_at {O : SortValues}
  (equity_df : list DailyEquity.t) (i : nat)
  (row : DailyEquity.t) :
  let out := calculate_daily_returns equity_df in
  nth_error (Returns.rows out) i = Some row ->
  exists prev,
    nth_error (Returns.prev_equity out) i = Some prev
    /\ prev = match i with
              | O => NaN
              | S j => match nth_error (Returns.rows out) j with
                       | Some before => DailyEquity.equity before
                       | None => NaN
                       end
              end
    /\ nth_error (Returns.daily_return out) i
       = Some (fillna0
                 (pf_div
                    (pf_sub (pf_sub (DailyEquity.equity row) prev)
                       (DailyEquity.deposit_withdraw row)) prev)).
Proof.
  intros out Hrow. unfold out, calculate_daily_returns in *. simpl in *.
  set (df := sort_values_trade_date equity_df) in *.
  assert (Hi : (i < length df)%nat).
  { apply nth_error_Some. rewrite Hrow. discriminate. }
  assert (Hprev : exists prev,
    nth_error (shift1 (map DailyEquity.equity df)) i = Some prev
    /\ prev = match i with
              | O => NaN
              | S j => match nth_error df j with
                       | Some before => DailyEquity.equity before
                       | None => NaN
                       end
              end).
  { rewrite nth_error_shift1, length_map.
    rewrite (proj2 (Nat.ltb_lt _ _) Hi).
    destruct i as [|j]; [now exists NaN|].
    rewrite nth_error_map.
    destruct (nth_error df j) as [before|] eqn:E; simpl.
    - now exists (DailyEquity.equity before).
    - apply nth_error_None in E. lia. }
  destruct Hprev as (prev & Hprev & Hval).
  exists prev. split; [exact Hprev|]. split; [exact Hval|].
  rewrite nth_error_map, !nth_error_map2, Hprev, !nth_error_map, Hrow.
  reflexivity.
Qed.

(** What the code leaves in [daily_return], row by row: [prev_equity]
    is NaN on the first day and the equity of the previous row
    afterwards.  When it is missing (NaN), the day's [daily_return] is
    0, and no [daily_return] is NaN.  A zero previous equity has no
    guard: the return is then 0 only if
    [equity - prev_equity - deposit_withdraw] is zero or NaN, and plus or
    minus infinity by its sign otherwise. *)
Lemma daily_return_previous_equity_missing_or_zero {O : SortValues}
  (equity_df : list DailyEquity.t) (i : nat) (row : DailyEquity.t) :
  let out := calculate_daily_returns equity_df in
  nth_error (Returns.rows out) i = Some row ->
  exists prev r,
    nth_error (Returns.prev_equity out) i = Some prev
    /\ nth_error (Returns.daily_return out) i = Some r
    /\ prev = match i with
              | O => NaN
              | S j => match nth_error (Returns.rows out) j with
                       | Some before => DailyEquity.equity before
                       | None => NaN
                       end
              end
    /\ (prev = NaN -> r = Fin 0)
    /\ r <> NaN
    /\ (forall z, prev = Fin z -> z == 0 ->
        r = return_over_zero
              (pf_sub (pf_sub (DailyEquity.equity row) prev)
                 (DailyEquity.deposit_withdraw row))).
Proof.
  intros out Hrow.
  destruct (daily_return_at equity_df i row Hrow) as (prev & Hprev & Hval & Hr).
  exists prev. eexists. split; [exact Hprev|]. split; [exact Hr|].
  split; [exact Hval|]. split; [|split].
  - intros ->. now rewrite pf_div_nan_r.
  - unfold fillna0. now destruct (pf_div _ prev).
  - intros z -> Hz. now apply pf_div_zero.
Qed.

(** C3, code bug: the specification asks for a return of 0 when the
    previous day's equity is zero or missing.  The code fills the
    missing case only (the NaN that the division leaves on the first
    day); a zero previous equity goes through the division unguarded.
    At the failing input, an equity of 0 on the first day and of 100 on
    the second without deposit, the second day's previous equity is zero
    and its [daily_return] is [+inf], not 0, whatever the sort. *)
Theorem daily_return_after_zero_equity {O : SortValues} :
  nth_error (Returns.prev_equity (calculate_daily_returns zero_then_100)) 1
  = Some (Fin 0)
  /\ nth_error (Returns.daily_return (calculate_daily_returns zero_then_100)) 1
     = Some PInf
  /\ PInf <> Fin 0.
Proof.
  rewrite (calculate_daily_returns_any_sort zero_then_100)
    by (repeat constructor; simpl; intuition discriminate).
  vm_compute. repeat split; discriminate.
Qed.

(** ** Grouping a list by a key *)

Section Grouping.
Context {A : Type}.

Lemma filter_filter (f g : A -> bool) (l : list A) :
  filter f (filter g l) = filter (fun x => g x && f x) l.
Proof.
  induction l as [|x l IH]; simpl; [reflexivity|].
  destruct (g x); simpl; [destruct (f x)|]; now rewrite IH.
Qed.

Lemma filter_all (f : A -> bool) (l : list A) :
  (forall x, In x l -> f x = true) -> filter f l = l.
Proof.
  intros H. apply forallb_filter_id, forallb_forall, H.
Qed.

Lemma filter_disjoint_perm (f g : A -> bool) (l : list A) :
  (forall x, f x = true -> g x = true -> False) ->
  Permutation (filter f l ++ filter g l) (filter (fun x => f x || g x) l).
Proof.
  intros Hfg. induction l as [|x l IH]; simpl; [constructor|].
  destruct (f x) eqn:Ef; simpl.
  - destruct (g x) eqn:Eg; [destruct (Hfg x Ef Eg)|]. now constructor.
  - destruct (g x); [|exact IH].
    rewrite <- Permutation_middle. now constructor.
Qed.

Lemma flat_map_filter_by_key (key : A -> string) (ks : list string)
  (l : list A) :
  NoDup ks ->
  Permutation
    (flat_map (fun k => filter (fun x => String.eqb (key x) k) l) ks)
    (filter (fun x => existsb (String.eqb (key x)) ks) l).
Proof.
  induction 1 as [|k ks Hk _ IH]; simpl.
  - now rewrite filter_false.
  - rewrite IH. apply filter_disjoint_perm.
    intros x E1 E2. apply String.eqb_eq in E1. subst k.
    apply existsb_exists in E2 as (k' & Hin & E).
    apply String.eqb_eq in E. now subst k'.
Qed.

Lemma flat_map_perm_ext {B : Type} (f g : A -> list B) (l : list A) :
  (forall x, Permutation (f x) (g x)) ->
  Permutation (flat_map f l) (flat_map g l).
Proof.
  intros H. induction l as [|x l IH]; simpl; [constructor|].
  now apply Permutation_app.
Qed.

Lemma flat_map_singleton_filter {B : Type} (p : A -> bool) (f : A -> B)
  (l : list A) :
  flat_map (fun x => if p x then [f x] else []) l = map f (filter p l).
Proof.
  induction l as [|x l IH]; simpl; [reflexivity|].
  destruct (p x); simpl; now rewrite IH.
Qed.

Lemma find_filter (f g : A -> bool) (l : list A) :
  find f (filter g l) = find (fun x => g x && f x) l.
Proof.
  induction l as [|x l IH]; simpl; [reflexivity|].
  destruct (g x); simpl; [destruct (f x)|]; auto.
Qed.

Lemma find_app (f : A -> bool) (l1 l2 : list A) :
  find f (l1 ++ l2)
  = match find f l1 with Some x => Some x | None => find f l2 end.
Proof.
  induction l1 as [|x l1 IH]; simpl; [reflexivity|].
  now destruct (f x).
Qed.
End Grouping.

Lemma unique_In x l : In x (unique l) <-> In x l.
Proof.
  induction l as [|a l IH]; simpl; [tauto|].
  rewrite filter_In, IH, negb_true_iff, String.eqb_neq.
  destruct (string_dec a x); [tauto|].
  split; [tauto|]. intros [H|H]; [tauto|]. right. split; [exact H|congruence].
Qed.

Lemma unique_NoDup l : NoDup (unique l).
Proof.
  induction l as [|a l IH]; simpl; constructor.
  - rewrite filter_In, negb_true_iff, String.eqb_neq. tauto.
  - now apply NoDup_filter.
Qed.

Lemma existsb_eqb_In x ks : In x ks -> existsb (String.eqb x) ks = true.
Proof.
  intros H. apply existsb_exists. exists x. split; [exact H|].
  apply String.eqb_refl.
Qed.

(** ** Arithmetic on doubles *)

Section FloatFacts.
Context {D : FloatArith}.

Lemma fl_round_comp x y : x == y -> fl_round x == fl_round y.
Proof.
  intros E. apply Qle_antisym; apply fl_round_mono; rewrite E; apply Qle_refl.
Qed.

(** An integer of at most 53 bits is a double. *)
Lemma fl_round_Z z :
  (Z.abs z <= 2 ^ 53)%Z -> fl_round (inject_Z z) == inject_Z z.
Proof.
  intros Hz. pose proof (fl_round_dyadic z 0 Hz (Nat.le_0_l _)) as E.
  assert (E1 : inject_Z z / inject_Z (2 ^ Z.of_nat 0) == inject_Z z).
  { change (inject_Z (2 ^ Z.of_nat 0)) with 1. field. }
  rewrite <- E1 at 2. rewrite <- E. apply fl_round_comp. now rewrite E1.
Qed.

(** Rounding does not cross a double. *)
Lemma fl_round_above m n x :
  (Z.abs m <= 2 ^ 53)%Z -> (n <= 1074)%nat ->
  inject_Z m / inject_Z (2 ^ Z.of_nat n) <= x ->
  inject_Z m / inject_Z (2 ^ Z.of_nat n) <= fl_round x.
Proof.
  intros Hm Hn Hx. rewrite <- (fl_round_dyadic m n Hm Hn).
  now apply fl_round_mono.
Qed.

Lemma fl_round_below m n x :
  (Z.abs m <= 2 ^ 53)%Z -> (n <= 1074)%nat ->
  x <= inject_Z m / inject_Z (2 ^ Z.of_nat n) ->
  fl_round x <= inject_Z m / inject_Z (2 ^ Z.of_nat n).
Proof.
  intros Hm Hn Hx. rewrite <- (fl_round_dyadic m n Hm Hn).
  now apply fl_round_mono.
Qed.

Lemma fl_round_0 : fl_round 0 == 0.
Proof. exact (fl_round_Z 0 ltac:(vm_compute; discriminate)). Qed.

Lemma fl_round_nonneg x : 0 <= x -> 0 <= fl_round x.
Proof. intros H. rewrite <- fl_round_0. now apply fl_round_mono. Qed.

Lemma fl_round_nonpos x : x <= 0 -> fl_round x <= 0.
Proof. intros H. rewrite <- fl_round_0. now apply fl_round_mono. Qed.

Lemma fl_sum_Z z : (Z.abs z <= 2 ^ 53)%Z -> fl_sum [inject_Z z] == inject_Z z.
Proof. intros Hz. rewrite fl_sum_one. now apply fl_round_Z. Qed.

(** The thresholds of the two detectors lie apart. *)
Lemma threshold_005 :
  (12 # 256) <= fl_round 0.05 /\ fl_round 0.05 <= (13 # 256).
Proof.
  split.
  - apply (fl_round_above 12 8); [vm_compute; discriminate | lia |].
    vm_compute. discriminate.
  - apply (fl_round_below 13 8); [vm_compute; discriminate | lia |].
    vm_compute. discriminate.
Qed.

Lemma threshold_002 :
  (5 # 256) <= fl_round 0.02 /\ fl_round 0.02 <= (6 # 256).
Proof.
  split.
  - apply (fl_round_above 5 8); [vm_compute; discriminate | lia |].
    vm_compute. discriminate.
  - apply (fl_round_below 6 8); [vm_compute; discriminate | lia |].
    vm_compute. discriminate.
Qed.

Lemma threshold_003 :
  (7 # 256) <= fl_round 0.03 /\ fl_round 0.03 <= (8 # 256).
Proof.
  split.
  - apply (fl_round_above 7 8); [vm_compute; discriminate | lia |].
    vm_compute. discriminate.
  - apply (fl_round_below 8 8); [vm_compute; discriminate | lia |].
    vm_compute. discriminate.
Qed.

Lemma threshold_0015 :
  (3 # 256) <= fl_round 0.015 /\ fl_round 0.015 <= (4 # 256).
Proof.
  split.
  - apply (fl_round_above 3 8); [vm_compute; discriminate | lia |].
    vm_compute. discriminate.
  - apply (fl_round_below 4 8); [vm_compute; discriminate | lia |].
    vm_compute. discriminate.
Qed.

(** A double within [1 / 2 ^ 16] of a decimal rounds to it at 4
    decimals. *)
Lemma py_round_4_near (k : Z) x y :
  y == inject_Z k / 10000 ->
  Qabs (x - y) <= 1 # 65536 ->
  py_round x 4 == y.
Proof.
  intros Hy Hx. unfold py_round.
  change (inject_Z (10 ^ Z.of_nat 4)) with 10000.
  apply Qabs_Qle_condition in Hx as [Hlo Hhi].
  rewrite (round_half_even_unique (x * 10000) k).
  - now rewrite Hy.
  - assert (inject_Z k == y * 10000) by (rewrite Hy; field). lra.
  - assert (inject_Z k == y * 10000) by (rewrite Hy; field). lra.
  - assert (inject_Z k == y * 10000) by (rewrite Hy; field).
    intros [E | E]; exfalso; lra.
Qed.

(** The double nearest to a number lies within [1 / 2 ^ 16] of it, when
    the number is at most [2 ^ 36] in absolute value. *)
Lemma fl_round_near x :
  Qabs x <= inject_Z (2 ^ 36) -> Qabs (fl_round x - x) <= 1 # 65536.
Proof.
  intros Hx. apply Qabs_Qle_condition in Hx as [Hlo Hhi].
  set (f := Qfloor (x * 65536)).
  assert (Hf : inject_Z f <= x * 65536 /\ x * 65536 < inject_Z (f + 1)).
  { split; [apply Qfloor_le | apply Qlt_floor]. }
  destruct Hf as [Hf1 Hf2]. rewrite inject_Z_plus in Hf2.
  change (inject_Z 1) with 1 in Hf2.
  assert (Hfr : (- 2 ^ 52 <= f <= 2 ^ 52)%Z).
  { split.
    - rewrite <- (Qfloor_Z (- 2 ^ 52)). apply Qfloor_resp_le.
      apply (Qle_trans _ (- inject_Z (2 ^ 36) * 65536)); [|lra].
      vm_compute. discriminate.
    - rewrite Zle_Qle. apply (Qle_trans _ (x * 65536)); [exact Hf1|].
      apply (Qle_trans _ (inject_Z (2 ^ 36) * 65536)); [lra|].
      vm_compute. discriminate. }
  assert (E16 : inject_Z (2 ^ Z.of_nat 16) == 65536) by reflexivity.
  assert (Hlo' : inject_Z f / inject_Z (2 ^ Z.of_nat 16) <= fl_round x).
  { apply fl_round_above; [lia | lia |]. rewrite E16.
    apply Qle_shift_div_r; [reflexivity | exact Hf1]. }
  assert (Hhi' : fl_round x <= inject_Z (f + 1) / inject_Z (2 ^ Z.of_nat 16)).
  { apply fl_round_below; [lia | lia |]. rewrite E16.
    apply Qle_shift_div_l; [reflexivity|].
    rewrite inject_Z_plus. change (inject_Z 1) with 1. lra. }
  rewrite E16 in Hlo', Hhi'. rewrite inject_Z_plus in Hhi'.
  change (inject_Z 1) with 1 in Hhi'.
  assert (Hlo2 : inject_Z f <= fl_round x * 65536).
  { apply (Qmult_le_r _ _ (/ 65536)); [reflexivity|].
    setoid_replace (fl_round x * 65536 * / 65536) with (fl_round x) by field.
    exact Hlo'. }
  assert (Hhi2 : fl_round x * 65536 <= inject_Z f + 1).
  { apply (Qmult_le_r _ _ (/ 65536)); [reflexivity|].
    setoid_replace (fl_round x * 65536 * / 65536) with (fl_round x) by field.
    exact Hhi'. }
  apply Qabs_Qle_condition. split; lra.
Qed.

End FloatFacts.

(** ** Floating-loss add-ons *)

Lemma flat_map_map {A B C : Type} (f : B -> C) (g : A -> list B) (l : list A) :
  flat_map (fun x => map f (g x)) l = map f (flat_map g l).
Proof.
  induction l as [|x l IH]; simpl; [reflexivity|].
  now rewrite map_app, IH.
Qed.

Lemma flat_map_nil {A B : Type} (f : A -> list B) (l : list A) :
  (forall x, In x l -> f x = []) -> flat_map f l = [].
Proof.
  intros H. induction l as [|x l IH]; simpl; [reflexivity|].
  rewrite (H x (or_introl eq_refl)), IH; [reflexivity|].
  intros y Hy. apply H. now right.
Qed.

Lemma flat_map_ext_in {A B : Type} (f g : A -> list B) (l : list A) :
  (forall x, In x l -> f x = g x) -> flat_map f l = flat_map g l.
Proof.
  intros H. induction l as [|x l IH]; simpl; [reflexivity|].
  rewrite (H x (or_introl eq_refl)), IH; [reflexivity|].
  intros y Hy. apply H. now right.
Qed.

Lemma holdings_staged positions (t : Trade.t) :
  filter (fun p => String.eqb (Position.contract p) (Trade.contract t))
    (filter (fun p => String.eqb (Position.trade_date p) (Trade.trade_date t))
       (filter (fun p => String.eqb (Position.strategy_code p)
                           (Trade.strategy_code t)) positions))
  = holdings positions t.
Proof.
  rewrite !filter_filter. apply filter_ext. intros p. apply andb_assoc.
Qed.

Lemma floating_pnl_of_nil {D : FloatArith} positions t :
  holdings positions t = [] -> Qltb (floating_pnl_of positions t) 0 = false.
Proof.
  unfold floating_pnl_of. intros ->. apply Qltb_ge. cbn [map].
  rewrite fl_sum_nil. apply Qle_refl.
Qed.

(** The loop body, on a trade of the strategy and the day of the group. *)
Lemma floating_loss_check_spec {D : FloatArith} positions (t : Trade.t) :
  floating_loss_check (Trade.strategy_code t) (Trade.trade_date t)
    (filter (fun p => String.eqb (Position.trade_date p) (Trade.trade_date t))
       (filter (fun p => String.eqb (Position.strategy_code p)
                           (Trade.strategy_code t)) positions)) t
  = if Qltb (floating_pnl_of positions t) 0
    then [floating_loss_alert positions t] else [].
Proof.
  unfold floating_loss_check. rewrite holdings_staged.
  destruct (holdings positions t) as [|p ps] eqn:E.
  - simpl. now rewrite floating_pnl_of_nil.
  - cbn [is_empty]. unfold floating_loss_alert, loss_ratio_of,
      floating_pnl_of, position_value_of. rewrite E. reflexivity.
Qed.

Lemma adds_to_loss_holding {D : FloatArith} positions t :
  adds_to_loss positions t = true ->
  exists p, In p positions /\ same_holding t p = true.
Proof.
  unfold adds_to_loss. intros H. apply andb_true_iff in H as [_ H].
  destruct (holdings positions t) as [|p ps] eqn:E.
  - now rewrite floating_pnl_of_nil in H.
  - exists p. apply filter_In. unfold holdings in E. rewrite E. now left.
Qed.

(** The alerts of one strategy on one day. *)
Lemma floating_loss_group {D : FloatArith} positions trades s d :
  let day_positions :=
    filter (fun p => String.eqb (Position.trade_date p) d)
      (filter (fun p => String.eqb (Position.strategy_code p) s) positions) in
  let day_trades :=
    filter (fun t => String.eqb (Trade.trade_date t) d
                     && String.eqb (Trade.offset_flag t) OPEN)
      (filter (fun t => String.eqb (Trade.strategy_code t) s) trades) in
  (if is_empty day_positions || is_empty day_trades then []
   else flat_map (floating_loss_check s d day_positions) day_trades)
  = map (floating_loss_alert positions)
      (filter (fun t => String.eqb (Trade.trade_date t) d)
         (filter (fun t => String.eqb (Trade.strategy_code t) s)
            (filter (adds_to_loss positions) trades))).
Proof.
  intros day_positions day_trades.
  assert (Hbody : flat_map (floating_loss_check s d day_positions) day_trades
    = map (floating_loss_alert positions)
        (filter (fun t => Qltb (floating_pnl_of positions t) 0) day_trades)).
  { rewrite <- flat_map_singleton_filter. apply flat_map_ext_in.
    intros t Ht. unfold day_trades in Ht.
    apply filter_In in Ht as [Ht Hd]. apply filter_In in Ht as [_ Hs].
    apply andb_true_iff in Hd as [Hd _].
    apply String.eqb_eq in Hs, Hd. subst s d.
    apply floating_loss_check_spec. }
  assert (Hsel : filter (fun t => Qltb (floating_pnl_of positions t) 0) day_trades
    = filter (fun t => String.eqb (Trade.trade_date t) d)
        (filter (fun t => String.eqb (Trade.strategy_code t) s)
           (filter (adds_to_loss positions) trades))).
  { unfold day_trades. rewrite !filter_filter. apply filter_ext.
    intros t. unfold adds_to_loss, is_opening.
    destruct (String.eqb (Trade.strategy_code t) s),
      (String.eqb (Trade.trade_date t) d),
      (String.eqb (Trade.offset_flag t) OPEN),
      (Qltb (floating_pnl_of positions t) 0); reflexivity. }
  rewrite <- Hsel, <- Hbody.
  destruct (is_empty day_positions) eqn:Ep; simpl.
  - symmetry. apply flat_map_nil. intros t _.
    destruct day_positions; [reflexivity | discriminate].
  - destruct day_trades; reflexivity.
Qed.

Lemma sorted_str_In x l : In x (sorted_str l) <-> In x l.
Proof.
  split; apply Permutation_in;
    [symmetry|]; apply stable_sort_perm.
Qed.

Lemma sorted_str_NoDup l : NoDup l -> NoDup (sorted_str l).
Proof. apply Permutation_NoDup, stable_sort_perm. Qed.

Lemma filter_comm {A : Type} (f g : A -> bool) (l : list A) :
  filter f (filter g l) = filter g (filter f l).
Proof.
  rewrite !filter_filter. apply filter_ext. intros x. apply andb_comm.
Qed.

(** Grouping by strategy and then by day loses no trade and repeats none,
    provided the keys of every trade are among the groups. *)
Lemma group_by_strategy_and_day (strategies dates : list string)
  (l : list Trade.t) :
  NoDup strategies -> NoDup dates ->
  (forall t, In t l -> In (Trade.strategy_code t) strategies
                       /\ In (Trade.trade_date t) dates) ->
  Permutation
    (flat_map (fun s =>
       flat_map (fun d =>
         filter (fun t => String.eqb (Trade.trade_date t) d)
           (filter (fun t => String.eqb (Trade.strategy_code t) s) l))
         dates)
       strategies)
    l.
Proof.
  intros Hs Hd Hin.
  transitivity
    (flat_map (fun s =>
       filter (fun t => String.eqb (Trade.strategy_code t) s)
         (filter (fun t => existsb (String.eqb (Trade.trade_date t)) dates) l))
       strategies).
  { apply flat_map_perm_ext. intros s.
    rewrite (flat_map_filter_by_key Trade.trade_date dates _ Hd).
    now rewrite filter_comm. }
  rewrite (flat_map_filter_by_key Trade.strategy_code strategies _ Hs).
  rewrite !filter_all; [reflexivity| |].
  - intros t Ht. now apply existsb_eqb_In, Hin.
  - intros t Ht. apply filter_In in Ht as [Ht _].
    now apply existsb_eqb_In, Hin.
Qed.

Lemma floating_loss_severity_cases {D : FloatArith} r :
  (floating_loss_severity r = "high" <-> fl_round 0.05 < r)
  /\ (floating_loss_severity r = "medium"
      <-> fl_round 0.02 < r /\ r <= fl_round 0.05)
  /\ (floating_loss_severity r = "low" <-> r <= fl_round 0.02).
Proof.
  assert (H25 : fl_round 0.02 <= fl_round 0.05).
  { apply fl_round_mono. vm_compute. discriminate. }
  unfold floating_loss_severity.
  destruct (Qltb (fl_round 0.05) r) eqn:E5;
    destruct (Qltb (fl_round 0.02) r) eqn:E2;
    try apply Qltb_lt in E5; try apply Qltb_ge in E5;
    try apply Qltb_lt in E2; try apply Qltb_ge in E2;
    repeat split; intros; try discriminate; try reflexivity; try lra.
Qed.

(** Before the groups are put together: the alerts of the adding trades
    of each strategy and day. *)
Lemma detect_floating_loss_add_grouped {D : FloatArith}
  (positions : list Position.t) (trades : list Trade.t)
  (equity_data : list DailyEquity.t) :
  detect_floating_loss_add positions trades equity_data
  = if is_empty positions || is_empty trades then []
    else
      map (floating_loss_alert positions)
        (flat_map (fun s =>
           flat_map (fun d =>
             filter (fun t => String.eqb (Trade.trade_date t) d)
               (filter (fun t => String.eqb (Trade.strategy_code t) s)
                  (filter (adds_to_loss positions) trades)))
             (sorted_str (unique (map Position.trade_date positions))))
           (unique (map Position.strategy_code positions))).
Proof.
  unfold detect_floating_loss_add.
  destruct (is_empty positions || is_empty trades); [reflexivity|].
  rewrite <- flat_map_map. apply flat_map_ext_in. intros s _.
  rewrite <- flat_map_map. apply flat_map_ext_in. intros d _.
  apply floating_loss_group.
Qed.

Lemma detect_floating_loss_add_perm {D : FloatArith}
  (positions : list Position.t) (trades : list Trade.t)
  (equity_data : list DailyEquity.t) :
  Permutation (detect_floating_loss_add positions trades equity_data)
    (map (floating_loss_alert positions)
       (filter (adds_to_loss positions) trades)).
Proof.
  rewrite detect_floating_loss_add_grouped.
  destruct (is_empty positions || is_empty trades) eqn:Eg.
  - apply orb_true_iff in Eg as [E|E].
    + destruct positions; [|discriminate].
      replace (filter (adds_to_loss []) trades) with (@nil Trade.t);
        [constructor|].
      symmetry. rewrite <- (filter_false trades). apply filter_ext.
      intros t. unfold adds_to_loss.
      rewrite (floating_pnl_of_nil [] t eq_refl). apply andb_false_r.
    + destruct trades; [constructor | discriminate].
  - apply Permutation_map. apply group_by_strategy_and_day.
    + apply unique_NoDup.
    + apply sorted_str_NoDup, unique_NoDup.
    + intros t Ht. apply filter_In in Ht as [_ Ht].
      apply adds_to_loss_holding in Ht as (p & Hp & Hsame).
      unfold same_holding in Hsame.
      apply andb_true_iff in Hsame as [Hsame _].
      apply andb_true_iff in Hsame as [Hs Hd].
      apply String.eqb_eq in Hs, Hd. split.
      * apply unique_In. rewrite <- Hs. now apply in_map.
      * apply sorted_str_In, unique_In. rewrite <- Hd. now apply in_map.
Qed.

(** The holding of one record with whole-number sums: the two sums are
    the record's own numbers, the ratio is the double nearest to their
    quotient. *)
Lemma single_holding_sums {D : FloatArith} positions t p (pnl value : Z) :
  holdings positions t = [p] ->
  Position.floating_pnl p = inject_Z pnl ->
  Position.position_value p = inject_Z value ->
  (Z.abs pnl <= 2 ^ 53)%Z -> (0 < value <= 2 ^ 53)%Z ->
  floating_pnl_of positions t == inject_Z pnl
  /\ position_value_of positions t == inject_Z value
  /\ loss_ratio_of positions t
     == fl_round (Qabs (inject_Z pnl) / inject_Z value).
Proof.
  intros Hh Hp Hv Hpnl Hvalue.
  assert (E1 : floating_pnl_of positions t == inject_Z pnl).
  { unfold floating_pnl_of. rewrite Hh. cbn [map]. rewrite Hp.
    now apply fl_sum_Z. }
  assert (E2 : position_value_of positions t == inject_Z value).
  { unfold position_value_of. rewrite Hh. cbn [map]. rewrite Hv.
    apply fl_sum_Z. lia. }
  split; [exact E1|]. split; [exact E2|].
  unfold loss_ratio_of.
  assert (Hpos : Qltb 0 (position_value_of positions t) = true).
  { apply Qltb_lt. rewrite E2. change 0 with (inject_Z 0).
    rewrite <- Zlt_Qlt. lia. }
  rewrite Hpos. unfold fl_div. apply fl_round_comp. now rewrite E1, E2.
Qed.

(** C7: [detect_floating_loss_add] emits exactly one alert for each
    opening trade whose holding (the positions of the same strategy,
    trading day and contract) has a negative total floating P&L, and no
    other alert.  The sums, the ratio and the thresholds are doubles:
    [loss_ratio] is the double nearest to
    [|floating_pnl| / position_value] (0 when [position_value <= 0]),
    and the severity is high when it is above the double nearest to
    0.05, medium when it is above the double nearest to 0.02, low
    otherwise.  So a quotient of at most 5% is never rated high and one
    of at most 2% is rated low, while a quotient just above a threshold
    may round onto it.  The alert records the ratio rounded to 4
    decimals.  For a position at [floating_pnl = -600],
    [position_value = 10000] and one opening trade there is exactly one
    alert, with [loss_ratio = 0.06] and severity high. *)
Theorem floating_loss_alert_per_adding_trade {D : FloatArith}
  (positions : list Position.t)
  (trades : list Trade.t) (equity_data : list DailyEquity.t) :
  Permutation (detect_floating_loss_add positions trades equity_data)
    (map (floating_loss_alert positions)
       (filter (adds_to_loss positions) trades))
  /\ (forall t,
        let r := loss_ratio_of positions t in
        let a := floating_loss_alert positions t in
        (BehaviorAlert.severity a = "high" <-> fl_round 0.05 < r)
        /\ (BehaviorAlert.severity a = "medium"
            <-> fl_round 0.02 < r /\ r <= fl_round 0.05)
        /\ (BehaviorAlert.severity a = "low" <-> r <= fl_round 0.02)
        /\ r = (if Qltb 0 (position_value_of positions t)
                then fl_round (Qabs (floating_pnl_of positions t)
                               / position_value_of positions t)
                else 0)
        /\ BehaviorAlert.details a
           = BehaviorAlert.FloatingLoss
               (py_round (floating_pnl_of positions t) 2) (py_round r 4)
               (Trade.quantity t) (Trade.direction t) (Trade.price t)
               (py_round (position_value_of positions t) 2))
  /\ (forall t,
        let q := Qabs (floating_pnl_of positions t)
                 / position_value_of positions t in
        let a := floating_loss_alert positions t in
        0 < position_value_of positions t ->
        (q <= 0.05 -> BehaviorAlert.severity a <> "high")
        /\ (q <= 0.02 -> BehaviorAlert.severity a = "low"))
  /\ loss_ratio_of [losing_position] opening_buy == fl_round 0.06
  /\ (exists pnl ratio value,
        detect_floating_loss_add [losing_position] [opening_buy] []
        = [BehaviorAlert.mk "s1" "2025-12-01" "floating_loss_add" "high"
             "rb2505"
             (BehaviorAlert.FloatingLoss pnl ratio 3 BUY 97 value)]
        /\ pnl == -600 /\ ratio == 0.06 /\ value == 10000).
Proof.
  split; [apply detect_floating_loss_add_perm|].
  split.
  { intros t r a.
    destruct (floating_loss_severity_cases r) as (H1 & H2 & H3).
    split; [exact H1|]. split; [exact H2|]. split; [exact H3|].
    split; reflexivity. }
  split.
  { intros t q a Hpos.
    assert (Er : loss_ratio_of positions t = fl_round q).
    { unfold loss_ratio_of.
      now rewrite (proj2 (Qltb_lt 0 (position_value_of positions t)) Hpos). }
    destruct (floating_loss_severity_cases (loss_ratio_of positions t))
      as (H1 & _ & H3).
    change (BehaviorAlert.severity a)
      with (floating_loss_severity (loss_ratio_of positions t)).
    split.
    - intros Hq Hhigh. apply H1 in Hhigh. rewrite Er in Hhigh.
      apply (Qlt_not_le _ _ Hhigh). now apply fl_round_mono.
    - intros Hq. apply H3. rewrite Er. now apply fl_round_mono. }
  destruct (single_holding_sums [losing_position] opening_buy losing_position
              (-600) 10000 eq_refl eq_refl eq_refl)
    as (Epnl & Eval & Er); [vm_compute; discriminate | lia |].
  assert (Er' : loss_ratio_of [losing_position] opening_buy == fl_round 0.06).
  { rewrite Er. apply fl_round_comp. reflexivity. }
  split; [exact Er'|].
  assert (Hhigh : floating_loss_severity
                    (loss_ratio_of [losing_position] opening_buy) = "high").
  { apply floating_loss_severity_cases. rewrite Er'.
    pose proof threshold_005 as [_ H5].
    assert (H6 : (15 # 256) <= fl_round 0.06).
    { apply (fl_round_above 15 8); [vm_compute; discriminate | lia |].
      vm_compute. discriminate. }
    lra. }
  assert (Hadd : adds_to_loss [losing_position] opening_buy = true).
  { unfold adds_to_loss. apply andb_true_iff. split; [reflexivity|].
    apply Qltb_lt. rewrite Epnl. reflexivity. }
  exists (py_round (floating_pnl_of [losing_position] opening_buy) 2),
    (py_round (loss_ratio_of [losing_position] opening_buy) 4),
    (py_round (position_value_of [losing_position] opening_buy) 2).
  split.
  - pose proof (detect_floating_loss_add_perm [losing_position] [opening_buy] [])
      as Hperm.
    cbn [filter] in Hperm. rewrite Hadd in Hperm. cbn [map] in Hperm.
    apply Permutation_sym, Permutation_length_1_inv in Hperm.
    rewrite Hperm. unfold floating_loss_alert. rewrite Hhigh. reflexivity.
  - split; [|split].
    + rewrite (py_round_comp _ _ 2 Epnl). reflexivity.
    + apply (py_round_4_near 600); [reflexivity|].
      rewrite Er'. apply fl_round_near. vm_compute. discriminate.
    + rewrite (py_round_comp _ _ 2 Eval). reflexivity.
Qed.

(** ** Counter-trend add-ons *)

Lemma lookup2_step {D : FloatArith} c d price_history p :
  lookup2 c d (price_history_step price_history p)
  = if String.eqb (Position.contract p) c && String.eqb (Position.trade_date p) d
    then Some (price_move_of_position p)
    else lookup2 c d price_history.
Proof.
  unfold lookup2, price_history_step.
  destruct (String.eqb (Position.contract p) c) eqn:Ec; simpl.
  - apply String.eqb_eq in Ec. subst c. rewrite dict_get_set_same.
    destruct (String.eqb (Position.trade_date p) d) eqn:Ed.
    + apply String.eqb_eq in Ed. subst d. now rewrite dict_get_set_same.
    + apply String.eqb_neq in Ed. rewrite dict_get_set_other by exact Ed.
      now destruct (dict_get (Position.contract p) price_history).
  - apply String.eqb_neq in Ec. now rewrite dict_get_set_other.
Qed.

(** The entry for a contract and a day is that of the last position
    record with that contract and day. *)
Lemma price_history_lookup {D : FloatArith} c d ps price_history :
  lookup2 c d (fold_left price_history_step ps price_history)
  = match find (fun p => String.eqb (Position.contract p) c
                         && String.eqb (Position.trade_date p) d) (rev ps) with
    | Some p => Some (price_move_of_position p)
    | None => lookup2 c d price_history
    end.
Proof.
  revert price_history. induction ps as [|p ps IH]; intros ph; simpl;
    [reflexivity|].
  rewrite IH, find_app.
  destruct (find _ (rev ps)); [reflexivity|].
  simpl. rewrite lookup2_step.
  now destruct (String.eqb (Position.contract p) c
                && String.eqb (Position.trade_date p) d).
Qed.

Lemma find_ext {A : Type} (f g : A -> bool) (l : list A) :
  (forall x, f x = g x) -> find f l = find g l.
Proof.
  intros H. induction l as [|x l IH]; simpl; [reflexivity|].
  now rewrite H, IH.
Qed.

Lemma strategy_price_history {D : FloatArith} positions (t : Trade.t) :
  lookup2 (Trade.contract t) (Trade.trade_date t)
    (fold_left price_history_step
       (filter (fun p => String.eqb (Position.strategy_code p)
                           (Trade.strategy_code t)) positions) [])
  = price_move positions t.
Proof.
  rewrite price_history_lookup. unfold price_move.
  rewrite <- filter_rev, find_filter.
  rewrite (find_ext _ (same_holding t)).
  - now destruct (find (same_holding t) (rev positions)).
  - intros p. unfold same_holding.
    destruct (String.eqb (Position.strategy_code p) (Trade.strategy_code t)),
      (String.eqb (Position.trade_date p) (Trade.trade_date t)),
      (String.eqb (Position.contract p) (Trade.contract t)); reflexivity.
Qed.

(** The loop body, on a trade of the strategy of the group. *)
Lemma counter_trend_check_spec {D : FloatArith} positions (t : Trade.t) :
  counter_trend_check (Trade.strategy_code t)
    (fold_left price_history_step
       (filter (fun p => String.eqb (Position.strategy_code p)
                           (Trade.strategy_code t)) positions) []) t
  = match price_move positions t with
    | Some move =>
        if is_opening t && against_move t move
        then [counter_trend_alert move t] else []
    | None => []
    end.
Proof.
  rewrite <- strategy_price_history.
  unfold counter_trend_check, lookup2, is_opening, against_move.
  destruct (String.eqb (Trade.offset_flag t) OPEN); simpl.
  - destruct (dict_get (Trade.contract t) _) as [by_date|]; [|reflexivity].
    destruct (dict_get (Trade.trade_date t) by_date) as [move|];
      [|reflexivity].
    destruct (String.eqb (Trade.direction t) BUY && Qltb (pi_change move) 0);
      [reflexivity|].
    now destruct (String.eqb (Trade.direction t) SELL
                  && Qltb 0 (pi_change move)).
  - destruct (dict_get (Trade.contract t) _) as [by_date|]; [|reflexivity].
    now destruct (dict_get (Trade.trade_date t) by_date).
Qed.

Lemma price_move_holding {D : FloatArith} positions t move :
  price_move positions t = Some move ->
  exists p, In p positions /\ same_holding t p = true.
Proof.
  unfold price_move.
  destruct (find (same_holding t) (rev positions)) as [p|] eqn:E;
    [|discriminate].
  intros _. apply find_some in E as [Hin Hp].
  exists p. split; [now apply in_rev | exact Hp].
Qed.

Lemma flat_map_flat_map {A B C : Type} (f : B -> list C) (g : A -> list B)
  (l : list A) :
  flat_map f (flat_map g l) = flat_map (fun x => flat_map f (g x)) l.
Proof.
  induction l as [|x l IH]; simpl; [reflexivity|].
  now rewrite flat_map_app, IH.
Qed.

Lemma flat_map_filter_nil {A B : Type} (p : A -> bool) (f : A -> list B)
  (l : list A) :
  (forall x, p x = false -> f x = []) ->
  flat_map f (filter p l) = flat_map f l.
Proof.
  intros H. induction l as [|x l IH]; simpl; [reflexivity|].
  destruct (p x) eqn:E; simpl; [now rewrite IH|].
  now rewrite (H x E), IH.
Qed.

Lemma counter_trend_severity_cases {D : FloatArith} x :
  (counter_trend_severity x = "high" <-> fl_round 0.03 < Qabs x)
  /\ (counter_trend_severity x = "medium"
      <-> fl_round 0.015 < Qabs x /\ Qabs x <= fl_round 0.03)
  /\ (counter_trend_severity x = "low" <-> Qabs x <= fl_round 0.015).
Proof.
  assert (H13 : fl_round 0.015 <= fl_round 0.03).
  { apply fl_round_mono. vm_compute. discriminate. }
  unfold counter_trend_severity.
  destruct (Qltb (fl_round 0.03) (Qabs x)) eqn:E3;
    destruct (Qltb (fl_round 0.015) (Qabs x)) eqn:E1;
    try apply Qltb_lt in E3; try apply Qltb_ge in E3;
    try apply Qltb_lt in E1; try apply Qltb_ge in E1;
    repeat split; intros; try discriminate; try reflexivity; try lra.
Qed.

Lemma detect_counter_trend_add_perm {D : FloatArith}
  (positions : list Position.t) (trades : list Trade.t) :
  Permutation (detect_counter_trend_add positions trades)
    (counter_trend_alerts positions trades).
Proof.
  unfold detect_counter_trend_add, counter_trend_alerts.
  destruct (is_empty positions || is_empty trades) eqn:Eg.
  - apply orb_true_iff in Eg as [E|E].
    + destruct positions; [|discriminate].
      rewrite flat_map_nil; [constructor|]. intros t _. reflexivity.
    + destruct trades; [constructor | discriminate].
  - set (body := fun t : Trade.t =>
                   match price_move positions t with
                   | Some move =>
                       if is_opening t && against_move t move
                       then [counter_trend_alert move t] else []
                   | None => []
                   end).
    set (strategies := unique (map Position.strategy_code positions)).
    rewrite (flat_map_ext_in _
      (fun s => flat_map body
         (filter (fun t => String.eqb (Trade.strategy_code t) s) trades))).
    2:{ intros s _. apply flat_map_ext_in. intros t Ht.
        apply filter_In in Ht as [_ Hs]. apply String.eqb_eq in Hs.
        subst s. apply counter_trend_check_spec. }
    rewrite <- flat_map_flat_map.
    rewrite (flat_map_filter_by_key Trade.strategy_code strategies trades)
      by apply unique_NoDup.
    rewrite flat_map_filter_nil; [reflexivity|].
    intros t Hout. unfold body.
    destruct (price_move positions t) as [move|] eqn:E; [|reflexivity].
    apply price_move_holding in E as (p & Hp & Hsame).
    unfold same_holding in Hsame.
    apply andb_true_iff in Hsame as [Hsame _].
    apply andb_true_iff in Hsame as [Hs _].
    apply String.eqb_eq in Hs.
    rewrite existsb_eqb_In in Hout; [discriminate|].
    apply unique_In. rewrite <- Hs. now apply in_map.
Qed.

(** The price move of a record with whole-number prices: the change is
    the difference, the relative change the double nearest to the
    quotient. *)
Lemma whole_price_move {D : FloatArith} p (prev settlement : Z) :
  Position.prev_settlement p = inject_Z prev ->
  Position.settlement p = inject_Z settlement ->
  (0 < prev <= 2 ^ 52)%Z -> (Z.abs settlement <= 2 ^ 52)%Z ->
  pi_change (price_move_of_position p) == inject_Z (settlement - prev)
  /\ pi_change_pct (price_move_of_position p)
     == fl_round (inject_Z (settlement - prev) / inject_Z prev).
Proof.
  intros Hp Hs Hprev Hsettle.
  assert (Hpos : Qltb 0 (Position.prev_settlement p) = true).
  { apply Qltb_lt. rewrite Hp. change 0 with (inject_Z 0).
    rewrite <- Zlt_Qlt. lia. }
  assert (E : fl_sub (Position.settlement p) (Position.prev_settlement p)
              == inject_Z (settlement - prev)).
  { unfold fl_sub. rewrite Hp, Hs.
    rewrite <- (fl_round_Z (settlement - prev)) by lia.
    apply fl_round_comp. unfold Z.sub.
    rewrite inject_Z_plus, inject_Z_opp. reflexivity. }
  unfold price_move_of_position. cbn [pi_change pi_change_pct].
  rewrite Hpos. split; [exact E|].
  unfold fl_div. apply fl_round_comp. now rewrite E, Hp.
Qed.

(** C8: [detect_counter_trend_add] emits one alert for each opening trade
    that buys while the price change of its contract on its day is
    negative, or sells while it is positive, and no other alert; the
    change is the double nearest to [settlement - prev_settlement],
    taken as 0 when [prev_settlement <= 0]; a trade whose contract and
    day have no price-move entry yields nothing.  [change_pct] is the
    double nearest to the change over [prev_settlement], and the
    severity is high when [|change_pct|] is above the double nearest to
    0.03, medium when it is above the double nearest to 0.015, low
    otherwise.  So a [|change_pct|] that is the double nearest to 0.03
    is medium, and so is every quotient of at most 3% that is at least
    1/64: an opening buy after a move from 100 to 97 gets one alert, of
    severity medium.  A quotient just above 3% may round onto the
    threshold, and the quotient of two prices that are not whole numbers
    is taken of their doubles. *)
Theorem counter_trend_alert_per_trade_against_move {D : FloatArith}
  (positions : list Position.t) (trades : list Trade.t) :
  Permutation (detect_counter_trend_add positions trades)
    (counter_trend_alerts positions trades)
  /\ (forall t move,
        against_move t move = true
        <-> (Trade.direction t = BUY /\ pi_change move < 0)
            \/ (Trade.direction t = SELL /\ 0 < pi_change move))
  /\ (forall p,
        pi_change (price_move_of_position p)
        = (if Qltb 0 (Position.prev_settlement p)
           then fl_round (Position.settlement p - Position.prev_settlement p)
           else 0)
        /\ pi_change_pct (price_move_of_position p)
           = (if Qltb 0 (Position.prev_settlement p)
              then fl_round (pi_change (price_move_of_position p)
                             / Position.prev_settlement p)
              else 0))
  /\ (forall move t,
        let a := counter_trend_alert move t in
        let x := Qabs (pi_change_pct move) in
        (BehaviorAlert.severity a = "high" <-> fl_round 0.03 < x)
        /\ (BehaviorAlert.severity a = "medium"
            <-> fl_round 0.015 < x /\ x <= fl_round 0.03)
        /\ (BehaviorAlert.severity a = "low" <-> x <= fl_round 0.015)
        /\ (x == fl_round 0.03 -> BehaviorAlert.severity a = "medium"))
  /\ (forall p t,
        let move := price_move_of_position p in
        let q := Qabs (pi_change move / Position.prev_settlement p) in
        let a := counter_trend_alert move t in
        0 < Position.prev_settlement p ->
        (q <= 0.03 -> BehaviorAlert.severity a <> "high")
        /\ (q <= 0.015 -> BehaviorAlert.severity a = "low")
        /\ (1 # 64 <= q -> q <= 0.03 -> BehaviorAlert.severity a = "medium"))
  /\ (exists change pct,
        detect_counter_trend_add [losing_position] [opening_buy]
        = [BehaviorAlert.mk "s1" "2025-12-01" "counter_trend_add" "medium"
             "rb2505"
             (BehaviorAlert.CounterTrend BUY change pct 3 97 97 100)]
        /\ change == -3 /\ pct == -0.03).
Proof.
  split; [apply detect_counter_trend_add_perm|].
  split.
  { intros t move. unfold against_move.
    rewrite orb_true_iff, !andb_true_iff, !String.eqb_eq, !Qltb_lt.
    reflexivity. }
  split.
  { intros p. unfold price_move_of_position. cbn [pi_change pi_change_pct].
    destruct (Qltb 0 (Position.prev_settlement p)); split; reflexivity. }
  assert (Hmedium : forall x,
            Qabs x <= fl_round 0.03 -> (1 # 64) <= Qabs x ->
            counter_trend_severity x = "medium").
  { intros x Hle Hge. apply counter_trend_severity_cases. split; [|exact Hle].
    assert (H15 : fl_round 0.015 <= (31 # 2048)).
    { apply (fl_round_below 31 11); [vm_compute; discriminate | lia |].
      vm_compute. discriminate. }
    apply (Qle_lt_trans _ _ _ H15). apply (Qlt_le_trans _ (1 # 64)); [|exact Hge].
    reflexivity. }
  split.
  { intros move t a x.
    destruct (counter_trend_severity_cases (pi_change_pct move))
      as (H1 & H2 & H3).
    split; [exact H1|]. split; [exact H2|]. split; [exact H3|].
    intros Ex. apply Hmedium; fold x; rewrite Ex; [apply Qle_refl|].
    apply (fl_round_above 1 6); [vm_compute; discriminate | lia |].
    vm_compute. discriminate. }
  split.
  { intros p t move q a Hpos.
    assert (Ex : Qabs (pi_change_pct move) == fl_round q).
    { unfold move, price_move_of_position. cbn [pi_change pi_change_pct].
      rewrite (proj2 (Qltb_lt 0 (Position.prev_settlement p)) Hpos).
      unfold q, move, price_move_of_position. cbn [pi_change].
      rewrite (proj2 (Qltb_lt 0 (Position.prev_settlement p)) Hpos).
      unfold fl_div.
      set (c := fl_sub (Position.settlement p) (Position.prev_settlement p)
                / Position.prev_settlement p).
      destruct (Qlt_le_dec c 0) as [Hc | Hc].
      - transitivity (fl_round (- c));
          [|apply fl_round_comp; symmetry; apply Qabs_neg; lra].
        rewrite fl_round_opp. apply Qabs_neg, fl_round_nonpos. lra.
      - transitivity (fl_round c);
          [|apply fl_round_comp; symmetry; now apply Qabs_pos].
        apply Qabs_pos. now apply fl_round_nonneg. }
    change (BehaviorAlert.severity a)
      with (counter_trend_severity (pi_change_pct move)).
    destruct (counter_trend_severity_cases (pi_change_pct move))
      as (H1 & _ & H3).
    split; [|split].
    - intros Hq Hhigh. apply H1 in Hhigh. rewrite Ex in Hhigh.
      apply (Qlt_not_le _ _ Hhigh). now apply fl_round_mono.
    - intros Hq. apply H3. rewrite Ex. now apply fl_round_mono.
    - intros Hlo Hhi. apply Hmedium; rewrite Ex.
      + now apply fl_round_mono.
      + apply (fl_round_above 1 6); [vm_compute; discriminate | lia |].
        exact Hlo. }
  destruct (whole_price_move losing_position 100 97 eq_refl eq_refl)
    as (Echange & Epct); [lia | vm_compute; discriminate |].
  set (move := price_move_of_position losing_position) in *.
  assert (Epct' : pi_change_pct move == - fl_round 0.03).
  { rewrite Epct, <- fl_round_opp. apply fl_round_comp. reflexivity. }
  assert (H3 : 0 <= fl_round 0.03).
  { apply fl_round_nonneg. vm_compute. discriminate. }
  assert (Habs : Qabs (pi_change_pct move) == fl_round 0.03).
  { rewrite Epct', Qabs_opp. now apply Qabs_pos. }
  assert (Hsev : counter_trend_severity (pi_change_pct move) = "medium").
  { apply Hmedium; rewrite Habs; [apply Qle_refl|].
    apply (fl_round_above 1 6); [vm_compute; discriminate | lia |].
    vm_compute. discriminate. }
  assert (Hagainst : against_move opening_buy move = true).
  { unfold against_move. apply orb_true_iff. left.
    apply andb_true_iff. split; [reflexivity|].
    apply Qltb_lt. rewrite Echange. reflexivity. }
  exists (py_round (pi_change move) 2), (py_round (pi_change_pct move) 4).
  split.
  - pose proof (detect_counter_trend_add_perm [losing_position] [opening_buy])
      as Hperm.
    unfold counter_trend_alerts in Hperm. cbn [flat_map] in Hperm.
    change (price_move [losing_position] opening_buy) with (Some move)
      in Hperm.
    change (is_opening opening_buy) with true in Hperm.
    cbv iota beta in Hperm. rewrite Hagainst in Hperm.
    cbn [andb app] in Hperm.
    apply Permutation_sym, Permutation_length_1_inv in Hperm.
    rewrite Hperm. unfold counter_trend_alert. rewrite Hsev. reflexivity.
  - split.
    + rewrite (py_round_comp _ _ 2 Echange). reflexivity.
    + apply (py_round_4_near (-300)); [reflexivity|].
      rewrite Epct'.
      setoid_replace (- fl_round 0.03 - - 0.03) with (- (fl_round 0.03 - 0.03))
        by ring.
      rewrite Qabs_opp. apply fl_round_near. vm_compute. discriminate.
Qed.

(** ** The order of the alerts of one day *)

(** C1, at a failing input: the two alerts of [loss_positions] and
    [loss_trades] are of the same strategy and trading day, and
    [detect_all] lists the one of severity [low] before the one of
    severity [high]. *)
Theorem detect_all_lists_low_before_high {D : FloatArith} :
  map (fun kv =>
         (fst kv,
          map (fun a => (BehaviorAlert.trade_date a, BehaviorAlert.contract a,
                         BehaviorAlert.severity a)) (snd kv)))
      (detect_all loss_positions loss_trades [])
  = [("s1", [("2025-12-01", "cu2601", "low");
             ("2025-12-01", "rb2505", "high")])].
Proof.
  set (p1 := Position.mk "s1" "2025-12-01" "rb2505" 3 0 100 100 (-600) 10000).
  set (p2 := Position.mk "s1" "2025-12-01" "cu2601" 1 0 100 100 (-10) 10000).
  set (t1 := Trade.mk "s1" "2025-12-01" "rb2505" BUY OPEN 100 3 300).
  set (t2 := Trade.mk "s1" "2025-12-01" "cu2601" BUY OPEN 100 1 100).
  destruct (single_holding_sums loss_positions t1 p1 (-600) 10000
              eq_refl eq_refl eq_refl)
    as (Epnl1 & _ & Er1); [vm_compute; discriminate | lia |].
  destruct (single_holding_sums loss_positions t2 p2 (-10) 10000
              eq_refl eq_refl eq_refl)
    as (Epnl2 & _ & Er2); [vm_compute; discriminate | lia |].
  assert (Hadd1 : adds_to_loss loss_positions t1 = true).
  { unfold adds_to_loss. apply andb_true_iff. split; [reflexivity|].
    apply Qltb_lt. rewrite Epnl1. reflexivity. }
  assert (Hadd2 : adds_to_loss loss_positions t2 = true).
  { unfold adds_to_loss. apply andb_true_iff. split; [reflexivity|].
    apply Qltb_lt. rewrite Epnl2. reflexivity. }
  assert (Hhigh : floating_loss_severity (loss_ratio_of loss_positions t1)
                  = "high").
  { apply floating_loss_severity_cases. rewrite Er1.
    pose proof threshold_005 as [_ H5].
    assert (H6 : (15 # 256)
                 <= fl_round (Qabs (inject_Z (-600)) / inject_Z 10000)).
    { apply (fl_round_above 15 8); [vm_compute; discriminate | lia |].
      vm_compute. discriminate. }
    lra. }
  assert (Hlow : floating_loss_severity (loss_ratio_of loss_positions t2)
                 = "low").
  { apply floating_loss_severity_cases. rewrite Er2.
    pose proof threshold_002 as [H2 _].
    assert (H1 : fl_round (Qabs (inject_Z (-10)) / inject_Z 10000)
                 <= (1 # 256)).
    { apply (fl_round_below 1 8); [vm_compute; discriminate | lia |].
      vm_compute. discriminate. }
    lra. }
  assert (Hfl : detect_floating_loss_add loss_positions loss_trades []
                = [floating_loss_alert loss_positions t1;
                   floating_loss_alert loss_positions t2]).
  { rewrite detect_floating_loss_add_grouped.
    change (is_empty loss_positions || is_empty loss_trades) with false.
    cbv iota.
    replace (filter (adds_to_loss loss_positions) loss_trades)
      with [t1; t2].
    2:{ unfold loss_trades. fold t1 t2. cbn [filter].
        now rewrite Hadd1, Hadd2. }
    reflexivity. }
  assert (Hstill : forall p, In p loss_positions ->
            Qltb (pi_change (price_move_of_position p)) 0 = false
            /\ Qltb 0 (pi_change (price_move_of_position p)) = false).
  { intros p Hp.
    assert (E : pi_change (price_move_of_position p) == 0).
    { assert (H100 : (0 < 100 <= 2 ^ 52)%Z) by lia.
      assert (H100' : (Z.abs 100 <= 2 ^ 52)%Z) by (vm_compute; discriminate).
      destruct Hp as [<- | [<- | []]].
      - exact (proj1 (whole_price_move p1 100 100 eq_refl eq_refl H100 H100')).
      - exact (proj1 (whole_price_move p2 100 100 eq_refl eq_refl H100 H100')). }
    split; apply Qltb_ge; rewrite E; apply Qle_refl. }
  assert (Hct : detect_counter_trend_add loss_positions loss_trades = []).
  { apply Permutation_nil, Permutation_sym.
    rewrite detect_counter_trend_add_perm.
    unfold counter_trend_alerts. rewrite flat_map_nil; [constructor|].
    intros t _. unfold price_move.
    destruct (find (same_holding t) (rev loss_positions)) as [p|] eqn:E;
      [|reflexivity].
    apply find_some in E as [Hin _]. apply in_rev in Hin.
    destruct (Hstill p Hin) as [Hdown Hup].
    cbn [option_map]. unfold against_move. rewrite Hdown, Hup.
    now rewrite !andb_false_r. }
  unfold detect_all. rewrite Hfl, Hct. unfold floating_loss_alert.
  rewrite Hhigh, Hlow.
  set (d1 := BehaviorAlert.FloatingLoss _ _ (Trade.quantity t1) _ _ _).
  set (d2 := BehaviorAlert.FloatingLoss _ _ (Trade.quantity t2) _ _ _).
  clearbody d1 d2. vm_compute. reflexivity.
Qed.

(** ** Scores *)

Lemma Qeq_bool_false_pos q : 0 < q -> Qeq_bool q 0 = false.
Proof.
  intros H. destruct (Qeq_bool q 0) eqn:E; [|reflexivity].
  apply Qeq_bool_eq in E. rewrite E in H. now apply Qlt_irrefl in H.
Qed.

(** [min(hi, max(0, x))] is a finite value of [[0, hi]], whatever [x]. *)
Lemma clamp_between hi x :
  0 <= hi ->
  exists q, py_min (Fin hi) (py_max (Fin 0) x) = Fin q /\ 0 <= q <= hi.
Proof.
  intros Hhi. unfold py_min, py_max, pf_gtb.
  destruct x as [a| | |]; simpl.
  - destruct (Qltb 0 a) eqn:E0; simpl.
    + apply Qltb_lt in E0.
      destruct (Qltb a hi) eqn:E1.
      * apply Qltb_lt in E1. exists a. split; [reflexivity | lra].
      * exists hi. split; [reflexivity | lra].
    + destruct (Qltb 0 hi) eqn:E1.
      * exists 0. split; [reflexivity | lra].
      * exists hi. split; [reflexivity | lra].
  - exists hi. split; [reflexivity | lra].
  - destruct (Qltb 0 hi); [exists 0 | exists hi];
      (split; [reflexivity | lra]).
  - destruct (Qltb 0 hi); [exists 0 | exists hi];
      (split; [reflexivity | lra]).
Qed.

(** [max(0, c - x * k)] is a finite value of [[0, c]] when [x] is not
    negative. *)
Lemma floor_between c k x :
  0 <= c -> 0 < k -> not_negative x ->
  exists q,
    py_max (Fin 0) (pf_sub (Fin c) (pf_mul x (Fin k))) = Fin q /\ 0 <= q <= c.
Proof.
  intros Hc Hk [->|[->|(a & -> & Ha)]]; unfold py_max, pf_gtb; simpl.
  - exists 0. split; [reflexivity | lra].
  - unfold pf_scale_inf. rewrite (proj1 (Qgt_alt _ _) Hk). simpl.
    exists 0. split; [reflexivity | lra].
  - assert (Hak : 0 <= a * k) by (apply Qmult_le_0_compat; lra).
    destruct (Qltb 0 (c + - (a * k))) eqn:E.
    + apply Qltb_lt in E. eexists. split; [reflexivity | lra].
    + exists 0. split; [reflexivity | lra].
Qed.

Lemma performance_score_between total_return sharpe max_drawdown win_rate w :
  not_negative max_drawdown -> win_rate = Fin w -> 0 <= w <= 1 ->
  exists p,
    _calculate_performance_score total_return sharpe max_drawdown win_rate
    = Fin p /\ 0 <= p <= 100.
Proof.
  intros Hdd -> Hw. unfold _calculate_performance_score.
  destruct (clamp_between 40 (pf_mul (pf_add total_return (Fin 0.05)) (Fin 200)))
    as (a & -> & Ha); [lra|].
  destruct (clamp_between 30 (pf_mul sharpe (Fin 15))) as (b & -> & Hb); [lra|].
  destruct (floor_between 20 100 max_drawdown) as (c & -> & Hc);
    [lra | lra | exact Hdd |].
  simpl. eexists. split; [reflexivity | lra].
Qed.

Lemma risk_score_between avg_margin_ratio volatility max_drawdown :
  not_negative avg_margin_ratio -> not_negative volatility ->
  not_negative max_drawdown ->
  exists r,
    _calculate_risk_score avg_margin_ratio volatility max_drawdown = Fin r
    /\ 0 <= r <= 100.
Proof.
  intros Hm Hv Hd. unfold _calculate_risk_score.
  destruct (floor_between 40 80 avg_margin_ratio) as (a & -> & Ha);
    [lra | lra | exact Hm |].
  destruct (floor_between 30 60 volatility) as (b & -> & Hb);
    [lra | lra | exact Hv |].
  destruct (floor_between 30 150 max_drawdown) as (c & -> & Hc);
    [lra | lra | exact Hd |].
  simpl. eexists. split; [reflexivity | lra].
Qed.

(** ** Columns without negative values *)

Lemma positive_side_not_nan x : positive_side x -> pf_isnan x = false.
Proof. now intros [->|(q & -> & _)]. Qed.

Lemma dropna_positive_side l :
  Forall not_negative l -> Forall positive_side (dropna l).
Proof.
  intros H. unfold dropna. induction H as [|x l Hx _ IH]; simpl;
    [constructor|].
  destruct Hx as [->|Hx]; simpl; [exact IH|].
  rewrite (positive_side_not_nan x Hx). simpl. now constructor.
Qed.

Lemma pf_add_positive_side x y :
  positive_side x -> positive_side y -> positive_side (pf_add x y).
Proof.
  intros [->|(a & -> & Ha)] [->|(b & -> & Hb)]; simpl;
    try (now left).
  right. eexists. split; [reflexivity | lra].
Qed.

Lemma pf_sum_positive_side l acc :
  positive_side acc -> Forall positive_side l ->
  positive_side (fold_left pf_add l acc).
Proof.
  intros Hacc H. revert acc Hacc.
  induction H as [|x l Hx _ IH]; intros acc Hacc; simpl; [exact Hacc|].
  apply IH. now apply pf_add_positive_side.
Qed.

(** The mean of values that are not negative is not negative. *)
Lemma series_mean_not_negative l :
  Forall not_negative l -> not_negative (series_mean l).
Proof.
  intros H. apply dropna_positive_side in H. unfold series_mean, pf_sum.
  set (v := dropna l) in *.
  assert (H0 : positive_side (Fin 0))
    by (right; exists 0; split; [reflexivity | lra]).
  pose proof (pf_sum_positive_side v (Fin 0) H0 H) as Hsum.
  destruct v as [|x v]; [now left|].
  assert (Hn : 0 < inject_Z (Z.of_nat (length (x :: v))))
    by (apply inject_nat_pos; simpl; lia).
  right. unfold pf_of_nat.
  generalize dependent (inject_Z (Z.of_nat (length (x :: v)))). intros n Hn.
  destruct Hsum as [->|(s & -> & Hs)]; simpl.
  - left. now rewrite (proj2 (Qltb_ge _ _) (Qlt_le_weak _ _ Hn)).
  - rewrite Qeq_bool_false_pos by exact Hn. right.
    eexists. split; [reflexivity|].
    apply Qle_shift_div_l; [exact Hn | lra].
Qed.

Lemma np_sqrt_not_negative {S : Sqrt} x : not_negative (np_sqrt x).
Proof.
  destruct x as [q| | |]; simpl; try (now left); [|right; now left].
  destruct (Qltb q 0); [now left|].
  right. right. exists (q_sqrt q). split; [reflexivity | apply q_sqrt_nonneg].
Qed.

Lemma series_std_not_negative {S : Sqrt} l : not_negative (series_std l).
Proof.
  unfold series_std. destruct (_ <=? 1)%nat; [now left|].
  apply np_sqrt_not_negative.
Qed.

(** The volatility is not negative, whatever the daily returns. *)
Lemma volatility_not_negative {S : Sqrt} daily_std :
  not_negative daily_std ->
  not_negative
    (if negb (pf_isnan daily_std) then pf_mul daily_std (np_sqrt (Fin 252))
     else Fin 0).
Proof.
  assert (H0 : not_negative (Fin 0))
    by (right; right; exists 0; split; [reflexivity | lra]).
  pose proof (q_sqrt_nonneg 252) as Hc.
  intros [->|[->|(s & -> & Hs)]]; simpl; [exact H0| |].
  - unfold pf_scale_inf.
    destruct (Qcompare_spec (q_sqrt 252) 0) as [E|E|E]; simpl.
    + now left.
    + lra.
    + right. now left.
  - right. right. eexists. split; [reflexivity|].
    now apply Qmult_le_0_compat.
Qed.

Lemma pf_maximum_positive_side_l worst d :
  positive_side worst -> d <> NaN -> positive_side (pf_maximum worst d).
Proof.
  intros [->|(x & -> & Hx)] Hd; destruct d as [y| | |]; simpl;
    try congruence; try (now left); try (right; now exists x).
  destruct (Qltb x y) eqn:E; right; [|now exists x].
  apply Qltb_lt in E. exists y. split; [reflexivity | lra].
Qed.

Lemma pf_maximum_positive_side_r worst d :
  worst = NInf \/ positive_side worst -> positive_side d ->
  positive_side (pf_maximum worst d).
Proof.
  intros [->|Hw] Hd.
  - destruct Hd as [->|(y & -> & Hy)]; simpl; [now left|].
    right. now exists y.
  - apply pf_maximum_positive_side_l; [exact Hw|].
    destruct Hd as [->|(y & -> & _)]; discriminate.
Qed.

(** The maximum of a column without negative values is not negative. *)
Lemma series_max_not_negative l :
  Forall not_negative l -> not_negative (series_max l).
Proof.
  intros H. apply dropna_positive_side in H. unfold series_max.
  destruct H as [|x v Hx Hv]; [now left|]. right.
  revert x Hx. induction Hv as [|y v Hy _ IH]; intros x Hx; simpl;
    [exact Hx|].
  apply IH. apply pf_maximum_positive_side_r; [now right | exact Hy].
Qed.

(** ** The running maximum drawdown *)

Lemma pf_maximum_not_nan x y : x <> NaN -> y <> NaN -> pf_maximum x y <> NaN.
Proof.
  destruct x, y; simpl; try congruence; intros _ _;
    try discriminate; now destruct (Qltb _ _).
Qed.

Lemma zero_over q : Qeq_bool q 0 = false -> (q + - q) / q == 0.
Proof. intros H. apply Qeq_bool_neq in H. field. exact H. Qed.

(** A drawdown against a negative finite peak is defined. *)
Lemma drawdown_defined peak e r :
  peak <> NaN -> e <> NaN -> pf_maximum peak e = Fin r -> r < 0 ->
  drawdown_of (Fin r) e <> NaN.
Proof.
  intros Hp He Hmax Hr. unfold drawdown_of.
  assert (Hr0 : Qeq_bool r 0 = false).
  { destruct (Qeq_bool r 0) eqn:E; [|reflexivity].
    apply Qeq_bool_eq in E. lra. }
  destruct e as [q| | |]; simpl.
  - now rewrite Hr0.
  - destruct peak; simpl in Hmax; congruence.
  - now rewrite (proj2 (Qltb_lt _ _) Hr).
  - congruence.
Qed.

(** A defined drawdown is on the positive side, unless the peak is an
    earlier negative number. *)
Lemma drawdown_sign peak e :
  peak <> NaN -> e <> NaN ->
  let d := drawdown_of (pf_maximum peak e) e in
  d <> NaN ->
  positive_side d
  \/ (pf_maximum peak e = peak /\ exists r, peak = Fin r /\ r < 0).
Proof.
  assert (Hzero : forall q, Qeq_bool q 0 = false ->
                            positive_side (Fin ((q + - q) / q))).
  { intros q Hq. right. eexists. split; [reflexivity|].
    rewrite (zero_over q Hq). apply Qle_refl. }
  assert (Hnan : forall q, Qeq_bool q 0 = true ->
                           drawdown_of (Fin q) (Fin q) = NaN).
  { intros q Hq. unfold drawdown_of. simpl. rewrite Hq.
    destruct (Qcompare_spec (q + - q) 0) as [E|E|E]; [reflexivity|lra|lra]. }
  intros Hp He d. unfold d, drawdown_of.
  destruct peak as [a| | |]; [| | |congruence];
    destruct e as [q| | |]; try congruence; simpl; try congruence.
  - (* finite peak, finite equity *)
    destruct (Qltb a q) eqn:Eaq; simpl.
    + destruct (Qeq_bool q 0) eqn:Eq0.
      * pose proof (Hnan q Eq0) as Hn. unfold drawdown_of in Hn.
        simpl in Hn. rewrite Eq0 in Hn. rewrite Hn. congruence.
      * intros _. left. now apply Hzero.
    + apply Qltb_ge in Eaq.
      destruct (Qeq_bool a 0) eqn:Ea0.
      * apply Qeq_bool_eq in Ea0.
        destruct (Qcompare_spec (a + - q) 0) as [E|E|E]; [congruence|lra|].
        intros _. left. now left.
      * intros _. apply Qeq_bool_neq in Ea0.
        destruct (Qlt_le_dec a 0) as [Hneg|Hpos].
        -- right. split; [reflexivity|]. now exists a.
        -- left. right. eexists. split; [reflexivity|].
           apply Qle_shift_div_l; lra.
  - (* finite peak, equity -inf *)
    intros _. destruct (Qltb a 0) eqn:E.
    + apply Qltb_lt in E. right. split; [reflexivity|]. now exists a.
    + left. now left.
  - (* no peak yet, finite equity *)
    destruct (Qeq_bool q 0) eqn:Eq0.
    + pose proof (Hnan q Eq0) as Hn. unfold drawdown_of in Hn.
      simpl in Hn. rewrite Eq0 in Hn. rewrite Hn. congruence.
    + intros _. left. now apply Hzero.
Qed.

(** One row of the two running maxima. *)
Lemma carried_step peak worst e :
  carried peak worst -> e <> NaN ->
  let peak' := pf_maximum peak e in
  let d := drawdown_of peak' e in
  (pf_isnan d = true -> carried peak' worst)
  /\ (pf_isnan d = false ->
      positive_side (pf_maximum worst d) /\ carried peak' (pf_maximum worst d)).
Proof.
  intros (Hp & Hw & Hneg) He peak' d.
  assert (Hp' : peak' <> NaN) by now apply pf_maximum_not_nan.
  split.
  - intros Hd. split; [exact Hp'|]. split; [exact Hw|].
    intros r Hr Hlt. exfalso.
    apply (drawdown_defined peak e r Hp He Hr Hlt).
    fold peak' in Hr. unfold d in Hd. rewrite Hr in Hd.
    now destruct (drawdown_of (Fin r) e).
  - intros Hd.
    assert (Hdn : d <> NaN) by (intros E; rewrite E in Hd; discriminate).
    assert (Hpos : positive_side (pf_maximum worst d)).
    { destruct (drawdown_sign peak e Hp He Hdn) as [H|(Hsame & r & Hr & Hlt)].
      - now apply pf_maximum_positive_side_r.
      - apply pf_maximum_positive_side_l; [|exact Hdn]. now apply (Hneg r). }
    split; [exact Hpos|]. split; [exact Hp'|]. split; [now right|].
    intros; exact Hpos.
Qed.

(** The column [max_drawdown] has no negative value. *)
Lemma max_drawdown_column peak worst equity :
  carried peak worst ->
  Forall not_negative
    (cum_from pf_maximum worst
       (map2 drawdown_of (cum_from pf_maximum peak equity) equity)).
Proof.
  revert peak worst. induction equity as [|e equity IH]; intros peak worst H;
    simpl; [constructor|].
  destruct (pf_isnan e) eqn:Ee.
  - destruct e; try discriminate. simpl. constructor; [now left|].
    now apply IH.
  - assert (He : e <> NaN) by (intros ->; discriminate).
    destruct (carried_step peak worst e H He) as [Hnan Hdef].
    cbn [map2 cum_from].
    destruct (pf_isnan (drawdown_of (pf_maximum peak e) e)) eqn:Ed.
    + constructor; [now left|]. apply IH. now apply Hnan.
    + destruct (Hdef eq_refl) as [Hpos Hcar].
      constructor; [now right|]. now apply IH.
Qed.

Lemma map2_nested {A B C D : Type} (f : C -> A -> D) (g : A -> B -> C) l1 l2 :
  map2 f (map2 g l1 l2) l1 = map2 (fun a b => f (g a b) a) l1 l2.
Proof.
  revert l2; induction l1 as [|a l1 IH]; intros [|b l2]; simpl;
    try reflexivity.
  now rewrite IH.
Qed.

Lemma map2_map_same {A B C D : Type} (f : B -> C -> D) (g : A -> B)
  (h : A -> C) (l : list A) :
  map2 f (map g l) (map h l) = map (fun x => f (g x) (h x)) l.
Proof. induction l as [|x l IH]; simpl; [reflexivity | now rewrite IH]. Qed.

(** The maximum drawdown is not negative, for every equity series. *)
Lemma max_drawdown_not_negative {O : SortValues} df :
  not_negative (series_max (Returns.max_drawdown (calculate_daily_returns df))).
Proof.
  apply series_max_not_negative. unfold calculate_daily_returns; simpl.
  rewrite map2_nested. apply max_drawdown_column.
  split; [discriminate|]. split; [now left|]. discriminate.
Qed.

(** The average margin ratio is not negative when no day's is. *)
Lemma avg_margin_ratio_not_negative {O : SortValues} df :
  Forall (fun row => not_negative (margin_ratio_of row)) df ->
  let rows := Returns.rows (calculate_daily_returns df) in
  let mean :=
    series_mean (map2 pf_div (map DailyEquity.margin_used rows)
                   (map DailyEquity.equity rows)) in
  not_negative (if pf_isnan mean then Fin 0 else mean).
Proof.
  intros H rows mean.
  assert (Hmean : not_negative mean).
  { apply series_mean_not_negative. rewrite map2_map_same.
    apply Forall_map. eapply Permutation_Forall; [|exact H].
    apply sort_values_perm. }
  destruct Hmean as [->|Hm]; simpl.
  - right. right. exists 0. split; [reflexivity | lra].
  - rewrite (positive_side_not_nan mean Hm). now right.
Qed.

Lemma count_if_le (p q : pfloat -> bool) l :
  (forall x, p x = true -> q x = true) ->
  (count_if p l <= count_if q l)%nat.
Proof.
  intros H. unfold count_if. induction l as [|x l IH]; simpl; [lia|].
  destruct (p x) eqn:E.
  - rewrite (H x E). simpl. lia.
  - destruct (q x); simpl; lia.
Qed.

Lemma positive_is_nonzero x :
  pf_gtb x (Fin 0) = true -> pf_neb x (Fin 0) = true.
Proof.
  unfold pf_gtb, pf_neb. destruct x as [q| | |]; simpl; try easy.
  intros H. apply Qltb_lt in H. now rewrite Qeq_bool_false_pos.
Qed.

(** The win rate is a finite value of [[0, 1]] for every series. *)
Lemma win_rate_between daily_return :
  let win_days := count_if (fun r => pf_gtb r (Fin 0)) daily_return in
  let total_days := count_if (fun r => pf_neb r (Fin 0)) daily_return in
  exists w,
    (if (0 <? total_days)%nat
     then pf_div (pf_of_nat win_days) (pf_of_nat total_days)
     else Fin 0) = Fin w
    /\ 0 <= w <= 1.
Proof.
  intros win_days total_days.
  assert (Hle : (win_days <= total_days)%nat)
    by (apply count_if_le, positive_is_nonzero).
  destruct (0 <? total_days)%nat eqn:E.
  - apply Nat.ltb_lt in E. pose proof (inject_nat_pos _ E) as Hp.
    unfold pf_of_nat. simpl. rewrite Qeq_bool_false_pos by exact Hp.
    eexists. split; [reflexivity|].
    apply Qdiv_between_0_1; [| |exact Hp].
    + change 0 with (inject_Z 0). rewrite <- Zle_Qle. lia.
    + rewrite <- Zle_Qle. lia.
  - exists 0. split; [reflexivity | lra].
Qed.

(** Rounding to two decimals moves a value by at most half a cent. *)
Lemma py_round_2_close x :
  py_round x 2 - x <= 1 # 200 /\ x - py_round x 2 <= 1 # 200.
Proof.
  unfold py_round. change (inject_Z (10 ^ Z.of_nat 2)) with 100.
  destruct (round_half_even_close (x * 100)) as [H1 H2].
  generalize dependent (inject_Z (round_half_even (x * 100))).
  intros z H1 H2.
  assert (E : z / 100 == z * (1 # 100)) by field.
  rewrite E. lra.
Qed.

(** C5, amended: for an equity series of at least two records in which
    no record has a negative margin ratio [margin_used / equity] (the
    ratio may be undefined or [+inf]), [calculate_performance] returns
    scores in [[0, 100]].  With [p] and [r] the performance and risk
    scores before rounding, the three fields are the 2-decimal roundings
    of [p], [r] and [0.5 p + 0.5 r]; so [total_score] is within 0.01 of
    the midpoint of the two rounded fields. *)
Theorem scores_within_bounds {O : SortValues}
  {S : Sqrt} (self : MetricsCalculator)
  (equity_df : list DailyEquity.t) (strategy_code : string) :
  (2 <= length equity_df)%nat ->
  Forall (fun row => not_negative (margin_ratio_of row)) equity_df ->
  exists result p r,
    calculate_performance self equity_df strategy_code = Return (Some result)
    /\ 0 <= p <= 100 /\ 0 <= r <= 100
    /\ PerformanceMetrics.performance_score result = Fin (py_round p 2)
    /\ PerformanceMetrics.risk_score result = Fin (py_round r 2)
    /\ PerformanceMetrics.total_score result
       = Fin (py_round (p * 0.5 + r * 0.5) 2)
    /\ 0 <= py_round p 2 <= 100
    /\ 0 <= py_round r 2 <= 100
    /\ 0 <= py_round (p * 0.5 + r * 0.5) 2 <= 100
    /\ Qabs (py_round (p * 0.5 + r * 0.5) 2
             - (py_round p 2 + py_round r 2) / 2) <= 0.01.
Proof.
  intros Hlen Hmargin.
  unfold calculate_performance.
  rewrite (proj2 (Nat.ltb_ge _ _) Hlen).
  destruct (iloc_last_nonempty
              (Returns.cumulative_return (calculate_daily_returns equity_df)))
    as [total_return ->].
  { intros H. apply (f_equal (@length pfloat)) in H.
    rewrite calculate_daily_returns_cumulative_length in H. simpl in H. lia. }
  cbn [bind]. rewrite calculate_daily_returns_rows_length.
  assert (Hn : (0 < length equity_df)%nat) by lia.
  rewrite (proj2 (Nat.ltb_lt _ _) Hn).
  rewrite q_truediv_pos by now apply inject_nat_pos.
  cbn [bind]. cbv zeta.
  set (out := calculate_daily_returns equity_df).
  (* the inputs of the two scores *)
  pose proof (max_drawdown_not_negative equity_df) as Hdd. fold out in Hdd.
  set (max_drawdown := series_max (Returns.max_drawdown out)) in *.
  pose proof (avg_margin_ratio_not_negative equity_df Hmargin) as Hamr.
  cbv zeta in Hamr. fold out in Hamr.
  set (avg_margin_ratio := if pf_isnan _ then Fin 0 else _) in *.
  pose proof (volatility_not_negative
                (series_std (Returns.daily_return out))
                (series_std_not_negative _)) as Hvol.
  set (volatility := if negb (pf_isnan _) then _ else Fin 0) in *.
  destruct (win_rate_between (Returns.daily_return out)) as (w & Hw & Hwb).
  cbv zeta in Hw. rewrite Hw.
  match goal with
  | |- context [_calculate_performance_score ?a ?b ?c ?d] =>
      destruct (performance_score_between a b c d w Hdd eq_refl Hwb)
        as (p & -> & Hp)
  end.
  destruct (risk_score_between avg_margin_ratio volatility max_drawdown
              Hamr Hvol Hdd) as (r & -> & Hr).
  eexists. exists p, r. split; [reflexivity|].
  cbn [PerformanceMetrics.performance_score PerformanceMetrics.risk_score
       PerformanceMetrics.total_score pf_round pf_add pf_mul].
  split; [exact Hp|]. split; [exact Hr|].
  split; [reflexivity|]. split; [reflexivity|]. split; [reflexivity|].
  split; [now apply py_round_percent|].
  split; [now apply py_round_percent|].
  split; [apply py_round_percent; lra|].
  apply Qabs_Qle_condition.
  destruct (py_round_2_close p) as [Hp1 Hp2].
  destruct (py_round_2_close r) as [Hr1 Hr2].
  destruct (py_round_2_close (p * 0.5 + r * 0.5)) as [Ht1 Ht2].
  assert (E : (py_round p 2 + py_round r 2) / 2
              == (py_round p 2 + py_round r 2) * (1 # 2)) by field.
  rewrite E.
  generalize dependent (py_round p 2).
  generalize dependent (py_round r 2).
  generalize dependent (py_round (p * 0.5 + r * 0.5) 2).
  intros. split; lra.
Qed.

(** C5, counterexample: at a constant equity of 8000 with a margin of 1
    the scores are 30.00 and 99.99 and the total 65.00, which is not
    their midpoint 64.995; and at a constant equity of -8000 the risk
    score is 100.01, above 100. *)
Lemma scores_example :
  (exists result,
     calculate_performance (O:=stable_sort_values) (S:=sqrt_micro)
         default_calculator steady_equity "s1"
     = Return (Some result)
     /\ PerformanceMetrics.performance_score result = Fin 30.00
     /\ PerformanceMetrics.risk_score result = Fin 99.99
     /\ PerformanceMetrics.total_score result = Fin 65.00
     /\ ~ 65.00 == (30.00 + 99.99) / 2)
  /\ (exists result,
        calculate_performance (O:=stable_sort_values) (S:=sqrt_micro)
            default_calculator steady_deficit "s1"
        = Return (Some result)
        /\ PerformanceMetrics.risk_score result = Fin 100.01
        /\ ~ 100.01 <= 100).
Proof.
  split; eexists; (split; [vm_compute; reflexivity|]); cbn.
  - repeat split. discriminate.
  - split; [reflexivity|]. intros H. now apply H.
Qed.

(** The theorem at [steady_equity], computing with [sqrt_micro]. *)
Lemma scores_within_bounds_witness :
  exists result p r,
    calculate_performance (O:=stable_sort_values) (S:=sqrt_micro)
        default_calculator steady_equity "s1"
    = Return (Some result)
    /\ 0 <= p <= 100 /\ 0 <= r <= 100
    /\ PerformanceMetrics.total_score result
       = Fin (py_round (p * 0.5 + r * 0.5) 2).
Proof.
  destruct (scores_within_bounds (O:=stable_sort_values) (S:=sqrt_micro)
      default_calculator
              steady_equity "s1")
    as (result & p & r & H & Hp & Hr & _ & _ & Ht & _).
  - apply le_n.
  - repeat (apply Forall_cons;
              [right; right; eexists; split; [reflexivity | discriminate]|]).
    apply Forall_nil.
  - exists result, p, r. repeat split; try assumption; try apply Hp; apply Hr.
Defined.

(** * Further properties *)

(** ** The rows of [calculate_daily_returns] *)

Lemma date_le_trans a b c : date_le a b -> date_le b c -> date_le a c.
Proof. unfold date_le. intros H1 H2. now apply not_ltb_trans with (DailyEquity.trade_date b). Qed.

Lemma sort_values_trade_date_perm {O : SortValues} df df' :
  Permutation df df' -> NoDup (map DailyEquity.trade_date df) ->
  sort_values_trade_date df = sort_values_trade_date df'.
Proof.
  intros Hp Hnd.
  assert (P1 : Permutation df (sort_values_trade_date df))
    by apply sort_values_perm.
  assert (P2 : Permutation df' (sort_values_trade_date df'))
    by apply sort_values_perm.
  apply (sorted_perm_unique date_le).
  - intros a b Ha Hb Hab Hba.
    apply (NoDup_map_eq DailyEquity.trade_date df); auto.
    + now apply (Permutation_in _ (Permutation_sym P1)).
    + now apply (Permutation_in _ (Permutation_sym P1)).
    + now apply not_ltb_antisym.
  - apply sort_values_sorted.
  - apply sort_values_sorted.
  - now rewrite <- P1, <- P2.
Qed.

(** X2: when no two records carry the same trade date, the order in
    which the records are supplied does not matter: the frame of
    [calculate_daily_returns] and the result of [calculate_performance]
    are the same for every arrangement of the input. *)
Theorem daily_returns_order_independent {O : SortValues}
  {S : Sqrt} (self : MetricsCalculator)
  (equity_df equity_df' : list DailyEquity.t) (strategy_code : string) :
  Permutation equity_df equity_df' ->
  NoDup (map DailyEquity.trade_date equity_df) ->
  calculate_daily_returns equity_df = calculate_daily_returns equity_df'
  /\ calculate_performance self equity_df strategy_code
     = calculate_performance self equity_df' strategy_code.
Proof.
  intros Hp Hnd.
  assert (E : calculate_daily_returns equity_df
              = calculate_daily_returns equity_df').
  { unfold calculate_daily_returns.
    now rewrite (sort_values_trade_date_perm _ _ Hp Hnd). }
  split; [exact E|].
  unfold calculate_performance.
  now rewrite E, (Permutation_length Hp).
Qed.

(** The theorem at the two records of [zero_then_100], given in either
    order. *)
Lemma daily_returns_order_independent_witness :
  calculate_daily_returns (O:=stable_sort_values) zero_then_100
  = calculate_daily_returns (O:=stable_sort_values) (rev zero_then_100).
Proof.
  apply (daily_returns_order_independent (O:=stable_sort_values) (S:=sqrt_micro)
      default_calculator
           zero_then_100 (rev zero_then_100) "s1").
  - apply Permutation_rev.
  - repeat constructor; simpl; intuition discriminate.
Defined.

Lemma fold_max_latest l m0 :
  let m := fold_left (fun m d => if String.ltb m d then d else m) l m0 in
  (m = m0 \/ In m l)
  /\ String.ltb m m0 = false
  /\ Forall (fun d => String.ltb m d = false) l.
Proof.
  revert m0. induction l as [|d l IH]; intros m0; cbn zeta; simpl.
  - split; [now left|]. split; [apply ltb_irrefl | constructor].
  - specialize (IH (if String.ltb m0 d then d else m0)).
    cbv zeta in IH. destruct IH as (Hin & Hge & Hall).
    set (m1 := if String.ltb m0 d then d else m0) in *.
    assert (H0 : String.ltb m1 m0 = false).
    { subst m1. destruct (String.ltb m0 d) eqn:E;
        [now apply ltb_asym | apply ltb_irrefl]. }
    assert (Hd : String.ltb m1 d = false).
    { subst m1. destruct (String.ltb m0 d) eqn:E;
        [apply ltb_irrefl | exact E]. }
    split; [|split].
    + destruct Hin as [-> | Hin]; [|now right; right].
      subst m1. destruct (String.ltb m0 d); [right; now left | now left].
    + now apply not_ltb_trans with m1.
    + constructor; [|exact Hall]. now apply not_ltb_trans with m1.
Qed.

Lemma str_max_latest x l :
  In (str_max (x :: l)) (x :: l)
  /\ Forall (fun d => String.ltb (str_max (x :: l)) d = false) (x :: l).
Proof.
  destruct (fold_max_latest l x) as (Hin & Hge & Hall). simpl.
  split; [destruct Hin as [-> | Hin]; [now left | now right]|].
  now constructor.
Qed.

(** ** The fields of [calculate_performance] *)

(** Into the body of [calculate_performance] on at least two records:
    the early return, the last cumulative return and the guarded
    division by the number of trading days are resolved. *)
Ltac performance_body Hlen :=
  unfold calculate_performance;
  rewrite (proj2 (Nat.ltb_ge _ _) Hlen);
  match goal with
  | |- context [iloc_last (Returns.cumulative_return ?out)] =>
      let total_return := fresh "total_return" in
      let H := fresh "Hlast" in
      destruct (iloc_last_nonempty (Returns.cumulative_return out))
        as [total_return H];
      [ let E := fresh in
        intros E; apply (f_equal (@length pfloat)) in E;
        rewrite calculate_daily_returns_cumulative_length in E;
        simpl in E; lia
      | rewrite H ]
  end;
  cbn [bind]; rewrite calculate_daily_returns_rows_length;
  let Hn := fresh "Hn" in
  assert (Hn : (0 < length _)%nat) by (eapply Nat.lt_le_trans; [|exact Hlen]; lia);
  rewrite (proj2 (Nat.ltb_lt _ _) Hn);
  rewrite q_truediv_pos by (now apply inject_nat_pos);
  cbn [bind]; cbv zeta.

(** X3: for at least two records, [calc_date] is the latest trade date
    of the input: it is the date of one of the records and no record is
    dated after it; and [strategy_code] is the code that was passed, not
    one read from the records. *)
Theorem calc_date_is_latest {O : SortValues}
  {S : Sqrt} (self : MetricsCalculator)
  (equity_df : list DailyEquity.t) (strategy_code : string) :
  (2 <= length equity_df)%nat ->
  exists result,
    calculate_performance self equity_df strategy_code = Return (Some result)
    /\ PerformanceMetrics.strategy_code result = strategy_code
    /\ In (PerformanceMetrics.calc_date result)
         (map DailyEquity.trade_date equity_df)
    /\ Forall (fun row =>
                 String.ltb (PerformanceMetrics.calc_date result)
                   (DailyEquity.trade_date row) = false) equity_df.
Proof.
  intros Hlen. performance_body Hlen.
  eexists. split; [reflexivity|].
  cbn [PerformanceMetrics.strategy_code PerformanceMetrics.calc_date].
  split; [reflexivity|].
  change (Returns.rows (calculate_daily_returns equity_df))
    with (sort_values_trade_date equity_df).
  assert (Hp : Permutation equity_df (sort_values_trade_date equity_df))
    by apply sort_values_perm.
  destruct (sort_values_trade_date equity_df) as [|row rows] eqn:E.
  { apply Permutation_length in Hp. simpl in Hp. lia. }
  destruct (str_max_latest (DailyEquity.trade_date row)
              (map DailyEquity.trade_date rows)) as [Hin Hall].
  change (DailyEquity.trade_date row :: map DailyEquity.trade_date rows)
    with (map DailyEquity.trade_date (row :: rows)) in *.
  split.
  - apply (Permutation_in _ (Permutation_sym (Permutation_map _ Hp))).
    exact Hin.
  - apply (Permutation_Forall (Permutation_sym Hp)).
    rewrite Forall_map in Hall. exact Hall.
Qed.

(** The theorem at [steady_equity]: the later of its two dates. *)
Lemma calc_date_is_latest_witness :
  exists result,
    calculate_performance (O:=stable_sort_values) (S:=sqrt_micro)
        default_calculator steady_equity "s9"
    = Return (Some result)
    /\ PerformanceMetrics.strategy_code result = "s9"
    /\ In (PerformanceMetrics.calc_date result)
         (map DailyEquity.trade_date steady_equity).
Proof.
  destruct (calc_date_is_latest (O:=stable_sort_values) (S:=sqrt_micro)
      default_calculator
              steady_equity "s9" (le_n 2)) as (result & H & Hs & Hd & _).
  exists result. repeat split; assumption.
Defined.

Lemma py_max_zero_positive_side x : positive_side (py_max (Fin 0) x).
Proof.
  unfold py_max, pf_gtb. destruct x as [q | | |]; simpl.
  - destruct (Qltb 0 q) eqn:E; right.
    + exists q. split; [reflexivity|]. apply Qltb_lt in E. lra.
    + exists 0. split; [reflexivity | lra].
  - now left.
  - right. exists 0. split; [reflexivity | lra].
  - right. exists 0. split; [reflexivity | lra].
Qed.

Lemma risk_score_positive_side avg_margin_ratio volatility max_drawdown :
  positive_side (_calculate_risk_score avg_margin_ratio volatility max_drawdown).
Proof.
  unfold _calculate_risk_score.
  repeat apply pf_add_positive_side; apply py_max_zero_positive_side.
Qed.

Lemma pf_mul_half_positive_side x :
  positive_side x -> positive_side (pf_mul x (Fin 0.5)).
Proof.
  intros [-> | (q & -> & Hq)]; simpl.
  - now left.
  - right. exists (q * 0.5). split; [reflexivity | lra].
Qed.

Lemma py_round_nonneg q n : 0 <= q -> 0 <= py_round q n.
Proof.
  intros Hq. rewrite <- (py_round_0 n). now apply py_round_mono.
Qed.

Lemma pf_round_positive_side x n :
  positive_side x -> positive_side (pf_round x n).
Proof.
  intros [-> | (q & -> & Hq)]; simpl.
  - now left.
  - right. exists (py_round q n). split; [reflexivity|].
    now apply py_round_nonneg.
Qed.

Lemma pf_round_not_negative x n : not_negative x -> not_negative (pf_round x n).
Proof.
  intros [-> | H]; [now left|]. right. now apply pf_round_positive_side.
Qed.

(** X4: for every equity series of at least two records, whatever its
    values, [performance_score] is a number in [[0, 100]] and [win_rate]
    a number in [[0, 1]]; [max_drawdown] and [volatility] are never a
    negative number. *)
Theorem performance_score_always_within_bounds {O : SortValues} {S : Sqrt}
  (self : MetricsCalculator) (equity_df : list DailyEquity.t)
  (strategy_code : string) :
  (2 <= length equity_df)%nat ->
  exists result p w,
    calculate_performance self equity_df strategy_code = Return (Some result)
    /\ PerformanceMetrics.performance_score result = Fin p
    /\ 0 <= p <= 100
    /\ PerformanceMetrics.win_rate result = Fin w
    /\ 0 <= w <= 1
    /\ not_negative (PerformanceMetrics.max_drawdown result)
    /\ not_negative (PerformanceMetrics.volatility result).
Proof.
  intros Hlen. performance_body Hlen.
  set (out := calculate_daily_returns equity_df).
  pose proof (max_drawdown_not_negative equity_df) as Hdd. fold out in Hdd.
  pose proof (volatility_not_negative
                (series_std (Returns.daily_return out))
                (series_std_not_negative _)) as Hvol.
  destruct (win_rate_between (Returns.daily_return out)) as (w & Hw & Hwb).
  cbv zeta in Hw. rewrite Hw.
  match goal with
  | |- context [_calculate_performance_score ?a ?b ?c ?d] =>
      destruct (performance_score_between a b c d w Hdd eq_refl Hwb)
        as (p & -> & Hp)
  end.
  eexists. exists (py_round p 2), (py_round w 4).
  split; [reflexivity|].
  cbn [PerformanceMetrics.performance_score PerformanceMetrics.win_rate
       PerformanceMetrics.max_drawdown PerformanceMetrics.volatility pf_round].
  split; [reflexivity|]. split; [now apply py_round_percent|].
  split; [reflexivity|]. split; [now apply py_round_unit|].
  split; now apply pf_round_not_negative.
Qed.

(** The theorem at [steady_equity], computing with [sqrt_micro]. *)
Lemma performance_score_always_within_bounds_witness :
  exists result p,
    calculate_performance (O:=stable_sort_values) (S:=sqrt_micro)
        default_calculator steady_equity "s1"
    = Return (Some result)
    /\ PerformanceMetrics.performance_score result = Fin p
    /\ 0 <= p <= 100.
Proof.
  destruct (performance_score_always_within_bounds
              (O:=stable_sort_values) (S:=sqrt_micro)
              default_calculator steady_equity "s1" (le_n 2))
    as (result & p & w & H & Hp & Hpb & _).
  exists result, p. repeat split; try assumption; apply Hpb.
Defined.

(** X5: for every equity series of at least two records, whatever its
    values, [risk_score] and [total_score] are a number that is not
    negative, or [+inf]: neither is ever negative or NaN. *)
Theorem risk_score_never_negative {O : SortValues}
  {S : Sqrt} (self : MetricsCalculator)
  (equity_df : list DailyEquity.t) (strategy_code : string) :
  (2 <= length equity_df)%nat ->
  exists result,
    calculate_performance self equity_df strategy_code = Return (Some result)
    /\ positive_side (PerformanceMetrics.risk_score result)
    /\ positive_side (PerformanceMetrics.total_score result).
Proof.
  intros Hlen. performance_body Hlen.
  set (out := calculate_daily_returns equity_df).
  pose proof (max_drawdown_not_negative equity_df) as Hdd. fold out in Hdd.
  destruct (win_rate_between (Returns.daily_return out)) as (w & Hw & Hwb).
  cbv zeta in Hw. rewrite Hw.
  match goal with
  | |- context [_calculate_performance_score ?a ?b ?c ?d] =>
      destruct (performance_score_between a b c d w Hdd eq_refl Hwb)
        as (p & -> & Hp)
  end.
  eexists. split; [reflexivity|].
  cbn [PerformanceMetrics.risk_score PerformanceMetrics.total_score].
  split.
  - apply pf_round_positive_side, risk_score_positive_side.
  - apply pf_round_positive_side, pf_add_positive_side.
    + right. exists (p * 0.5). split; [reflexivity | lra].
    + apply pf_mul_half_positive_side, risk_score_positive_side.
Qed.

(** The theorem at [steady_deficit], whose equity is negative. *)
Lemma risk_score_never_negative_witness :
  exists result,
    calculate_performance (O:=stable_sort_values) (S:=sqrt_micro)
        default_calculator steady_deficit "s1"
    = Return (Some result)
    /\ positive_side (PerformanceMetrics.risk_score result).
Proof.
  destruct (risk_score_never_negative (O:=stable_sort_values) (S:=sqrt_micro)
      default_calculator
              steady_deficit "s1" (le_n 2)) as (result & H & Hr & _).
  exists result. split; assumption.
Defined.

(** ** The two score formulas *)

Lemma py_max_fin_mono c x y :
  fin_le x y -> fin_le (py_max (Fin c) x) (py_max (Fin c) y).
Proof.
  intros (u & v & -> & -> & Huv). unfold py_max, pf_gtb. simpl.
  destruct (Qltb c u) eqn:Eu, (Qltb c v) eqn:Ev;
    try apply Qltb_lt in Eu; try apply Qltb_ge in Eu;
    try apply Qltb_lt in Ev; try apply Qltb_ge in Ev;
    do 2 eexists; (split; [reflexivity|]); (split; [reflexivity|]); lra.
Qed.

Lemma py_min_fin_mono c x y :
  fin_le x y -> fin_le (py_min (Fin c) x) (py_min (Fin c) y).
Proof.
  intros (u & v & -> & -> & Huv). unfold py_min. simpl.
  destruct (Qltb u c) eqn:Eu, (Qltb v c) eqn:Ev;
    try apply Qltb_lt in Eu; try apply Qltb_ge in Eu;
    try apply Qltb_lt in Ev; try apply Qltb_ge in Ev;
    do 2 eexists; (split; [reflexivity|]); (split; [reflexivity|]); lra.
Qed.

Lemma pf_add_fin_mono x x' y y' :
  fin_le x x' -> fin_le y y' -> fin_le (pf_add x y) (pf_add x' y').
Proof.
  intros (a & a' & -> & -> & Ha) (b & b' & -> & -> & Hb). simpl.
  do 2 eexists. split; [reflexivity|]. split; [reflexivity|]. lra.
Qed.

Lemma pf_mul_fin_mono k x y :
  0 <= k -> fin_le x y -> fin_le (pf_mul x (Fin k)) (pf_mul y (Fin k)).
Proof.
  intros Hk (a & b & -> & -> & Hab). simpl.
  do 2 eexists. split; [reflexivity|]. split; [reflexivity|]. nra.
Qed.

Lemma pf_add_const_fin_mono c x y :
  fin_le x y -> fin_le (pf_mul (pf_add x (Fin c)) (Fin 200))
                  (pf_mul (pf_add y (Fin c)) (Fin 200)).
Proof.
  intros (a & b & -> & -> & Hab). simpl.
  do 2 eexists. split; [reflexivity|]. split; [reflexivity|]. lra.
Qed.

Lemma pf_sub_scaled_fin_anti c k x y :
  0 <= k -> fin_le y x ->
  fin_le (pf_sub (Fin c) (pf_mul x (Fin k))) (pf_sub (Fin c) (pf_mul y (Fin k))).
Proof.
  intros Hk (b & a & -> & -> & Hab). simpl.
  do 2 eexists. split; [reflexivity|]. split; [reflexivity|]. nra.
Qed.

(** X6: on finite inputs the two score formulas are monotone: the
    performance score does not fall when the total return, the Sharpe
    ratio or the win rate rises or the maximum drawdown shrinks, and the
    risk score does not fall when the margin ratio, the volatility or
    the maximum drawdown shrinks. *)
Theorem scores_monotone
  (total_return total_return' sharpe sharpe' max_drawdown max_drawdown'
   win_rate win_rate' avg_margin_ratio avg_margin_ratio'
   volatility volatility' : pfloat) :
  fin_le total_return total_return' ->
  fin_le sharpe sharpe' ->
  fin_le max_drawdown' max_drawdown ->
  fin_le win_rate win_rate' ->
  fin_le avg_margin_ratio' avg_margin_ratio ->
  fin_le volatility' volatility ->
  fin_le
    (_calculate_performance_score total_return sharpe max_drawdown win_rate)
    (_calculate_performance_score total_return' sharpe' max_drawdown' win_rate')
  /\ fin_le
       (_calculate_risk_score avg_margin_ratio volatility max_drawdown)
       (_calculate_risk_score avg_margin_ratio' volatility' max_drawdown').
Proof.
  intros Hr Hs Hd Hw Hm Hv.
  unfold _calculate_performance_score, _calculate_risk_score. split.
  - repeat apply pf_add_fin_mono.
    + apply py_min_fin_mono, py_max_fin_mono.
      now apply pf_add_const_fin_mono.
    + apply py_min_fin_mono, py_max_fin_mono.
      apply pf_mul_fin_mono; [lra | exact Hs].
    + apply py_max_fin_mono. apply pf_sub_scaled_fin_anti; [lra | exact Hd].
    + apply pf_mul_fin_mono; [lra | exact Hw].
  - repeat apply pf_add_fin_mono; apply py_max_fin_mono;
      apply pf_sub_scaled_fin_anti; try lra; assumption.
Qed.

(** The theorem at a return of 5% against 10%, a drawdown of 10% against
    5% and a margin ratio of 30% against 20%, all else equal. *)
Lemma scores_monotone_witness :
  fin_le
    (_calculate_performance_score (Fin 0.05) (Fin 1) (Fin 0.10) (Fin 0.5))
    (_calculate_performance_score (Fin 0.10) (Fin 1) (Fin 0.05) (Fin 0.5))
  /\ fin_le
       (_calculate_risk_score (Fin 0.3) (Fin 0.2) (Fin 0.10))
       (_calculate_risk_score (Fin 0.2) (Fin 0.2) (Fin 0.05)).
Proof.
  apply scores_monotone;
    do 2 eexists; (split; [reflexivity|]); (split; [reflexivity|]);
    discriminate.
Defined.

(** ** Running maximum and drawdown of a positive equity series *)

Lemma fin_le_trans x y z : fin_le x y -> fin_le y z -> fin_le x z.
Proof.
  intros (a & b & -> & -> & Hab) (b' & c & Hb & -> & Hbc).
  injection Hb as <-. exists a, c. repeat split; try reflexivity. lra.
Qed.

Lemma Forall2_Forall_l {A B : Type} (R : A -> B -> Prop) (P : A -> Prop) l1 l2 :
  (forall a b, R a b -> P a) -> Forall2 R l1 l2 -> Forall P l1.
Proof. intros H. induction 1; constructor; eauto. Qed.

Lemma Forall2_impl {A B : Type} (R R' : A -> B -> Prop) l1 l2 :
  (forall a b, R a b -> R' a b) -> Forall2 R l1 l2 -> Forall2 R' l1 l2.
Proof. intros H. induction 1; constructor; auto. Qed.

Lemma Forall2_map2 {A B C : Type} (R : A -> B -> Prop) (P : C -> Prop)
  (f : A -> B -> C) l1 l2 :
  (forall a b, R a b -> P (f a b)) -> Forall2 R l1 l2 -> Forall P (map2 f l1 l2).
Proof. intros H. induction 1; simpl; constructor; auto. Qed.

Lemma Forall2_map_r {A B C : Type} (R : A -> C -> Prop) (f : B -> C) l1 l2 :
  Forall2 R l1 (map f l2) <-> Forall2 (fun a b => R a (f b)) l1 l2.
Proof.
  split.
  - revert l1. induction l2 as [|b l2 IH]; intros l1 H; inversion H; subst;
      constructor; auto.
  - induction 1; simpl; constructor; auto.
Qed.

(** The running maximum of finite values that all satisfy [P]: each
    value of the column is one of the values seen, so it satisfies [P];
    it is at least the row's value and at least the value carried in;
    and the column never falls. *)
Lemma cummax_finite (P : Q -> Prop) l acc :
  (acc = NInf \/ exists a, acc = Fin a /\ P a) ->
  Forall (fun x => exists q, x = Fin q /\ P q) l ->
  Forall2 (fun m x => (exists q, m = Fin q /\ P q)
                      /\ (exists e, x = Fin e /\ P e) /\ fin_le x m)
    (cum_from pf_maximum acc l) l
  /\ Forall (fun m => acc = NInf \/ fin_le acc m) (cum_from pf_maximum acc l)
  /\ StronglySorted fin_le (cum_from pf_maximum acc l).
Proof.
  intros Hacc Hl. revert acc Hacc.
  induction Hl as [|x l (q & -> & Hq) Hl IH]; intros acc Hacc; simpl.
  - repeat split; constructor.
  - assert (Hstep : exists a', pf_maximum acc (Fin q) = Fin a' /\ P a'
                      /\ q <= a' /\ (acc = NInf \/ fin_le acc (Fin a'))).
    { destruct Hacc as [-> | (a & -> & Ha)]; simpl.
      - exists q. repeat split; auto; try lra.
      - destruct (Qltb a q) eqn:E.
        + apply Qltb_lt in E. exists q. repeat split; auto; try lra.
          right. exists a, q. repeat split; try reflexivity. lra.
        + apply Qltb_ge in E. exists a. repeat split; auto.
          right. exists a, a. repeat split; try reflexivity. lra. }
    destruct Hstep as (a' & -> & Ha' & Hqa & Hge).
    destruct (IH (Fin a')) as (H2 & Hall & Hs); [right; eauto|].
    assert (Hall' : Forall (fin_le (Fin a')) (cum_from pf_maximum (Fin a') l)).
    { eapply Forall_impl; [|exact Hall]. intros m [Hm | Hm];
        [discriminate | exact Hm]. }
    split; [|split].
    + constructor; [|exact H2]. split; [eauto|]. split; [eauto|].
      exists q, a'. repeat split; auto.
    + constructor; [exact Hge|].
      eapply Forall_impl; [|exact Hall']. intros m Hm.
      destruct Hge as [-> | Hge]; [now left | right].
      now apply fin_le_trans with (Fin a').
    + constructor; assumption.
Qed.


Lemma drawdown_column_eq running_max equity :
  map2 pf_div (map2 pf_sub running_max equity) running_max
  = map2 drawdown_of running_max equity.
Proof. apply map2_nested. Qed.



Lemma fin_le_comp_l p q x : p == q -> fin_le (Fin q) x -> fin_le (Fin p) x.
Proof.
  intros E (a & b & Ea & -> & Hab). injection Ea as <-.
  exists p, b. repeat split; try reflexivity. lra.
Qed.

Lemma calculate_daily_returns_max_drawdown_length {O : SortValues} df :
  length (Returns.max_drawdown (calculate_daily_returns df)) = length df.
Proof. column_length. Qed.

(** The running maximum of a series that never falls is the series. *)
Lemma cummax_rising l acc :
  (acc = NInf \/ exists a, acc = Fin a /\ Forall (fin_le (Fin a)) l) ->
  Forall (fun x => exists q, x = Fin q /\ 0 < q) l ->
  StronglySorted fin_le l ->
  Forall2 (fun m x => exists p e, m = Fin p /\ x = Fin e /\ p == e /\ 0 < e)
    (cum_from pf_maximum acc l) l.
Proof.
  intros Hacc Hl Hs. revert acc Hacc.
  induction Hs as [|x l Hs IH Hx]; intros acc Hacc; simpl; [constructor|].
  inversion Hl as [|? ? (q & -> & Hq) Hl']; subst. simpl.
  assert (Hstep : exists p, pf_maximum acc (Fin q) = Fin p /\ p == q).
  { destruct Hacc as [-> | (a & -> & Ha)]; simpl.
    - exists q. split; reflexivity.
    - inversion Ha as [|? ? (a' & q' & Ea & Eq' & Haq) _]; subst.
      injection Ea as <-. injection Eq' as <-.
      destruct (Qltb a q) eqn:E.
      + exists q. split; reflexivity.
      + apply Qltb_ge in E. exists a. split; [reflexivity | lra]. }
  destruct Hstep as (p & -> & Hp).
  constructor.
  - exists p, q. repeat split; auto.
  - apply IH; [exact Hl'|]. right. exists p. split; [reflexivity|].
    eapply Forall_impl; [|exact Hx]. intros y. now apply fin_le_comp_l.
Qed.

Lemma drawdown_of_zero p e :
  p == e -> 0 < e -> exists d, drawdown_of (Fin p) (Fin e) = Fin d /\ d == 0.
Proof.
  intros E He. unfold drawdown_of. simpl.
  rewrite Qeq_bool_false_pos by lra.
  eexists. split; [reflexivity|].
  assert (H : p + - e == 0) by lra.
  unfold Qdiv. rewrite H. ring.
Qed.

Lemma series_max_finite (P : Q -> Prop) l :
  l <> [] -> Forall (fun x => exists q, x = Fin q /\ P q) l ->
  exists q, series_max l = Fin q /\ P q.
Proof.
  intros Hne Hl. unfold series_max, dropna.
  rewrite filter_all.
  2:{ intros x Hx. rewrite Forall_forall in Hl.
      destruct (Hl x Hx) as (q & -> & _). reflexivity. }
  destruct Hl as [|x l (q & -> & Hq) Hl]; [contradiction|]. clear Hne.
  revert q Hq. induction Hl as [|y l (r & -> & Hr) Hl IH]; intros q Hq; simpl.
  - eauto.
  - destruct (Qltb q r); now apply IH.
Qed.

Lemma pf_round_fin_zero x n : fin_zero x -> fin_zero (pf_round x n).
Proof.
  intros (q & -> & Hq). simpl. eexists. split; [reflexivity|].
  rewrite (py_round_comp q 0 n Hq). apply py_round_0.
Qed.

(** X8: when every equity is a positive number and no record has a
    lower equity than a record of the same or an earlier trade date (so
    that the records of one date carry the same equity), every drawdown
    and every maximum drawdown of the frame is zero, whatever the order
    in which the sort leaves the records of one date; with at least two
    records [calculate_performance] then reports a maximum drawdown of
    zero and a Calmar ratio of zero (the guard against a zero
    drawdown). *)
Theorem no_drawdown_while_equity_rises {O : SortValues}
  {S : Sqrt} (self : MetricsCalculator)
  (equity_df : list DailyEquity.t) (strategy_code : string) :
  Forall (fun row => fin_positive (DailyEquity.equity row)) equity_df ->
  (forall a b, In a equity_df -> In b equity_df -> date_le a b ->
     fin_le (DailyEquity.equity a) (DailyEquity.equity b)) ->
  let out := calculate_daily_returns equity_df in
  Forall fin_zero (Returns.drawdown out)
  /\ Forall fin_zero (Returns.max_drawdown out)
  /\ ((2 <= length equity_df)%nat ->
      exists result,
        calculate_performance self equity_df strategy_code
        = Return (Some result)
        /\ fin_zero (PerformanceMetrics.max_drawdown result)
        /\ fin_zero (PerformanceMetrics.calmar_ratio result)).
Proof.
  intros Hpos Hdates. cbv zeta.
  assert (Hrise : StronglySorted fin_le
                    (map DailyEquity.equity (sort_values_trade_date equity_df))).
  { apply StronglySorted_map.
    apply (StronglySorted_impl_in date_le); [|apply sort_values_sorted].
    intros a b Ha Hb. apply Hdates;
      now apply (Permutation_in _ (Permutation_sym (sort_values_perm equity_df))). }
  assert (Hdf : Forall (fun x => exists q, x = Fin q /\ 0 < q)
                  (map DailyEquity.equity (sort_values_trade_date equity_df))).
  { apply Forall_map.
    apply (Permutation_Forall (sort_values_perm equity_df)). exact Hpos. }
  assert (Hdd : Forall fin_zero
                  (Returns.drawdown (calculate_daily_returns equity_df))).
  { unfold calculate_daily_returns. cbv zeta. cbn [Returns.drawdown].
    rewrite drawdown_column_eq. unfold cummax.
    eapply Forall2_map2;
      [|exact (cummax_rising _ NInf (or_introl eq_refl) Hdf Hrise)].
    intros m x (p & e & -> & -> & E & He). now apply drawdown_of_zero. }
  assert (Hmdd : Forall fin_zero
                   (Returns.max_drawdown (calculate_daily_returns equity_df))).
  { change (Returns.max_drawdown (calculate_daily_returns equity_df))
      with (cummax (Returns.drawdown (calculate_daily_returns equity_df))).
    destruct (cummax_finite (fun q => q == 0) _ NInf (or_introl eq_refl) Hdd)
      as (H2 & _ & _).
    eapply Forall2_Forall_l; [|exact H2]. cbv beta. now intros m x [Hm _]. }
  split; [exact Hdd|]. split; [exact Hmdd|].
  intros Hlen.
  destruct (series_max_finite (fun q => q == 0)
              (Returns.max_drawdown (calculate_daily_returns equity_df)))
    as (m & Em & Hm); [|exact Hmdd|].
  { intros E. apply (f_equal (@length pfloat)) in E.
    rewrite calculate_daily_returns_max_drawdown_length in E.
    simpl in E. lia. }
  performance_body Hlen. rewrite Em.
  eexists. split; [reflexivity|].
  cbn [PerformanceMetrics.max_drawdown PerformanceMetrics.calmar_ratio].
  split.
  - apply pf_round_fin_zero. now exists m.
  - assert (Hg : pf_gtb (Fin m) (Fin 0) = false).
    { unfold pf_gtb. simpl. apply Qltb_ge. lra. }
    rewrite Hg. apply pf_round_fin_zero. exists 0. split; reflexivity.
Qed.

(** The theorem at the constant series [steady_equity]. *)
Lemma no_drawdown_while_equity_rises_witness :
  Forall fin_zero
    (Returns.max_drawdown
       (calculate_daily_returns (O:=stable_sort_values) steady_equity)).
Proof.
  apply (no_drawdown_while_equity_rises (O:=stable_sort_values)
           (S:=sqrt_micro) default_calculator steady_equity "s1").
  - repeat (apply Forall_cons;
              [eexists; split; [reflexivity | reflexivity]|]).
    apply Forall_nil.
  - intros a b Ha Hb _.
    assert (E : forall r, In r steady_equity ->
              DailyEquity.equity r = Fin 8000).
    { intros r [<- | [<- | []]]; reflexivity. }
    rewrite (E a Ha), (E b Hb).
    exists 8000, 8000. repeat split; discriminate.
Defined.

(** ** Cumulative return without deposits *)

(** The first row apart, the shifted column may be read without its cut
    to the length of the frame. *)
Lemma return_column_firstn (equity prev deposit : list pfloat) :
  map2 pf_div
    (map2 pf_sub (map2 pf_sub equity (firstn (length equity) prev)) deposit)
    (firstn (length equity) prev)
  = map2 pf_div (map2 pf_sub (map2 pf_sub equity prev) deposit) prev.
Proof.
  revert prev deposit.
  induction equity as [|e equity IH]; intros prev deposit; simpl.
  - reflexivity.
  - destruct prev as [|p prev]; simpl; [reflexivity|].
    destruct deposit as [|d deposit]; simpl; [reflexivity|].
    now rewrite IH.
Qed.

Lemma cumulative_return_chain e0 rows : 0 < e0 ->
  Forall (fun row => fin_positive (DailyEquity.equity row)
                     /\ fin_zero (DailyEquity.deposit_withdraw row)) rows ->
  forall prev a, 0 < prev -> a == prev / e0 ->
  Forall2 (fun c row =>
             exists x e, c = Fin x /\ DailyEquity.equity row = Fin e
                         /\ x == e / e0 - 1)
    (map (fun x => pf_sub x (Fin 1))
       (cum_from pf_mul (Fin a)
          (map (fun r => pf_add (Fin 1) r)
             (map fillna0
                (map2 pf_div
                   (map2 pf_sub
                      (map2 pf_sub (map DailyEquity.equity rows)
                         (Fin prev :: map DailyEquity.equity rows))
                      (map DailyEquity.deposit_withdraw rows))
                   (Fin prev :: map DailyEquity.equity rows))))))
    rows.
Proof.
  intros He0. induction 1 as [|row rows [(e & Ee & He) (d & Ed & Hd)] Hrows IH];
    intros prev a Hprev Ha; simpl; [constructor|].
  rewrite Ee, Ed. simpl.
  rewrite (Qeq_bool_false_pos prev Hprev). simpl.
  assert (Hstep : a * (1 + (e + - prev + - d) / prev) == e / e0).
  { rewrite Ha, Hd. field. split; lra. }
  constructor.
  - exists (a * (1 + (e + - prev + - d) / prev) + - (1)), e.
    split; [reflexivity|]. split; [exact Ee|]. rewrite Hstep. ring.
  - exact (IH e _ He Hstep).
Qed.

(** X9: when every equity is a positive number and no record carries a
    deposit or withdrawal, the cumulative return of each row is the
    growth of the equity since the first row: the row's equity over the
    equity of the earliest record, less one. *)
Theorem cumulative_return_without_deposits {O : SortValues}
  (equity_df : list DailyEquity.t)
  (first : DailyEquity.t) :
  Forall (fun row => fin_positive (DailyEquity.equity row)
                     /\ fin_zero (DailyEquity.deposit_withdraw row))
    equity_df ->
  let out := calculate_daily_returns equity_df in
  hd_error (Returns.rows out) = Some first ->
  exists e0,
    DailyEquity.equity first = Fin e0
    /\ Forall2 (fun c row =>
                  exists x e, c = Fin x /\ DailyEquity.equity row = Fin e
                              /\ x == e / e0 - 1)
         (Returns.cumulative_return out) (Returns.rows out).
Proof.
  intros Hdf. cbv zeta.
  unfold calculate_daily_returns. cbv zeta.
  cbn [Returns.rows Returns.cumulative_return].
  assert (Hrows : Forall (fun row => fin_positive (DailyEquity.equity row)
                            /\ fin_zero (DailyEquity.deposit_withdraw row))
                    (sort_values_trade_date equity_df)).
  { apply (Permutation_Forall (sort_values_perm equity_df)). exact Hdf. }
  unfold shift1, cumprod. rewrite return_column_firstn.
  destruct (sort_values_trade_date equity_df) as [|row rows]; simpl;
    [discriminate|].
  intros H. injection H as ->.
  inversion Hrows as [|? ? [(e0 & Ee & He0) (d & Ed & Hd)] Hrest]; subst.
  exists e0. split; [exact Ee|].
  rewrite Ee, Ed. simpl.
  constructor.
  - exists (1 * (1 + 0) + - (1)), e0.
    split; [reflexivity|]. split; [exact Ee|]. field. lra.
  - refine (cumulative_return_chain e0 rows He0 Hrest e0 _ He0 _).
    field. lra.
Qed.

(** The theorem at [steady_equity]: the equity stays at 8000, so the
    cumulative return stays at zero. *)
Lemma cumulative_return_without_deposits_witness :
  exists e0,
    Forall2 (fun c row =>
               exists x e, c = Fin x /\ DailyEquity.equity row = Fin e
                           /\ x == e / e0 - 1)
      (Returns.cumulative_return
         (calculate_daily_returns (O:=stable_sort_values) steady_equity))
      (Returns.rows (calculate_daily_returns (O:=stable_sort_values)
          steady_equity)).
Proof.
  destruct (cumulative_return_without_deposits (O:=stable_sort_values)
      steady_equity
              (DailyEquity.mk "s1" "2025-12-01" (Fin 0) (Fin 8000) (Fin 1)))
    as (e0 & _ & H).
  - repeat (apply Forall_cons;
              [split; eexists; split; reflexivity|]).
    apply Forall_nil.
  - reflexivity.
  - exists e0. exact H.
Defined.

(** ** Contract roots *)

Lemma ascii_upper_letter c :
  ascii_isalpha (ascii_upper c) = true ->
  ascii_isupper (ascii_upper c) = true
  /\ ascii_upper (ascii_upper c) = ascii_upper c.
Proof.
  destruct c as [[] [] [] [] [] [] [] []]; vm_compute;
    first [discriminate | intros _; split; reflexivity].
Qed.

Lemma ascii_isupper_isalpha c : ascii_isupper c = true -> ascii_isalpha c = true.
Proof.
  unfold ascii_isupper, ascii_isalpha. cbv zeta. intros ->. reflexivity.
Qed.

Lemma ascii_isupper_upper c : ascii_isupper c = true -> ascii_upper c = c.
Proof.
  destruct c as [[] [] [] [] [] [] [] []]; vm_compute;
    first [discriminate | reflexivity].
Qed.

Lemma str_filter_app p s t :
  str_filter p (s ++ t) = (str_filter p s ++ str_filter p t)%string.
Proof.
  induction s as [|c s IH]; simpl; [reflexivity|].
  destruct (p c); simpl; now rewrite IH.
Qed.

Lemma str_upper_app s t : str_upper (s ++ t) = (str_upper s ++ str_upper t)%string.
Proof. induction s as [|c s IH]; simpl; [reflexivity | now rewrite IH]. Qed.

Lemma ascii_isupper_isascii c : ascii_isupper c = true -> ascii_isascii c = true.
Proof.
  destruct c as [[] [] [] [] [] [] [] []]; vm_compute;
    first [discriminate | reflexivity].
Qed.

Lemma str_isascii_app s t :
  str_isascii (s ++ t) = str_isascii s && str_isascii t.
Proof.
  induction s as [|c s IH]; simpl; [reflexivity|].
  now rewrite IH, Bool.andb_assoc.
Qed.

Lemma ascii_contract_base_upper contract :
  Forall (fun c => ascii_isupper c = true)
    (list_ascii_of_string (ascii_contract_base contract)).
Proof.
  unfold ascii_contract_base.
  induction contract as [|c s IH]; simpl; [constructor|].
  destruct (ascii_isalpha (ascii_upper c)) eqn:E; [|exact IH].
  simpl. constructor; [|exact IH]. now apply ascii_upper_letter.
Qed.

Lemma ascii_contract_base_fixed s :
  Forall (fun c => ascii_isupper c = true) (list_ascii_of_string s) ->
  ascii_contract_base s = s.
Proof.
  unfold ascii_contract_base. induction s as [|c s IH]; simpl; [reflexivity|].
  intros H. inversion H as [|? ? Hc Hs]; subst.
  rewrite (ascii_isupper_upper c Hc), (ascii_isupper_isalpha c Hc).
  now rewrite IH.
Qed.

Lemma upper_isascii s :
  Forall (fun c => ascii_isupper c = true) (list_ascii_of_string s) ->
  str_isascii s = true.
Proof.
  induction s as [|c s IH]; simpl; [reflexivity|].
  intros H. inversion H as [|? ? Hc Hs]; subst.
  now rewrite (ascii_isupper_isascii c Hc), IH.
Qed.

Lemma ascii_contract_base_app s t :
  ascii_contract_base (s ++ t)
  = (ascii_contract_base s ++ ascii_contract_base t)%string.
Proof. unfold ascii_contract_base. now rewrite str_upper_app, str_filter_app. Qed.

Lemma ascii_contract_base_no_letter s :
  Forall (fun c => ascii_isalpha c = false) (list_ascii_of_string s) ->
  ascii_contract_base s = EmptyString.
Proof.
  unfold ascii_contract_base.
  induction s as [|c s IH]; simpl; [reflexivity|].
  intros Hs. inversion Hs as [|? ? Hc Hs']; subst.
  assert (Hu : ascii_isalpha (ascii_upper c) = false).
  { revert Hc. clear.
    destruct c as [[] [] [] [] [] [] [] []]; vm_compute; congruence. }
  rewrite Hu. now apply IH.
Qed.

Lemma string_app_empty (s : string) : (s ++ EmptyString)%string = s.
Proof. induction s as [|c s IH]; simpl; [reflexivity | now rewrite IH]. Qed.

(** X10: on a contract written in ASCII, the contract root that
    [calculate_daily_metrics] groups the positions by consists of
    upper-case ASCII letters only; taking the root of a root changes
    nothing; and the root of two ASCII strings put together is the two
    roots put together, so that digits, such as the delivery month of a
    contract code, never matter.  Nothing is said of a contract with a
    character outside ASCII, where Python's Unicode tables decide. *)
Theorem contract_base_letters_only {K : ContractRoot}
  (contract suffix : string) :
  str_isascii contract = true ->
  str_isascii suffix = true ->
  Forall (fun c => ascii_isupper c = true)
    (list_ascii_of_string (contract_base contract))
  /\ contract_base (contract_base contract) = contract_base contract
  /\ contract_base (contract ++ suffix)
     = (contract_base contract ++ contract_base suffix)%string
  /\ (Forall (fun c => ascii_isalpha c = false) (list_ascii_of_string suffix) ->
      contract_base (contract ++ suffix) = contract_base contract).
Proof.
  intros Hc Hs.
  assert (Hcs : str_isascii (contract ++ suffix) = true).
  { now rewrite str_isascii_app, Hc, Hs. }
  rewrite (contract_base_ascii contract Hc), (contract_base_ascii suffix Hs),
    (contract_base_ascii _ Hcs).
  fold (ascii_contract_base contract) (ascii_contract_base suffix)
    (ascii_contract_base (contract ++ suffix)).
  pose proof (ascii_contract_base_upper contract) as Hup.
  rewrite (contract_base_ascii _ (upper_isascii _ Hup)).
  fold (ascii_contract_base (ascii_contract_base contract)).
  split; [exact Hup|].
  split; [now apply ascii_contract_base_fixed|].
  split; [apply ascii_contract_base_app|].
  intros Hno. rewrite ascii_contract_base_app.
  rewrite (ascii_contract_base_no_letter suffix Hno).
  apply string_app_empty.
Qed.

(** The theorem at the rebar contract of May 2025: the delivery month
    does not matter. *)
Lemma contract_base_letters_only_witness :
  @contract_base ascii_contract_root ("rb" ++ "2505")
  = @contract_base ascii_contract_root "rb".
Proof.
  destruct (contract_base_letters_only (K:=ascii_contract_root) "rb" "2505")
    as (_ & _ & _ & H); [reflexivity | reflexivity |].
  apply H. repeat constructor.
Defined.

(** ** The keys of the per-root dict *)

Lemma dict_get_keys {V : Type} k (d : dict V) :
  existsb (String.eqb k) (map fst d)
  = match dict_get k d with Some _ => true | None => false end.
Proof.
  induction d as [|[k' v] d IH]; simpl; [reflexivity|].
  rewrite (String.eqb_sym k k'). destruct (String.eqb k' k); simpl; auto.
Qed.

Lemma dict_set_keys {V : Type} k (v : V) d :
  map fst (dict_set k v d)
  = if existsb (String.eqb k) (map fst d) then map fst d
    else map fst d ++ [k].
Proof.
  induction d as [|[k' v'] d IH]; simpl; [reflexivity|].
  rewrite (String.eqb_sym k k'). destruct (String.eqb k' k); simpl.
  - reflexivity.
  - rewrite IH. now destruct (existsb (String.eqb k) (map fst d)).
Qed.

Lemma dict_add_keys k v d :
  map fst (dict_add k v d)
  = if existsb (String.eqb k) (map fst d) then map fst d
    else map fst d ++ [k].
Proof. unfold dict_add. destruct (dict_get k d); apply dict_set_keys. Qed.

Lemma existsb_filter_neq x y l :
  existsb (String.eqb x) (filter (fun z => negb (String.eqb z y)) l)
  = negb (String.eqb x y) && existsb (String.eqb x) l.
Proof.
  induction l as [|z l IH]; simpl; [now rewrite andb_false_r|].
  destruct (String.eqb z y) eqn:Ezy; simpl.
  - rewrite IH. apply String.eqb_eq in Ezy. subst z.
    destruct (String.eqb x y); reflexivity.
  - rewrite IH. destruct (String.eqb x z) eqn:Exz; simpl.
    + apply String.eqb_eq in Exz. subst z. now rewrite Ezy.
    + reflexivity.
Qed.

Lemma existsb_unique x l :
  existsb (String.eqb x) (unique l) = existsb (String.eqb x) l.
Proof.
  induction l as [|y l IH]; simpl; [reflexivity|].
  rewrite existsb_filter_neq, IH.
  destruct (String.eqb x y); reflexivity.
Qed.

Lemma unique_snoc l x :
  unique (l ++ [x])
  = if existsb (String.eqb x) l then unique l else unique l ++ [x].
Proof.
  induction l as [|y l IH]; simpl; [reflexivity|].
  rewrite IH. destruct (String.eqb x y) eqn:Exy; simpl.
  - destruct (existsb (String.eqb x) l); [reflexivity|].
    rewrite filter_app. simpl. rewrite Exy. simpl. now rewrite app_nil_r.
  - destruct (existsb (String.eqb x) l); [reflexivity|].
    rewrite filter_app. simpl. now rewrite Exy.
Qed.

Lemma unique_length_le l : (length (unique l) <= length l)%nat.
Proof.
  induction l as [|x l IH]; simpl; [lia|].
  pose proof (filter_length_le (fun y => negb (String.eqb y x)) (unique l)).
  lia.
Qed.

Lemma exposure_loop_keys {K : ContractRoot} d positions :
  map fst (position_values (exposure_loop d positions))
  = unique (map root_of (filter (on_day d) positions)).
Proof.
  unfold exposure_loop.
  induction positions as [|p positions IH] using rev_ind; [reflexivity|].
  rewrite fold_left_app, filter_app, map_app. simpl.
  unfold exposure_step at 1. unfold on_day at 2.
  destruct (String.eqb (Position.trade_date p) d); simpl.
  - rewrite dict_add_keys, IH, unique_snoc, existsb_unique. reflexivity.
  - now rewrite app_nil_r.
Qed.

(** ** Further fields of [calculate_daily_metrics] *)

Lemma calculate_daily_metrics_ratios {K : ContractRoot}
  equity_row positions trades :
  pf_leb (DailyEquity.equity equity_row) (Fin 0) = false ->
  let equity := DailyEquity.equity equity_row in
  let st := exposure_loop (DailyEquity.trade_date equity_row) positions in
  exists m,
    calculate_daily_metrics equity_row positions trades = Return (Some m)
    /\ DailyMetrics.margin_ratio m
       = pf_round (if pf_gtb equity (Fin 0)
                   then pf_div (DailyEquity.margin_used equity_row) equity
                   else Fin 0) 4
    /\ DailyMetrics.net_exposure m
       = pf_round (if pf_gtb equity (Fin 0)
                   then pf_div (Fin (long_exposure st - short_exposure st)) equity
                   else Fin 0) 6
    /\ DailyMetrics.gross_exposure m
       = pf_round (if pf_gtb equity (Fin 0)
                   then pf_div (Fin (long_exposure st + short_exposure st)) equity
                   else Fin 0) 6.
Proof.
  intros Hle equity st.
  unfold calculate_daily_metrics. fold equity. fold st.
  unfold equity in Hle |- *. rewrite Hle.
  assert (Hdiv : forall a,
    (if pf_gtb (DailyEquity.equity equity_row) (Fin 0)
     then py_truediv a (DailyEquity.equity equity_row)
     else Return (Fin 0))
    = Return (if pf_gtb (DailyEquity.equity equity_row) (Fin 0)
              then pf_div a (DailyEquity.equity equity_row) else Fin 0)).
  { intros a. destruct (pf_gtb _ _); [|reflexivity].
    now apply py_truediv_nonzero. }
  rewrite !Hdiv. cbn [bind].
  destruct (position_values st) as [|kv pv] eqn:Epv; cbn [is_empty negb bind].
  - eexists; split; [reflexivity|]. cbn. repeat split; reflexivity.
  - destruct (Qltb 0 (long_exposure st + short_exposure st)) eqn:Etot.
    + apply Qltb_lt in Etot.
      assert (Hs : exists s0 rest,
        sorted_reverse (map snd (kv :: pv)) = s0 :: rest).
      { destruct (sorted_reverse (map snd (kv :: pv))) as [|s0 rest] eqn:Es.
        - apply (f_equal (@length Q)) in Es. unfold sorted_reverse in Es.
          rewrite stable_sort_length in Es. discriminate.
        - now exists s0, rest. }
      destruct Hs as (s0 & rest & Hs). rewrite Hs.
      unfold py_index. cbn [nth_error bind].
      rewrite !q_truediv_pos by assumption. cbn [bind].
      eexists; split; [reflexivity|]. cbn. repeat split; reflexivity.
    + cbn [bind].
      eexists; split; [reflexivity|]. cbn. repeat split; reflexivity.
Qed.

Lemma unique_nil_iff l : unique l = [] <-> l = [].
Proof. destruct l; simpl; split; congruence. Qed.

(** X11: for a row whose equity is not zero or less, [position_count]
    is the number of distinct contract roots among the position records
    of the row's trading day, of whatever strategy: two contracts of one
    root count once.  It is at most the number of those records, and
    zero exactly when there is none. *)
Theorem position_count_is_distinct_roots {K : ContractRoot}
  (equity_row : DailyEquity.t)
  (positions : list Position.t) (trades : list Trade.t) :
  pf_leb (DailyEquity.equity equity_row) (Fin 0) = false ->
  let day_positions :=
    filter (on_day (DailyEquity.trade_date equity_row)) positions in
  exists m,
    calculate_daily_metrics equity_row positions trades = Return (Some m)
    /\ DailyMetrics.position_count m
       = length (unique (map root_of day_positions))
    /\ (DailyMetrics.position_count m <= length day_positions)%nat
    /\ (DailyMetrics.position_count m = 0%nat <-> day_positions = []).
Proof.
  intros Hle day_positions.
  destruct (calculate_daily_metrics_returns equity_row positions trades Hle)
    as (m & Hm & _ & _ & _ & _ & _ & _ & _ & Hcount & _).
  exists m. split; [exact Hm|].
  assert (E : DailyMetrics.position_count m
              = length (unique (map root_of day_positions))).
  { rewrite Hcount, <- (length_map fst), exposure_loop_keys. reflexivity. }
  split; [exact E|]. rewrite E. split.
  - rewrite <- (length_map root_of day_positions). apply unique_length_le.
  - rewrite length_zero_iff_nil, unique_nil_iff. split.
    + apply map_eq_nil.
    + now intros ->.
Qed.

(** The theorem at [loss_positions]: two records, two roots. *)
Lemma position_count_is_distinct_roots_witness :
  exists m,
    calculate_daily_metrics (K:=ascii_contract_root)
        sample_row loss_positions [] = Return (Some m)
    /\ DailyMetrics.position_count m = 2%nat.
Proof.
  destruct (position_count_is_distinct_roots (K:=ascii_contract_root)
      sample_row loss_positions []
              eq_refl) as (m & Hm & Hc & _).
  exists m. split; [exact Hm | exact Hc].
Defined.

Lemma filter_none {A : Type} (f : A -> bool) (l : list A) :
  Forall (fun x => f x = false) l -> filter f l = [].
Proof. induction 1 as [|x l Hx _ IH]; simpl; [reflexivity | now rewrite Hx]. Qed.

Lemma exposure_loop_idle {K : ContractRoot} d positions :
  Forall (fun p => on_day d p = false) positions ->
  exposure_loop d positions
  = {| long_exposure := 0; short_exposure := 0; position_values := [] |}.
Proof.
  unfold exposure_loop. intros H.
  generalize {| long_exposure := 0; short_exposure := 0; position_values := [] |}.
  induction H as [|p positions Hp _ IH]; intros st; simpl; [reflexivity|].
  unfold exposure_step at 2. unfold on_day in Hp. rewrite Hp. simpl.
  apply IH.
Qed.

(** X12: for a row whose equity is not zero or less and no position
    record on the row's trading day (the list may hold records of other
    days), every exposure is zero: long, short and total position value,
    net and gross exposure, both concentrations and the position
    count. *)
Theorem daily_metrics_without_positions {K : ContractRoot}
  (equity_row : DailyEquity.t)
  (positions : list Position.t) (trades : list Trade.t) :
  pf_leb (DailyEquity.equity equity_row) (Fin 0) = false ->
  Forall (fun p => on_day (DailyEquity.trade_date equity_row) p = false)
    positions ->
  exists m,
    calculate_daily_metrics equity_row positions trades = Return (Some m)
    /\ DailyMetrics.long_exposure m == 0
    /\ DailyMetrics.short_exposure m == 0
    /\ DailyMetrics.total_position_value m == 0
    /\ fin_zero (DailyMetrics.net_exposure m)
    /\ fin_zero (DailyMetrics.gross_exposure m)
    /\ DailyMetrics.top1_concentration m == 0
    /\ DailyMetrics.top3_concentration m == 0
    /\ DailyMetrics.position_count m = 0%nat.
Proof.
  intros Hle Hnone.
  destruct (calculate_daily_metrics_returns equity_row positions trades Hle)
    as (m & Hm & _ & _ & Hl & Hs & Ht & H1 & H3 & Hc & _).
  destruct (calculate_daily_metrics_ratios equity_row positions trades Hle)
    as (m' & Hm' & _ & Hn & Hg).
  rewrite Hm in Hm'. injection Hm' as <-.
  cbv zeta in *. rewrite (exposure_loop_idle _ _ Hnone) in *.
  cbn [long_exposure short_exposure position_values] in *.
  exists m. split; [exact Hm|].
  rewrite Hl, Hs, Ht, H1, H3, Hc, Hn, Hg.
  assert (Hzero : forall a n, a == 0 ->
    fin_zero (pf_round (if pf_gtb (DailyEquity.equity equity_row) (Fin 0)
                        then pf_div (Fin a) (DailyEquity.equity equity_row)
                        else Fin 0) n)).
  { intros a n Ha. apply pf_round_fin_zero.
    destruct (DailyEquity.equity equity_row) as [e | | |]; simpl in *.
    - unfold pf_gtb. simpl. destruct (Qltb 0 e) eqn:E.
      + apply Qltb_lt in E. rewrite Qeq_bool_false_pos by exact E.
        eexists. split; [reflexivity|]. rewrite Ha. unfold Qdiv. ring.
      + exists 0. split; reflexivity.
    - exists 0. split; reflexivity.
    - discriminate.
    - exists 0. split; reflexivity. }
  repeat split; try apply py_round_0; apply Hzero; ring.
Qed.

(** The theorem at records of another trading day. *)
Lemma daily_metrics_without_positions_witness :
  exists m,
    calculate_daily_metrics (K:=ascii_contract_root)
      (DailyEquity.mk "s1" "2025-12-02" (Fin 0) (Fin 100000) (Fin 5000))
      loss_positions []
    = Return (Some m)
    /\ DailyMetrics.position_count m = 0%nat.
Proof.
  destruct (daily_metrics_without_positions (K:=ascii_contract_root)
              (DailyEquity.mk "s1" "2025-12-02" (Fin 0) (Fin 100000) (Fin 5000))
              loss_positions [] eq_refl)
    as (m & Hm & _ & _ & _ & _ & _ & _ & _ & Hc).
  - repeat (apply Forall_cons; [reflexivity|]). apply Forall_nil.
  - exists m. split; [exact Hm | exact Hc].
Defined.

(** ** Rounding is symmetric about zero *)

Lemma round_half_even_opp y : round_half_even (- y) = (- round_half_even y)%Z.
Proof.
  destruct (round_half_even_close y) as [C1 C2].
  pose proof (round_half_even_tie y) as Htie.
  apply round_half_even_unique.
  - rewrite inject_Z_opp. lra.
  - rewrite inject_Z_opp. lra.
  - rewrite inject_Z_opp, Z.even_opp. intros [H | H]; apply Htie.
    + right. lra.
    + left. lra.
Qed.

Lemma py_round_opp x n : py_round (- x) n == - py_round x n.
Proof.
  unfold py_round. cbv zeta.
  rewrite (round_half_even_comp (- x * inject_Z (10 ^ Z.of_nat n))
             (- (x * inject_Z (10 ^ Z.of_nat n)))) by ring.
  rewrite round_half_even_opp, inject_Z_opp.
  field. pose proof (pow10_pos n). lra.
Qed.

Lemma Qsum_filter_nonneg {A : Type} (f : A -> Q) (p q : A -> bool) l :
  Forall (fun x => p x = true -> 0 <= f x) l ->
  0 <= Qsum (map f (filter (fun x => p x && q x) l)).
Proof.
  intros H. apply Qsum_nonneg. apply Forall_map.
  rewrite Forall_forall in *. intros x Hx.
  apply filter_In in Hx as [Hx Hpq]. apply andb_true_iff in Hpq as [Hp _].
  now apply H.
Qed.

(** X13: for a row whose equity is not zero or less, [net_exposure]
    and [gross_exposure] are numbers; when the equity is a number [e],
    they are the long less the short and the long plus the short
    position value of the trading day, over [e], rounded to six
    decimals.  When no position of the day has a negative value, the net
    exposure lies between minus the gross exposure and the gross
    exposure. *)
Theorem net_exposure_within_gross {K : ContractRoot}
  (equity_row : DailyEquity.t)
  (positions : list Position.t) (trades : list Trade.t) :
  pf_leb (DailyEquity.equity equity_row) (Fin 0) = false ->
  let d := DailyEquity.trade_date equity_row in
  let long :=
    Qsum (values_of (filter (fun p => on_day d p && held_long p) positions)) in
  let short :=
    Qsum (values_of (filter (fun p => on_day d p && held_short p) positions)) in
  exists m n g,
    calculate_daily_metrics equity_row positions trades = Return (Some m)
    /\ DailyMetrics.net_exposure m = Fin n
    /\ DailyMetrics.gross_exposure m = Fin g
    /\ (forall e, DailyEquity.equity equity_row = Fin e ->
        n = py_round ((long - short) / e) 6
        /\ g = py_round ((long + short) / e) 6)
    /\ (Forall (fun p => on_day d p = true -> 0 <= Position.position_value p)
          positions ->
        - g <= n /\ n <= g).
Proof.
  intros Hle d long short.
  destruct (calculate_daily_metrics_ratios equity_row positions trades Hle)
    as (m & Hm & _ & Hn & Hg).
  cbv zeta in Hn, Hg. fold d in Hn, Hg.
  unfold exposure_loop in Hn, Hg.
  rewrite exposure_loop_long, exposure_loop_short in Hn, Hg.
  cbn [long_exposure short_exposure] in Hn, Hg.
  change (fold_left Qplus
            (values_of (filter (fun p => on_day d p && held_long p) positions)) 0)
    with long in Hn, Hg.
  change (fold_left Qplus
            (values_of (filter (fun p => on_day d p && held_short p) positions)) 0)
    with short in Hn, Hg.
  assert (Hsym : forall a b n, - b <= a -> a <= b ->
            - py_round b n <= py_round a n /\ py_round a n <= py_round b n).
  { intros a b k H1 H2. split; [|now apply py_round_mono].
    rewrite <- py_round_opp. now apply py_round_mono. }
  exists m. destruct (DailyEquity.equity equity_row) as [e | | |] eqn:Ee.
  - assert (He : 0 < e).
    { unfold pf_leb in Hle. simpl in Hle. apply orb_false_iff in Hle as [H1 H2].
      apply Qltb_ge in H1.
      destruct (Qle_lt_or_eq _ _ H1) as [H | H]; [exact H|].
      exfalso. symmetry in H. apply Qeq_bool_iff in H. congruence. }
    assert (Hpos : pf_gtb (Fin e) (Fin 0) = true).
    { unfold pf_gtb. simpl. now apply Qltb_lt. }
    rewrite Hpos in Hn, Hg. simpl in Hn, Hg.
    rewrite Qeq_bool_false_pos in Hn, Hg by exact He. simpl in Hn, Hg.
    exists (py_round ((long - short) / e) 6), (py_round ((long + short) / e) 6).
    split; [exact Hm|]. split; [exact Hn|]. split; [exact Hg|].
    split.
    + intros e' E. injection E as <-. split; reflexivity.
    + intros Hvals.
      assert (Hl : 0 <= long) by (apply Qsum_filter_nonneg; exact Hvals).
      assert (Hs : 0 <= short) by (apply Qsum_filter_nonneg; exact Hvals).
      apply Hsym.
      * assert (E : - ((long + short) / e) == (- (long + short)) / e)
          by (field; lra).
        rewrite E. apply Qmult_le_compat_r; [lra|].
        apply Qinv_le_0_compat. lra.
      * apply Qmult_le_compat_r; [lra|]. apply Qinv_le_0_compat. lra.
  - simpl in Hn, Hg. exists (py_round 0 6), (py_round 0 6).
    split; [exact Hm|]. split; [exact Hn|]. split; [exact Hg|].
    split; [discriminate|]. intros _. apply Hsym; lra.
  - discriminate.
  - simpl in Hn, Hg. exists (py_round 0 6), (py_round 0 6).
    split; [exact Hm|]. split; [exact Hn|]. split; [exact Hg|].
    split; [discriminate|]. intros _. apply Hsym; lra.
Qed.

(** The theorem at [loss_positions], both held long: the net exposure
    is the gross exposure. *)
Lemma net_exposure_within_gross_witness :
  exists m n g,
    calculate_daily_metrics (K:=ascii_contract_root)
        sample_row loss_positions [] = Return (Some m)
    /\ DailyMetrics.net_exposure m = Fin n
    /\ DailyMetrics.gross_exposure m = Fin g
    /\ n <= g.
Proof.
  destruct (net_exposure_within_gross (K:=ascii_contract_root)
      sample_row loss_positions [] eq_refl)
    as (m & n & g & Hm & Hn & Hg & _ & H).
  exists m, n, g. repeat split; try assumption.
  apply H. repeat (apply Forall_cons; [intros _; discriminate|]).
  apply Forall_nil.
Defined.

(** ** Rounding to a double *)

Lemma pow2_pos e : 0 < 2 ^ e.
Proof. apply Qpower_0_lt. reflexivity. Qed.

Lemma pow2_plus a b : 2 ^ (a + b) == 2 ^ a * 2 ^ b.
Proof. apply Qpower_plus. discriminate. Qed.

Lemma pow2_le a b : (a <= b)%Z -> 2 ^ a <= 2 ^ b.
Proof. intros H. apply Qpower_le_compat_l; [exact H | discriminate]. Qed.

Lemma pow2_lt a b : (a < b)%Z -> 2 ^ a < 2 ^ b.
Proof. intros H. apply Qpower_lt_compat_l; [exact H | reflexivity]. Qed.

Lemma pow2_Z n : (0 <= n)%Z -> inject_Z (2 ^ n) == 2 ^ n.
Proof. intros H. now rewrite Zpower_Qpower. Qed.

Lemma Qilog2_spec x : ~ x == 0 -> 2 ^ Qilog2 x <= Qabs x /\ Qabs x < 2 ^ (Qilog2 x + 1).
Proof.
  intros Hx. unfold Qilog2. cbv zeta.
  set (n := Z.abs (Qnum x)). set (d := Zpos (Qden x)).
  assert (Hn : (0 < n)%Z).
  { unfold n. destruct x as [[|p|p] q]; simpl; try lia. exfalso. now apply Hx. }
  assert (Hd : (0 < d)%Z) by (unfold d; lia).
  destruct (Z.log2_spec n Hn) as [Hn1 Hn2].
  destruct (Z.log2_spec d Hd) as [Hd1 Hd2].
  set (a := Z.log2 n) in *. set (b := Z.log2 d) in *.
  assert (Ha : (0 <= a)%Z) by apply Z.log2_nonneg.
  assert (Hb : (0 <= b)%Z) by apply Z.log2_nonneg.
  assert (Eabs : Qabs x == inject_Z n / inject_Z d).
  { destruct x as [xn xd]. unfold n, d. simpl. unfold Qabs.
    rewrite (Qmake_Qdiv (Z.abs xn) xd). reflexivity. }
  assert (Hdq : 0 < inject_Z d).
  { change 0 with (inject_Z 0). now rewrite <- Zlt_Qlt. }
  assert (Hupper : Qabs x < 2 ^ (a - b + 1)).
  { rewrite Eabs. apply Qlt_shift_div_r; [exact Hdq|].
    apply (Qlt_le_trans _ (inject_Z (2 ^ Z.succ a))).
    - now rewrite <- Zlt_Qlt.
    - rewrite pow2_Z by lia.
      replace (Z.succ a) with ((a - b + 1) + b)%Z by lia.
      rewrite pow2_plus. apply Qmult_le_l; [apply pow2_pos|].
      rewrite <- pow2_Z by lia. now rewrite <- Zle_Qle. }
  assert (Hlower : 2 ^ (a - b - 1) < Qabs x).
  { rewrite Eabs. apply Qlt_shift_div_l; [exact Hdq|].
    apply (Qlt_le_trans _ (inject_Z (2 ^ a))).
    - rewrite pow2_Z by lia.
      replace a with ((a - b - 1) + Z.succ b)%Z at 2 by lia.
      rewrite pow2_plus. apply Qmult_lt_l; [apply pow2_pos|].
      rewrite <- pow2_Z by lia. now rewrite <- Zlt_Qlt.
    - now rewrite <- Zle_Qle. }
  destruct (Qle_bool (2 ^ (a - b)) (Qabs x)) eqn:E.
  - apply Qle_bool_iff in E. split; [exact E | exact Hupper].
  - split; [now apply Qlt_le_weak|].
    replace (a - b - 1 + 1)%Z with (a - b)%Z by lia.
    apply Qnot_le_lt. intros H. apply Qle_bool_iff in H. congruence.
Qed.

Lemma Qilog2_unique x k :
  2 ^ k <= Qabs x -> Qabs x < 2 ^ (k + 1) -> Qilog2 x = k.
Proof.
  intros H1 H2.
  assert (Hx : ~ x == 0).
  { intros E. rewrite E in H1. pose proof (pow2_pos k).
    change (Qabs 0) with 0 in H1. lra. }
  destruct (Qilog2_spec x Hx) as [S1 S2].
  destruct (Z.lt_trichotomy (Qilog2 x) k) as [Hlt | [E | Hgt]]; [|exact E|].
  - exfalso. assert (2 ^ (Qilog2 x + 1) <= 2 ^ k) by (apply pow2_le; lia). lra.
  - exfalso. assert (2 ^ (k + 1) <= 2 ^ Qilog2 x) by (apply pow2_le; lia). lra.
Qed.

Lemma Qilog2_mono x y :
  ~ x == 0 -> Qabs x <= Qabs y -> (Qilog2 x <= Qilog2 y)%Z.
Proof.
  intros Hx Hxy.
  assert (Hy : ~ y == 0).
  { intros E. rewrite E in Hxy. change (Qabs 0) with 0 in Hxy.
    apply Hx. pose proof (Qabs_nonneg x) as Hn.
    assert (E0 : Qabs x == 0) by lra.
    revert E0. apply Qabs_case; intros; lra. }
  destruct (Qilog2_spec x Hx) as [X1 X2].
  destruct (Qilog2_spec y Hy) as [Y1 Y2].
  destruct (Z_le_gt_dec (Qilog2 x) (Qilog2 y)) as [H | H]; [exact H|].
  exfalso. assert (2 ^ (Qilog2 y + 1) <= 2 ^ Qilog2 x) by (apply pow2_le; lia).
  lra.
Qed.

Lemma round_at_mono e x y : x <= y -> round_at e x <= round_at e y.
Proof.
  intros H. unfold round_at. apply Qmult_le_r; [apply pow2_pos|].
  rewrite <- Zle_Qle. apply round_half_even_mono.
  apply Qmult_le_r; [apply Qinv_lt_0_compat, pow2_pos | exact H].
Qed.

Lemma round_at_multiple e z : round_at e (inject_Z z * 2 ^ e) == inject_Z z * 2 ^ e.
Proof.
  unfold round_at.
  rewrite (round_half_even_comp _ (inject_Z z)).
  - now rewrite round_half_even_Z.
  - field. pose proof (pow2_pos e). lra.
Qed.

Lemma round_at_comp e x y : x == y -> round_at e x == round_at e y.
Proof.
  intros E. unfold round_at.
  rewrite (round_half_even_comp (x / 2 ^ e) (y / 2 ^ e)) by now rewrite E.
  reflexivity.
Qed.

Lemma round_at_opp e x : round_at e (- x) == - round_at e x.
Proof.
  unfold round_at.
  rewrite (round_half_even_comp (- x / 2 ^ e) (- (x / 2 ^ e))).
  - rewrite round_half_even_opp, inject_Z_opp. ring.
  - field. pose proof (pow2_pos e). lra.
Qed.

(** A power of two is a multiple of a lower one. *)
Lemma pow2_multiple k e : (e <= k)%Z -> 2 ^ k == inject_Z (2 ^ (k - e)) * 2 ^ e.
Proof.
  intros H. rewrite pow2_Z by lia. rewrite <- pow2_plus.
  now replace (k - e + e)%Z with k by lia.
Qed.

Lemma Qilog2_opp x : Qilog2 (- x) = Qilog2 x.
Proof.
  unfold Qilog2. destruct x as [n d]. unfold Qabs, Qopp. simpl.
  now rewrite !Z.abs_opp.
Qed.

Lemma binary64_opp x : binary64 (- x) == - binary64 x.
Proof.
  unfold binary64, binary64_exp. rewrite Qilog2_opp. apply round_at_opp.
Qed.

Lemma binary64_comp_0 x : x == 0 -> binary64 x == 0.
Proof.
  intros E. unfold binary64.
  rewrite (round_at_comp _ x (inject_Z 0 * 2 ^ binary64_exp x)).
  - rewrite round_at_multiple. change (inject_Z 0) with 0. ring.
  - transitivity 0; [exact E|]. change (inject_Z 0) with 0. ring.
Qed.

Lemma round_at_nonneg e x : 0 <= x -> 0 <= round_at e x.
Proof.
  intros H.
  assert (E : 0 == round_at e (inject_Z 0 * 2 ^ e)).
  { rewrite round_at_multiple. change (inject_Z 0) with 0. ring. }
  rewrite E. apply round_at_mono.
  change (inject_Z 0) with 0. lra.
Qed.

Lemma binary64_mono_pos x y : 0 < x -> x <= y -> binary64 x <= binary64 y.
Proof.
  intros Hx Hxy.
  assert (Hx0 : ~ x == 0) by lra.
  assert (Hy0 : ~ y == 0) by lra.
  assert (Ax : Qabs x == x) by (apply Qabs_pos; lra).
  assert (Ay : Qabs y == y) by (apply Qabs_pos; lra).
  destruct (Qilog2_spec x Hx0) as [X1 X2].
  destruct (Qilog2_spec y Hy0) as [Y1 Y2].
  rewrite Ax in X1, X2. rewrite Ay in Y1, Y2.
  assert (Hk : (Qilog2 x <= Qilog2 y)%Z).
  { apply Qilog2_mono; [exact Hx0|]. now rewrite Ax, Ay. }
  unfold binary64, binary64_exp.
  set (kx := Qilog2 x) in *. set (ky := Qilog2 y) in *.
  destruct (Z.eq_dec (Z.max (kx - 52) (-1074)) (Z.max (ky - 52) (-1074)))
    as [E | Hne].
  - rewrite E. now apply round_at_mono.
  - assert (Hlt : (kx < ky)%Z) by lia.
    assert (Hey : Z.max (ky - 52) (-1074) = (ky - 52)%Z) by lia.
    rewrite Hey.
    set (ex := Z.max (kx - 52) (-1074)) in *.
    apply (Qle_trans _ (2 ^ ky)).
    + rewrite (pow2_multiple ky ex) by lia.
      rewrite <- (round_at_multiple ex (2 ^ (ky - ex))).
      apply round_at_mono. rewrite <- pow2_multiple by lia.
      apply (Qle_trans _ (2 ^ (kx + 1))); [lra | apply pow2_le; lia].
    + rewrite (pow2_multiple ky (ky - 52)) at 1 by lia.
      rewrite <- (round_at_multiple (ky - 52) (2 ^ (ky - (ky - 52)))).
      apply round_at_mono. rewrite <- pow2_multiple by lia. exact Y1.
Qed.

Lemma binary64_nonneg x : 0 <= x -> 0 <= binary64 x.
Proof. intros H. now apply round_at_nonneg. Qed.

Lemma binary64_mono x y : x <= y -> binary64 x <= binary64 y.
Proof.
  intros Hxy.
  destruct (Qlt_le_dec 0 x) as [Hx | Hx].
  - now apply binary64_mono_pos.
  - destruct (Qlt_le_dec y 0) as [Hy | Hy].
    + apply Qopp_le_compat in Hxy.
      assert (H : binary64 (- y) <= binary64 (- x)).
      { apply binary64_mono_pos; lra. }
      rewrite !binary64_opp in H. lra.
    + apply (Qle_trans _ 0).
      * assert (H : 0 <= binary64 (- x)) by (apply binary64_nonneg; lra).
        rewrite binary64_opp in H. lra.
      * now apply binary64_nonneg.
Qed.

Lemma binary64_multiple x z :
  x == inject_Z z * 2 ^ binary64_exp x -> binary64 x == x.
Proof.
  intros E. unfold binary64.
  rewrite (round_at_comp _ _ _ E), round_at_multiple. now symmetry.
Qed.

Lemma Qabs_dyadic m N :
  Qabs (inject_Z m * 2 ^ N) == inject_Z (Z.abs m) * 2 ^ N.
Proof.
  rewrite Qabs_Qmult, (Qabs_pos (2 ^ N)) by apply Qlt_le_weak, pow2_pos.
  reflexivity.
Qed.

Lemma binary64_dyadic m n :
  (Z.abs m <= 2 ^ 53)%Z -> (n <= 1074)%nat ->
  binary64 (inject_Z m / inject_Z (2 ^ Z.of_nat n))
  == inject_Z m / inject_Z (2 ^ Z.of_nat n).
Proof.
  intros Hm Hn. set (N := Z.of_nat n).
  assert (HN : (0 <= N <= 1074)%Z) by lia.
  set (x := inject_Z m / inject_Z (2 ^ N)).
  assert (Ex : x == inject_Z m * 2 ^ (- N)).
  { unfold x. rewrite pow2_Z by lia. rewrite Qpower_opp. reflexivity. }
  destruct (Z.eq_dec m 0) as [-> | Hm0].
  { rewrite binary64_comp_0; [symmetry|]; rewrite Ex; change (inject_Z 0) with 0; ring. }
  assert (Habs : Qabs x == inject_Z (Z.abs m) * 2 ^ (- N)).
  { rewrite <- Qabs_dyadic. now apply Qabs_wd. }
  assert (Hx0 : ~ x == 0).
  { intros E. rewrite E in Habs. change (Qabs 0) with 0 in Habs.
    pose proof (pow2_pos (- N)) as Hp.
    assert (H1 : 1 <= inject_Z (Z.abs m)).
    { change 1 with (inject_Z 1). rewrite <- Zle_Qle. lia. }
    nra. }
  destruct (Qilog2_spec x Hx0) as [K1 K2].
  destruct (Z_lt_le_dec (Z.abs m) (2 ^ 53)) as [Hlt | Hge].
  - assert (Hk : (Qilog2 x < 53 - N)%Z).
    { destruct (Z_lt_le_dec (Qilog2 x) (53 - N)) as [H | H]; [exact H|].
      exfalso.
      assert (Hup : Qabs x < 2 ^ (53 - N)).
      { rewrite Habs. replace (53 - N)%Z with (53 + - N)%Z by lia.
        rewrite pow2_plus. apply Qmult_lt_r; [apply pow2_pos|].
        rewrite <- pow2_Z by lia. now rewrite <- Zlt_Qlt. }
      assert (2 ^ (53 - N) <= 2 ^ Qilog2 x) by now apply pow2_le.
      lra. }
    assert (He : (binary64_exp x <= - N)%Z) by (unfold binary64_exp; lia).
    apply (binary64_multiple x (m * 2 ^ (- N - binary64_exp x))).
    rewrite inject_Z_mult, pow2_Z by lia.
    rewrite <- Qmult_assoc, <- pow2_plus.
    replace (- N - binary64_exp x + binary64_exp x)%Z with (- N)%Z by lia.
    exact Ex.
  - assert (Em : Z.abs m = (2 ^ 53)%Z) by lia.
    assert (Hk : Qilog2 x = (53 - N)%Z).
    { apply Qilog2_unique; rewrite Habs, Em, pow2_Z by lia;
        rewrite <- pow2_plus.
      - apply pow2_le. lia.
      - apply pow2_lt. lia. }
    assert (He : binary64_exp x = (1 - N)%Z) by (unfold binary64_exp; lia).
    apply (binary64_multiple x (m / 2)). rewrite He, Ex.
    assert (E2 : inject_Z m == inject_Z (m / 2) * 2).
    { change 2 with (inject_Z 2). rewrite <- inject_Z_mult.
      apply inject_Z_injective.
      assert (Hcase : m = (2 ^ 53)%Z \/ m = (- 2 ^ 53)%Z) by lia.
      destruct Hcase as [-> | ->]; reflexivity. }
    rewrite E2 at 1. replace (1 - N)%Z with (1 + - N)%Z by lia.
    rewrite pow2_plus. change (2 ^ 1) with 2. ring.
Qed.

Lemma binary64_sum_one x : binary64_sum [x] == binary64 x.
Proof.
  unfold binary64_sum. cbn [fold_left].
  apply Qle_antisym; apply binary64_mono; lra.
Qed.

(** IEEE binary64, with sums taken from left to right, is an instance
    of the interface. *)
Lemma binary64_arith : FloatArith.
Proof.
  exact {| fl_round := binary64;
           fl_sum := binary64_sum;
           fl_round_mono := binary64_mono;
           fl_round_opp := binary64_opp;
           fl_round_dyadic := binary64_dyadic;
           fl_sum_nil := Qeq_refl 0;
           fl_sum_one := binary64_sum_one |}.
Defined.

(** ** The detectors on doubles *)

(** X22: computed in doubles, a holding at floating losses of 0.1 and
    0.2 on a value of 6 is rated high, although the quotient of the
    decimals is exactly 5%: the sum of the two doubles is below -0.3 and
    the ratio above the double nearest to 0.05.  A holding at -0.1, -0.2
    and 0.3, whose decimals sum to zero, has a negative sum in doubles
    and gets an alert.  Computed without rounding, the first is rated
    medium and the second gets no alert. *)
Theorem floating_loss_on_doubles :
  map BehaviorAlert.severity
    (detect_floating_loss_add (D:=binary64_arith)
       (small_losses binary64) [opening_buy] [])
  = ["high"]
  /\ map BehaviorAlert.severity
       (detect_floating_loss_add (D:=exact_arith)
          (small_losses (fun x => x)) [opening_buy] [])
     = ["medium"]
  /\ map BehaviorAlert.severity
       (detect_floating_loss_add (D:=binary64_arith)
          (small_losses binary64 ++ [offset_profit binary64])
          [opening_buy] [])
     = ["low"]
  /\ detect_floating_loss_add (D:=exact_arith)
       (small_losses (fun x => x) ++ [offset_profit (fun x => x)])
       [opening_buy] []
     = [].
Proof. repeat split; vm_compute; reflexivity. Qed.

(** X23: computed in doubles, an opening sell after a rise of the
    settlement price from 10 to 10.30 is rated high, although the
    quotient of the decimals is exactly 3%: the double nearest to 10.30
    is above it, and so is the computed change above 0.3.  Computed
    without rounding, the trade is rated medium; and from 100 to 97,
    whose prices are doubles, it is medium in doubles too. *)
Theorem counter_trend_on_doubles :
  map BehaviorAlert.severity
    (detect_counter_trend_add (D:=binary64_arith)
       [risen_position binary64] [opening_sell])
  = ["high"]
  /\ map BehaviorAlert.severity
       (detect_counter_trend_add (D:=exact_arith)
          [risen_position (fun x => x)] [opening_sell])
     = ["medium"]
  /\ map BehaviorAlert.severity
       (detect_counter_trend_add (D:=binary64_arith)
          [losing_position] [opening_buy])
     = ["medium"].
Proof. repeat split; vm_compute; reflexivity. Qed.

(** ** Grouping by a key *)

Section GroupByKey.
Context {V : Type} (key : V -> string).

Lemma dict_get_tabulated {W : Type} (f : string -> W) k ks :
  dict_get k (map (fun k' => (k', f k')) ks)
  = if existsb (String.eqb k) ks then Some (f k) else None.
Proof.
  induction ks as [|k' ks IH]; simpl; [reflexivity|].
  rewrite (String.eqb_sym k k'). destruct (String.eqb k' k) eqn:E; simpl.
  - apply String.eqb_eq in E. now subst.
  - exact IH.
Qed.

Lemma dict_set_tabulated {W : Type} (f : string -> W) k v ks :
  NoDup ks ->
  dict_set k v (map (fun k' => (k', f k')) ks)
  = if existsb (String.eqb k) ks
    then map (fun k' => (k', if String.eqb k' k then v else f k')) ks
    else map (fun k' => (k', f k')) ks ++ [(k, v)].
Proof.
  induction 1 as [|k' ks Hk' Hnd IH]; simpl; [reflexivity|].
  rewrite (String.eqb_sym k k'). destruct (String.eqb k' k) eqn:E; simpl.
  - apply String.eqb_eq in E. subst k'. f_equal.
    apply map_ext_in. intros x Hx.
    destruct (String.eqb x k) eqn:Ex; [|reflexivity].
    apply String.eqb_eq in Ex. subst x. contradiction.
  - rewrite IH. now destruct (existsb (String.eqb k) ks).
Qed.

Lemma filter_key_absent k (l : list V) :
  existsb (String.eqb k) (map key l) = false ->
  filter (fun a => String.eqb (key a) k) l = [].
Proof.
  induction l as [|a l IH]; simpl; [reflexivity|].
  intros H. apply orb_false_iff in H as [H1 H2].
  rewrite String.eqb_sym, H1. now apply IH.
Qed.

(** The dict that the grouping loop builds: a key for each distinct
    value of [key], in the order of first appearance, with the elements
    of that key in their order. *)
Lemma group_by_key (l : list V) :
  fold_left (fun d a => dict_append (key a) a d) l []
  = map (fun k => (k, filter (fun a => String.eqb (key a) k) l))
      (unique (map key l)).
Proof.
  induction l as [|a l IH] using rev_ind; [reflexivity|].
  rewrite fold_left_app, IH. simpl.
  rewrite map_app. simpl. rewrite unique_snoc.
  unfold dict_append.
  rewrite (dict_get_tabulated
             (fun k => filter (fun a => String.eqb (key a) k) l)).
  rewrite existsb_unique.
  destruct (existsb (String.eqb (key a)) (map key l)) eqn:E.
  - rewrite dict_set_tabulated, existsb_unique, E by apply unique_NoDup.
    apply map_ext. intros k. rewrite filter_app. simpl.
    rewrite (String.eqb_sym k (key a)).
    destruct (String.eqb (key a) k) eqn:Ek.
    + apply String.eqb_eq in Ek. now subst.
    + now rewrite app_nil_r.
  - rewrite dict_set_tabulated, existsb_unique, E by apply unique_NoDup.
    rewrite map_app. simpl. f_equal.
    + apply map_ext_in. intros k Hk. rewrite filter_app. simpl.
      destruct (String.eqb (key a) k) eqn:Ek; [|now rewrite app_nil_r].
      apply String.eqb_eq in Ek. subst k.
      apply (proj1 (unique_In _ _)) in Hk. apply existsb_eqb_In in Hk.
      rewrite E in Hk. discriminate.
    + rewrite filter_app. simpl. rewrite String.eqb_refl.
      now rewrite (filter_key_absent _ _ E).
Qed.
End GroupByKey.

Lemma detect_all_tabulated {D : FloatArith} positions trades equity_data :
  detect_all positions trades equity_data
  = map (fun k => (k, sort_alerts
                        (filter (of_strategy k)
                           (all_alerts positions trades equity_data))))
      (unique (map BehaviorAlert.strategy_code
                 (all_alerts positions trades equity_data))).
Proof.
  unfold detect_all. cbv zeta. fold (all_alerts positions trades equity_data).
  rewrite (group_by_key BehaviorAlert.strategy_code), map_map. reflexivity.
Qed.

Lemma In_existsb_eqb x l : In x l <-> existsb (String.eqb x) l = true.
Proof.
  split; [apply existsb_eqb_In|].
  intros H. apply existsb_exists in H as (y & Hy & E).
  apply String.eqb_eq in E. now subst.
Qed.

(** X14: [detect_all] returns one entry for each strategy that has at
    least one alert, in the order in which the strategies first appear
    among the alerts (floating-loss alerts first); the entry of a
    strategy holds the alerts of that strategy and no other, each once,
    and is never empty.  A strategy without an alert has no entry. *)
Theorem detect_all_groups_by_strategy {D : FloatArith}
  (positions : list Position.t)
  (trades : list Trade.t) (equity_data : list DailyEquity.t) :
  let alerts := all_alerts positions trades equity_data in
  let result := detect_all positions trades equity_data in
  map fst result = unique (map BehaviorAlert.strategy_code alerts)
  /\ NoDup (map fst result)
  /\ (forall k, dict_get k result = None
                <-> ~ In k (map BehaviorAlert.strategy_code alerts))
  /\ (forall k l, dict_get k result = Some l ->
        l <> []
        /\ Permutation l (filter (of_strategy k) alerts)
        /\ Forall (fun a => BehaviorAlert.strategy_code a = k) l).
Proof.
  cbv zeta. rewrite detect_all_tabulated.
  set (alerts := all_alerts positions trades equity_data).
  assert (Hkeys : map fst
                    (map (fun k => (k, sort_alerts (filter (of_strategy k) alerts)))
                       (unique (map BehaviorAlert.strategy_code alerts)))
                  = unique (map BehaviorAlert.strategy_code alerts)).
  { rewrite map_map. simpl. apply map_id. }
  split; [exact Hkeys|]. split; [rewrite Hkeys; apply unique_NoDup|].
  split.
  - intros k.
    rewrite (dict_get_tabulated
               (fun k => sort_alerts (filter (of_strategy k) alerts))).
    rewrite existsb_unique, In_existsb_eqb.
    destruct (existsb (String.eqb k) (map BehaviorAlert.strategy_code alerts));
      split; congruence.
  - intros k l.
    rewrite (dict_get_tabulated
               (fun k => sort_alerts (filter (of_strategy k) alerts))).
    rewrite existsb_unique.
    destruct (existsb (String.eqb k) (map BehaviorAlert.strategy_code alerts))
      eqn:E; [|discriminate].
    intros H. injection H as <-.
    assert (Hp : Permutation (sort_alerts (filter (of_strategy k) alerts))
                   (filter (of_strategy k) alerts)).
    { apply Permutation_sym, stable_sort_perm. }
    split; [|split; [exact Hp|]].
    + apply In_existsb_eqb, in_map_iff in E as (a & Ea & Ha).
      intros Hnil. rewrite Hnil in Hp. apply Permutation_nil in Hp.
      assert (Hin : In a (filter (of_strategy k) alerts)).
      { apply filter_In. split; [exact Ha|]. unfold of_strategy.
        rewrite Ea. apply String.eqb_refl. }
      rewrite Hp in Hin. contradiction.
    + apply (Permutation_Forall (Permutation_sym Hp)).
      apply Forall_forall. intros a Ha. apply filter_In in Ha as [_ Ha].
      now apply String.eqb_eq in Ha.
Qed.

(** ** The alerts of a strategy, in order *)

Lemma floating_loss_check_well_formed {D : FloatArith} s d day_positions t :
  Forall well_formed_alert (floating_loss_check s d day_positions t).
Proof.
  unfold floating_loss_check. cbv zeta.
  destruct (is_empty _); [constructor|].
  destruct (Qltb _ 0); [|constructor].
  constructor; [|constructor]. split; [now left|]. simpl.
  unfold floating_loss_severity.
  destruct (Qltb (fl_round 0.05) _); [now left|].
  destruct (Qltb (fl_round 0.02) _); [right; now left | right; right; now left].
Qed.

Lemma counter_trend_check_well_formed {D : FloatArith} s price_history t :
  Forall well_formed_alert (counter_trend_check s price_history t).
Proof.
  unfold counter_trend_check. cbv zeta.
  destruct (negb _); [constructor|].
  destruct (dict_get _ price_history) as [by_date|]; [|constructor].
  destruct (dict_get _ by_date) as [info|]; [|constructor].
  match goal with
  | |- Forall _ (if ?c then _ else _) => destruct c; [|constructor]
  end.
  constructor; [|constructor]. split; [now right|]. simpl.
  unfold counter_trend_severity.
  destruct (Qltb (fl_round 0.03) _); [now left|].
  destruct (Qltb (fl_round 0.015) _);
    [right; now left | right; right; now left].
Qed.

Lemma all_alerts_well_formed {D : FloatArith} positions trades equity_data :
  Forall well_formed_alert (all_alerts positions trades equity_data).
Proof.
  unfold all_alerts. apply Forall_app. split.
  - unfold detect_floating_loss_add.
    destruct (is_empty positions || is_empty trades); [constructor|].
    cbv zeta. apply Forall_flat_map, Forall_forall. intros s _.
    apply Forall_flat_map, Forall_forall. intros d _.
    match goal with
    | |- Forall _ (if ?c then _ else _) => destruct c; [constructor|]
    end.
    apply Forall_flat_map, Forall_forall. intros t _.
    apply floating_loss_check_well_formed.
  - unfold detect_counter_trend_add.
    destruct (is_empty positions || is_empty trades); [constructor|].
    apply Forall_flat_map, Forall_forall. intros s _. cbv zeta.
    apply Forall_flat_map, Forall_forall. intros t _.
    apply counter_trend_check_well_formed.
Qed.

Lemma well_formed_rank a :
  well_formed_alert a -> (severity_rank (BehaviorAlert.severity a) < 3)%nat.
Proof.
  intros [_ H]. simpl in H.
  destruct H as [<- | [<- | [<- | []]]]; vm_compute; lia.
Qed.

Lemma key_ltb_false_iff k1 k2 :
  key_ltb k1 k2 = false
  <-> String.ltb (fst k2) (fst k1) = true
      \/ (fst k1 = fst k2 /\ (snd k2 <= snd k1)%nat).
Proof.
  unfold key_ltb. split.
  - intros H. apply orb_false_iff in H as [H1 H2].
    destruct (ltb_false_cases _ _ H1) as [E | E]; [|now left].
    right. split; [now symmetry|].
    rewrite <- E, String.eqb_refl in H2. simpl in H2.
    now apply Nat.ltb_ge in H2.
  - intros [H | [E Hle]].
    + rewrite (ltb_asym _ _ H). simpl.
      destruct (String.eqb (fst k1) (fst k2)) eqn:E; [|reflexivity].
      apply String.eqb_eq in E. rewrite E, ltb_irrefl in H. discriminate.
    + rewrite E, ltb_irrefl, String.eqb_refl. simpl. now apply Nat.ltb_ge.
Qed.

Lemma key_ltb_irrefl k : key_ltb k k = false.
Proof. apply key_ltb_false_iff. right. split; [reflexivity | lia]. Qed.

Lemma key_ltb_asym k1 k2 : key_ltb k1 k2 = true -> key_ltb k2 k1 = false.
Proof.
  intros H. apply key_ltb_false_iff.
  destruct (key_ltb k2 k1) eqn:H'; [|now apply key_ltb_false_iff].
  exfalso. unfold key_ltb in H, H'.
  apply orb_true_iff in H as [H | H], H' as [H' | H'].
  - rewrite (ltb_asym _ _ H) in H'. discriminate.
  - apply andb_true_iff in H' as [E _]. apply String.eqb_eq in E.
    rewrite E, ltb_irrefl in H. discriminate.
  - apply andb_true_iff in H as [E _]. apply String.eqb_eq in E.
    rewrite E, ltb_irrefl in H'. discriminate.
  - apply andb_true_iff in H as [_ H], H' as [_ H'].
    apply Nat.ltb_lt in H, H'. lia.
Qed.

Lemma key_ltb_not_trans k1 k2 k3 :
  key_ltb k1 k2 = false -> key_ltb k2 k3 = false -> key_ltb k1 k3 = false.
Proof.
  rewrite !key_ltb_false_iff.
  intros [H1 | [E1 L1]] [H2 | [E2 L2]].
  - left. now apply ltb_trans with (fst k2).
  - left. now rewrite <- E2.
  - left. now rewrite E1.
  - right. split; [congruence | lia].
Qed.

Lemma sort_alerts_sorted l : StronglySorted alert_precedes (sort_alerts l).
Proof.
  unfold sort_alerts.
  eapply StronglySorted_impl;
    [|apply (stable_sort_sorted _ (fun _ => True))].
  - cbv beta. intros a b H. apply key_ltb_false_iff in H. unfold alert_precedes.
    simpl in H. destruct H as [H | [E Hle]].
    + split; [now apply ltb_asym|]. intros E.
      rewrite E, ltb_irrefl in H. discriminate.
    + split; [rewrite E; apply ltb_irrefl | intros _; exact Hle].
  - intros a b _ _. apply key_ltb_asym.
  - intros a b c _ _ _. apply key_ltb_not_trans.
  - apply Forall_forall. auto.
Qed.

Lemma sort_alerts_stable d severity l :
  filter (same_key d severity) (sort_alerts l) = filter (same_key d severity) l.
Proof.
  unfold sort_alerts. apply stable_sort_filter.
  intros x y Hx Hlt. destruct (same_key d severity y) eqn:Hy; [|reflexivity].
  unfold same_key in Hx, Hy.
  apply andb_true_iff in Hx as [Dx Sx], Hy as [Dy Sy].
  apply String.eqb_eq in Dx, Sx, Dy, Sy.
  unfold alert_key in Hlt. rewrite Dx, Sx, Dy, Sy, key_ltb_irrefl in Hlt.
  discriminate.
Qed.

(** X15: in each list that [detect_all] returns, no alert is dated
    before a later one of the list (the latest trading day comes first)
    and, among the alerts of one trading day, none ranks before a later
    one in [severity_order] (low comes before medium, medium before
    high); alerts of the same day and severity keep the order of
    detection.  Every alert is of one of the two types and carries one
    of the three severities, so the default rank 3 is never used. *)
Theorem detect_all_alert_order {D : FloatArith} (positions : list Position.t)
  (trades : list Trade.t) (equity_data : list DailyEquity.t) :
  Forall (fun kv =>
            StronglySorted alert_precedes (snd kv)
            /\ Forall well_formed_alert (snd kv)
            /\ Forall (fun a =>
                         (severity_rank (BehaviorAlert.severity a) < 3)%nat)
                 (snd kv)
            /\ (forall d severity,
                  filter (same_key d severity) (snd kv)
                  = filter (same_key d severity)
                      (filter (of_strategy (fst kv))
                         (all_alerts positions trades equity_data))))
    (detect_all positions trades equity_data).
Proof.
  rewrite detect_all_tabulated. apply Forall_map, Forall_forall.
  intros k _. cbn [fst snd].
  assert (Hwf : Forall well_formed_alert
                  (sort_alerts
                     (filter (of_strategy k)
                        (all_alerts positions trades equity_data)))).
  { apply (Permutation_Forall (stable_sort_perm _ _)).
    apply Forall_forall. intros a Ha. apply filter_In in Ha as [Ha _].
    pose proof (all_alerts_well_formed positions trades equity_data) as H.
    rewrite Forall_forall in H. now apply H. }
  split; [apply sort_alerts_sorted|]. split; [exact Hwf|]. split.
  - eapply Forall_impl; [|exact Hwf]. apply well_formed_rank.
  - intros d severity. apply sort_alerts_stable.
Qed.

(** ** The summary of a strategy's alerts *)

Lemma dict_set_fresh {V : Type} k (v : V) d :
  ~ In k (map fst d) -> dict_set k v d = d ++ [(k, v)].
Proof.
  induction d as [|[k' v'] d IH]; simpl; intros H; [reflexivity|].
  destruct (String.eqb k' k) eqn:E.
  - apply String.eqb_eq in E. exfalso. apply H. now left.
  - rewrite IH; [reflexivity|]. intros Hin. apply H. now right.
Qed.

Lemma fold_dict_set_fresh {V W : Type} (g : string * V -> W)
  (l : list (string * V)) (acc : dict W) :
  NoDup (map fst l) ->
  (forall k, In k (map fst l) -> ~ In k (map fst acc)) ->
  fold_left (fun d kv => dict_set (fst kv) (g kv) d) l acc
  = acc ++ map (fun kv => (fst kv, g kv)) l.
Proof.
  revert acc. induction l as [|kv l IH]; intros acc Hnd Hfresh; simpl.
  - now rewrite app_nil_r.
  - inversion Hnd as [|? ? Hk Hnd']; subst.
    rewrite dict_set_fresh by (apply Hfresh; now left).
    rewrite IH; [now rewrite <- app_assoc|exact Hnd'|].
    intros k Hin. rewrite map_app, in_app_iff. simpl.
    intros [H | [H | []]].
    + apply (Hfresh k); [now right | exact H].
    + subst k. contradiction.
Qed.

Lemma detect_all_keys_NoDup {D : FloatArith} positions trades equity_data :
  NoDup (map fst (detect_all positions trades equity_data)).
Proof.
  rewrite detect_all_tabulated, map_map. simpl. rewrite map_id.
  apply unique_NoDup.
Qed.

Lemma detect_all_entries {D : FloatArith} positions trades equity_data :
  Forall (fun kv => snd kv <> [] /\ Forall well_formed_alert (snd kv))
    (detect_all positions trades equity_data).
Proof.
  rewrite detect_all_tabulated. apply Forall_map, Forall_forall.
  intros k Hk. cbn [snd].
  set (l := filter (of_strategy k) (all_alerts positions trades equity_data)).
  assert (Hp : Permutation l (sort_alerts l)) by apply stable_sort_perm.
  split.
  - apply (proj1 (unique_In _ _)), in_map_iff in Hk as (a & Ea & Ha).
    assert (Hin : In a l).
    { apply filter_In. split; [exact Ha|]. unfold of_strategy.
      rewrite Ea. apply String.eqb_refl. }
    intros Hnil. rewrite Hnil in Hp.
    apply Permutation_sym, Permutation_nil in Hp. rewrite Hp in Hin.
    contradiction.
  - apply (Permutation_Forall Hp). apply Forall_forall. intros a Ha.
    apply filter_In in Ha as [Ha _].
    pose proof (all_alerts_well_formed positions trades equity_data) as H.
    rewrite Forall_forall in H. now apply H.
Qed.

Lemma Forall2_diag {A : Type} (R : A -> A -> Prop) (l : list A) :
  Forall (fun a => R a a) l -> Forall2 R l l.
Proof. induction 1; constructor; auto. Qed.

Lemma count_two_types l :
  Forall well_formed_alert l ->
  length l
  = (length (filter (fun a => String.eqb (BehaviorAlert.alert_type a)
                                "floating_loss_add") l)
     + length (filter (fun a => String.eqb (BehaviorAlert.alert_type a)
                                  "counter_trend_add") l))%nat.
Proof.
  induction 1 as [|a l [[E | E] _] _ IH]; simpl; [reflexivity| |];
    rewrite E; simpl; lia.
Qed.

(** X16: [get_behavior_summary] has an entry for each strategy of
    [detect_all], in the same order.  In each entry the total number of
    alerts is at least one and is the sum of the floating-loss and the
    counter-trend counts; the high-severity count is at most the total;
    the behaviour risk score lies between 3 and 100 and is 100 from ten
    high-severity alerts on; and [recent_alerts] are the first five
    alerts of the strategy's list, or all of them when there are fewer. *)
Theorem behavior_summary_counts {D : FloatArith} (positions : list Position.t)
  (trades : list Trade.t) (equity_data : list DailyEquity.t) :
  Forall2 (fun kv ks =>
             let alerts := snd kv in
             let s := snd ks in
             fst ks = fst kv
             /\ BehaviorSummary.total_alerts s = length alerts
             /\ BehaviorSummary.total_alerts s
                = (BehaviorSummary.floating_loss_add_count s
                   + BehaviorSummary.counter_trend_add_count s)%nat
             /\ (1 <= BehaviorSummary.total_alerts s)%nat
             /\ (BehaviorSummary.high_severity_count s
                 <= BehaviorSummary.total_alerts s)%nat
             /\ (3 <= BehaviorSummary.behavior_risk_score s <= 100)%nat
             /\ ((10 <= BehaviorSummary.high_severity_count s)%nat ->
                 BehaviorSummary.behavior_risk_score s = 100%nat)
             /\ BehaviorSummary.recent_alerts s = firstn 5 alerts
             /\ length (BehaviorSummary.recent_alerts s)
                = Nat.min 5 (BehaviorSummary.total_alerts s))
    (detect_all positions trades equity_data)
    (get_behavior_summary positions trades equity_data).
Proof.
  unfold get_behavior_summary. cbv zeta.
  match goal with
  | |- Forall2 _ _ (fold_left (fun summary kv => dict_set (fst kv) (@?g kv) summary) _ _) =>
      rewrite (fold_dict_set_fresh g)
  end; [| apply detect_all_keys_NoDup | intros k _ []].
  cbn [app]. apply Forall2_map_r, Forall2_diag.
  eapply Forall_impl; [|apply detect_all_entries].
  intros [k alerts] [Hne Hwf].
  cbn [fst snd BehaviorSummary.total_alerts
       BehaviorSummary.floating_loss_add_count
       BehaviorSummary.counter_trend_add_count
       BehaviorSummary.high_severity_count
       BehaviorSummary.behavior_risk_score BehaviorSummary.recent_alerts] in *.
  pose proof (count_two_types alerts Hwf) as Hsum.
  pose proof (filter_length_le
                (fun a => String.eqb (BehaviorAlert.severity a) "high") alerts)
    as Hhigh.
  assert (Hpos : (1 <= length alerts)%nat).
  { destruct alerts; [contradiction | cbn [length]; lia]. }
  unfold alert_to_dict. rewrite map_id.
  repeat split; try assumption; try lia.
  apply length_firstn.
Qed.

(** ** Uploading in batches *)

Lemma range_from_slices {A : Type} (l : list A) step fuel i :
  (0 < step)%nat -> (length l <= fuel + i)%nat ->
  concat (map (fun i => py_slice l i (i + step))
            (range_from fuel i (length l) step))
  = skipn i l.
Proof.
  intros Hstep. revert i. induction fuel as [|fuel IH]; intros i Hfuel; simpl.
  - symmetry. apply skipn_all2. lia.
  - destruct (i <? length l)%nat eqn:E.
    + simpl. rewrite IH by lia. unfold py_slice.
      replace (i + step - i)%nat with step by lia.
      rewrite Nat.add_comm, <- skipn_skipn. apply firstn_skipn.
    + apply Nat.ltb_ge in E. symmetry. now apply skipn_all2.
Qed.

Lemma range_from_below fuel i stop step :
  Forall (fun j => (j < stop)%nat) (range_from fuel i stop step).
Proof.
  revert i. induction fuel as [|fuel IH]; intros i; simpl; [constructor|].
  destruct (i <? stop)%nat eqn:E; [|constructor].
  constructor; [now apply Nat.ltb_lt | apply IH].
Qed.

Lemma py_slice_length {A : Type} (l : list A) i step :
  (0 < step)%nat -> (i < length l)%nat ->
  (1 <= length (py_slice l i (i + step)) <= step)%nat.
Proof.
  intros Hstep Hi. unfold py_slice. rewrite length_firstn, length_skipn. lia.
Qed.

Lemma upload_fold_complement {A : Type} (execute : nat -> list A -> bool)
  (records : list A) idxs acc acc' :
  (fold_left (fun uploaded i =>
      if execute i (py_slice records i (i + batch_size))
      then uploaded + length (py_slice records i (i + batch_size))
      else uploaded) idxs acc
   + fold_left (fun uploaded i =>
      if negb (execute i (py_slice records i (i + batch_size)))
      then uploaded + length (py_slice records i (i + batch_size))
      else uploaded) idxs acc'
   = acc + acc'
     + length (concat (map (fun i => py_slice records i (i + batch_size)) idxs)))%nat.
Proof.
  revert acc acc'. induction idxs as [|i idxs IH]; intros acc acc'; simpl.
  - lia.
  - rewrite IH, length_app.
    destruct (execute i (py_slice records i (i + batch_size))); simpl; lia.
Qed.

Lemma upload_fold_none {A : Type} (execute : nat -> list A -> bool)
  (records : list A) idxs acc :
  (forall i b, execute i b = false) ->
  fold_left (fun uploaded i =>
      if execute i (py_slice records i (i + batch_size))
      then (uploaded + length (py_slice records i (i + batch_size)))%nat
      else uploaded) idxs acc
  = acc.
Proof.
  intros H. revert acc. induction idxs as [|i idxs IH]; intros acc; simpl;
    [reflexivity|].
  now rewrite H, IH.
Qed.

(** X17: the batches of an upload are the records cut into consecutive
    runs of at most 100: put together they give back the records, in
    order, and no batch is empty.  The number returned is the number of
    records in the batches that went through: with the number of
    records in the batches that failed it makes up the number of
    records; it is that number when every request goes through and zero
    when none does. *)
Theorem upload_batches_partition {A : Type} (execute : nat -> list A -> bool)
  (records : list A) :
  let batches :=
    map (fun i => py_slice records i (i + batch_size))
      (py_range 0 (length records) batch_size) in
  concat batches = records
  /\ Forall (fun b => (1 <= length b <= batch_size)%nat) batches
  /\ (upload_batches execute records
      + upload_batches (fun i b => negb (execute i b)) records
      = length records)%nat
  /\ ((forall i b, execute i b = true) ->
      upload_batches execute records = length records)
  /\ ((forall i b, execute i b = false) ->
      upload_batches execute records = 0%nat).
Proof.
  cbv zeta.
  assert (Hstep : (0 < batch_size)%nat) by (unfold batch_size; lia).
  assert (Hcat : concat (map (fun i => py_slice records i (i + batch_size))
                           (py_range 0 (length records) batch_size))
                 = records).
  { unfold py_range. rewrite range_from_slices by lia. reflexivity. }
  pose proof (upload_fold_complement execute records
                (py_range 0 (length records) batch_size) 0 0) as Hsum.
  rewrite Hcat in Hsum. simpl in Hsum.
  split; [exact Hcat|]. split; [|split; [exact Hsum|split]].
  - apply Forall_map. unfold py_range.
    eapply Forall_impl; [|apply range_from_below].
    intros i Hi. now apply py_slice_length.
  - intros Hall. unfold upload_batches in *. cbv zeta.
    rewrite (upload_fold_none (fun i b => negb (execute i b))) in Hsum.
    + lia.
    + intros i b. now rewrite Hall.
  - intros Hnone. unfold upload_batches. cbv zeta.
    now apply upload_fold_none.
Qed.

(** ** The records of [upload_daily_metrics] *)

Lemma calculate_daily_metrics_absent {K : ContractRoot}
  equity_row positions trades :
  pf_leb (DailyEquity.equity equity_row) (Fin 0) = true ->
  calculate_daily_metrics equity_row positions trades = Return None.
Proof. intros H. unfold calculate_daily_metrics. now rewrite H. Qed.

Lemma upload_batches_le {A : Type} (execute : nat -> list A -> bool)
  (records : list A) :
  (upload_batches execute records <= length records)%nat.
Proof.
  pose proof (upload_fold_complement execute records
                (py_range 0 (length records) batch_size) 0 0) as Hsum.
  unfold py_range in Hsum at 3.
  rewrite range_from_slices in Hsum by (unfold batch_size; lia).
  unfold upload_batches. cbv zeta. simpl in Hsum. lia.
Qed.

Lemma daily_metrics_records_loop {K : ContractRoot}
  strategy_id_map positions trades df acc :
  exists records,
    fold_left (fun acc row =>
      records <- acc ;;
      match strategy_id_of strategy_id_map (DailyEquity.strategy_code row) with
      | None => Return records
      | Some strategy_id =>
          daily <- calculate_daily_metrics row positions trades ;;
          match daily with
          | Some metrics =>
              let dm := daily_metrics_to_dict metrics in
              Return (records ++ [(strategy_id, dm)])
          | None => Return records
          end
      end) df (Return acc)
    = Return (acc ++ records)
    /\ Forall2 (fun row r =>
                  strategy_id_of strategy_id_map (DailyEquity.strategy_code row)
                  = Some (fst r)
                  /\ pf_leb (DailyEquity.equity row) (Fin 0) = false
                  /\ calculate_daily_metrics row positions trades
                     = Return (Some (snd r)))
         (filter (measured strategy_id_map) df) records.
Proof.
  revert acc. induction df as [|row df IH]; intros acc.
  - exists []. split; [simpl; now rewrite app_nil_r | constructor].
  - cbn [fold_left bind filter]. unfold measured at 1.
    destruct (strategy_id_of strategy_id_map (DailyEquity.strategy_code row))
      as [strategy_id|] eqn:Eid.
    + destruct (pf_leb (DailyEquity.equity row) (Fin 0)) eqn:Ele.
      * rewrite (calculate_daily_metrics_absent _ _ _ Ele). cbn [bind negb].
        apply IH.
      * destruct (calculate_daily_metrics_returns row positions trades Ele)
          as (m & Hm & _).
        rewrite Hm. cbn [bind negb].
        destruct (IH (acc ++ [(strategy_id, m)])) as (records & Hr & H2).
        exists ((strategy_id, m) :: records). split.
        -- rewrite <- app_assoc in Hr. exact Hr.
        -- constructor; [|exact H2]. repeat split; assumption.
    + apply IH.
Qed.

Lemma position_fields_by_day {K : ContractRoot} row positions trades m :
  pf_leb (DailyEquity.equity row) (Fin 0) = false ->
  calculate_daily_metrics row positions trades = Return (Some m) ->
  DailyMetrics.strategy_code m = DailyEquity.strategy_code row
  /\ DailyMetrics.trade_date m = DailyEquity.trade_date row
  /\ position_fields m
     = (let st := exposure_loop (DailyMetrics.trade_date m) positions in
        let day_trades := filter (traded_on (DailyMetrics.trade_date m)) trades in
        (py_round (long_exposure st) 2, py_round (short_exposure st) 2,
         py_round (long_exposure st + short_exposure st) 2,
         py_round (top1_ratio st) 4, py_round (top3_ratio st) 4,
         length (position_values st), length day_trades,
         py_round (Qsum (map Trade.amount day_trades)) 2)).
Proof.
  intros Hle Hm.
  destruct (calculate_daily_metrics_returns row positions trades Hle)
    as (m' & Hm' & Hs & Hd & Hl & Hsh & Ht & H1 & H3 & Hc & Htc & Hto).
  rewrite Hm in Hm'. injection Hm' as <-.
  split; [exact Hs|]. split; [exact Hd|].
  unfold position_fields. cbv zeta in *. rewrite Hd.
  rewrite Hl, Hsh, Ht, H1, H3, Hc, Htc, Hto. reflexivity.
Qed.

(** X18: [upload_daily_metrics] does not raise.  It builds one record
    for each equity row whose strategy has an id and whose equity is
    not zero or less, in the order of the rows, from the row and the
    positions and trades of every strategy; so two records of the same
    trading day carry the same exposures, concentrations, position and
    trade counts and turnover, whatever their strategies.  The number
    returned is at most the number of those rows. *)
Theorem upload_daily_metrics_records {K : ContractRoot}
  (strategy_id_map : dict string)
  (execute : nat -> list (string * DailyMetrics.t) -> bool)
  (equity_df : list DailyEquity.t) (positions_list : list Position.t)
  (trades_list : list Trade.t) :
  exists records,
    daily_metrics_records strategy_id_map equity_df positions_list trades_list
    = Return records
    /\ upload_daily_metrics strategy_id_map execute equity_df positions_list
         trades_list
       = Return (upload_batches execute records)
    /\ (upload_batches execute records
        <= length (filter (measured strategy_id_map) equity_df))%nat
    /\ Forall2 (fun row r =>
                  strategy_id_of strategy_id_map (DailyEquity.strategy_code row)
                  = Some (fst r)
                  /\ calculate_daily_metrics row positions_list trades_list
                     = Return (Some (snd r))
                  /\ DailyMetrics.strategy_code (snd r)
                     = DailyEquity.strategy_code row
                  /\ DailyMetrics.trade_date (snd r) = DailyEquity.trade_date row)
         (filter (measured strategy_id_map) equity_df) records
    /\ (forall r1 r2, In r1 records -> In r2 records ->
          DailyMetrics.trade_date (snd r1) = DailyMetrics.trade_date (snd r2) ->
          position_fields (snd r1) = position_fields (snd r2)).
Proof.
  destruct (daily_metrics_records_loop strategy_id_map positions_list
              trades_list equity_df []) as (records & Hr & H2).
  assert (Hrec : daily_metrics_records strategy_id_map equity_df
                   positions_list trades_list = Return records) by exact Hr.
  exists records. unfold upload_daily_metrics. rewrite Hrec. cbn [bind].
  split; [reflexivity|]. split; [reflexivity|]. split; [|split].
  - rewrite (Forall2_length H2). apply upload_batches_le.
  - eapply Forall2_impl; [|exact H2]. cbv beta.
    intros row r (Hid & Hle & Hm).
    destruct (position_fields_by_day _ _ _ _ Hle Hm) as (Hs & Hd & _).
    repeat split; assumption.
  - assert (Hfields : forall r, In r records ->
      position_fields (snd r)
      = (let st := exposure_loop (DailyMetrics.trade_date (snd r))
                     positions_list in
         let day_trades :=
           filter (traded_on (DailyMetrics.trade_date (snd r))) trades_list in
         (py_round (long_exposure st) 2, py_round (short_exposure st) 2,
          py_round (long_exposure st + short_exposure st) 2,
          py_round (top1_ratio st) 4, py_round (top3_ratio st) 4,
          length (position_values st), length day_trades,
          py_round (Qsum (map Trade.amount day_trades)) 2))).
    { clear - H2. induction H2 as [|row r rows records (Hid & Hle & Hm) _ IH];
        intros r' Hin; [destruct Hin|].
      destruct Hin as [<- | Hin]; [|now apply IH].
      now destruct (position_fields_by_day _ _ _ _ Hle Hm) as (_ & _ & H). }
    intros r1 r2 H1 H2' E.
    rewrite (Hfields r1 H1), (Hfields r2 H2'), E. reflexivity.
Qed.

(** ** The ranking of [upload_strategy_scores] *)

Lemma calculate_performance_short {O : SortValues}
  {S : Sqrt} self equity_df strategy_code :
  (length equity_df < 2)%nat ->
  calculate_performance self equity_df strategy_code = Return None.
Proof.
  intros H. unfold calculate_performance.
  now rewrite (proj2 (Nat.ltb_lt _ _) H).
Qed.

Lemma calculate_performance_scored {O : SortValues}
  {S : Sqrt} self equity_df strategy_code :
  (2 <= length equity_df)%nat ->
  exists result,
    calculate_performance self equity_df strategy_code = Return (Some result)
    /\ PerformanceMetrics.strategy_code result = strategy_code
    /\ positive_side (PerformanceMetrics.total_score result).
Proof.
  intros Hlen. performance_body Hlen.
  set (out := calculate_daily_returns equity_df).
  pose proof (max_drawdown_not_negative equity_df) as Hdd. fold out in Hdd.
  destruct (win_rate_between (Returns.daily_return out)) as (w & Hw & Hwb).
  cbv zeta in Hw. rewrite Hw.
  match goal with
  | |- context [_calculate_performance_score ?a ?b ?c ?d] =>
      destruct (performance_score_between a b c d w Hdd eq_refl Hwb)
        as (p & -> & Hp)
  end.
  eexists. split; [reflexivity|].
  cbn [PerformanceMetrics.strategy_code PerformanceMetrics.total_score].
  split; [reflexivity|].
  apply pf_round_positive_side, pf_add_positive_side.
  - right. exists (p * 0.5). split; [reflexivity | lra].
  - apply pf_mul_half_positive_side, risk_score_positive_side.
Qed.

Lemma strategy_score_entries_loop {O : SortValues}
  {S : Sqrt} strategy_id_map equity_df codes acc :
  exists records,
    fold_left (fun acc strategy_code =>
      records <- acc ;;
      match strategy_id_of strategy_id_map strategy_code with
      | None => Return records
      | Some strategy_id =>
          let strategy_equity :=
            filter (fun row =>
                      String.eqb (DailyEquity.strategy_code row) strategy_code)
              equity_df in
          perf <-
            calculate_performance MetricsCalculator_default strategy_equity
              strategy_code ;;
          match perf with
          | Some metrics =>
              let pm := performance_to_dict metrics in
              Return (records ++ [(strategy_id, pm)])
          | None => Return records
          end
      end) codes (Return acc)
    = Return (acc ++ records)
    /\ Forall2 (fun code r =>
                  strategy_id_of strategy_id_map code = Some (fst r)
                  /\ PerformanceMetrics.strategy_code (snd r) = code
                  /\ positive_side (PerformanceMetrics.total_score (snd r)))
         (filter (scored strategy_id_map equity_df) codes) records.
Proof.
  revert acc. induction codes as [|code codes IH]; intros acc.
  - exists []. split; [simpl; now rewrite app_nil_r | constructor].
  - cbn [fold_left bind filter]. unfold scored at 1.
    destruct (strategy_id_of strategy_id_map code) as [strategy_id|] eqn:Eid;
      [|apply IH].
    cbv zeta.
    destruct (2 <=? length (filter (fun row =>
                String.eqb (DailyEquity.strategy_code row) code) equity_df))%nat
      eqn:Elen.
    + apply Nat.leb_le in Elen.
      destruct (calculate_performance_scored MetricsCalculator_default _ code
                  Elen) as (result & Hres & Hcode & Htotal).
      rewrite Hres. cbn [bind].
      destruct (IH (acc ++ [(strategy_id, result)])) as (records & Hr & H2).
      exists ((strategy_id, result) :: records). split.
      * rewrite <- app_assoc in Hr. exact Hr.
      * constructor; [|exact H2]. repeat split; assumption.
    + apply Nat.leb_gt in Elen.
      rewrite (calculate_performance_short _ _ code Elen). cbn [bind].
      apply IH.
Qed.

Lemma pf_ltb_asym x y : pf_ltb x y = true -> pf_ltb y x = false.
Proof.
  destruct x as [a | | |], y as [b | | |]; simpl; try congruence.
  intros H. apply Qltb_lt in H. apply Qltb_ge. lra.
Qed.

Lemma pf_ltb_not_trans x y z :
  x <> NaN -> y <> NaN -> z <> NaN ->
  pf_ltb y x = false -> pf_ltb z y = false -> pf_ltb z x = false.
Proof.
  destruct x as [a | | |], y as [b | | |], z as [c | | |]; simpl;
    try congruence.
  intros _ _ _ H1 H2. apply Qltb_ge in H1, H2. apply Qltb_ge. lra.
Qed.

Lemma enumerate_fst {A : Type} (l : list A) s :
  map (fun ir => (fst ir + 1)%nat) (combine (seq s (length l)) l)
  = seq (S s) (length l).
Proof.
  revert s. induction l as [|a l IH]; intros s; simpl; [reflexivity|].
  rewrite IH. f_equal. lia.
Qed.

Lemma enumerate_snd {A : Type} (l : list A) s :
  map snd (combine (seq s (length l)) l) = l.
Proof.
  revert s. induction l as [|a l IH]; intros s; simpl; [reflexivity|].
  now rewrite IH.
Qed.

Lemma StronglySorted_combine {A B : Type} (R : B -> B -> Prop)
  (l1 : list A) (l2 : list B) :
  StronglySorted R l2 ->
  StronglySorted (fun x y => R (snd x) (snd y)) (combine l1 l2).
Proof.
  intros H. revert l1. induction H as [|b l2 Hs IH Hb]; intros l1.
  - destruct l1; constructor.
  - destruct l1 as [|a l1]; simpl; constructor; [apply IH|].
    apply Forall_forall. intros [a' b'] Hin. apply in_combine_r in Hin.
    rewrite Forall_forall in Hb. now apply Hb.
Qed.

(** X19: on a frame with at least one record [upload_strategy_scores]
    does not raise.  Its records are one for each strategy that has an
    id and at least two equity records;
    they are ranked 1, 2, ... in the order in which they are sent, and
    no record has a lower total score than a later one: rank 1 is the
    highest total score.  No total score is NaN or negative, so the
    order is well defined. *)
Theorem strategy_scores_ranked {O : SortValues}
  {S : Sqrt} (strategy_id_map : dict string)
  (execute : list StrategyScore.t -> bool) (equity_df : list DailyEquity.t) :
  equity_df <> [] ->
  exists records,
    strategy_score_records strategy_id_map equity_df = Return records
    /\ upload_strategy_scores strategy_id_map execute equity_df
       = Return (if execute records then length records else 0%nat)
    /\ map StrategyScore.rank records = seq 1 (length records)
    /\ StronglySorted
         (fun a b =>
            pf_ltb (PerformanceMetrics.total_score (StrategyScore.metrics a))
              (PerformanceMetrics.total_score (StrategyScore.metrics b))
            = false)
         records
    /\ Forall (fun r =>
                 positive_side
                   (PerformanceMetrics.total_score (StrategyScore.metrics r))
                 /\ strategy_id_of strategy_id_map
                      (PerformanceMetrics.strategy_code (StrategyScore.metrics r))
                    = Some (StrategyScore.strategy_id r))
         records
    /\ Permutation
         (map (fun r => PerformanceMetrics.strategy_code (StrategyScore.metrics r))
            records)
         (filter (scored strategy_id_map equity_df)
            (unique (map DailyEquity.strategy_code equity_df))).
Proof.
  intros _.
  destruct (strategy_score_entries_loop strategy_id_map equity_df
              (unique (map DailyEquity.strategy_code equity_df)) [])
    as (entries & He & H2).
  assert (Hent : strategy_score_entries strategy_id_map equity_df
                 = Return entries) by exact He.
  set (before := fun a b : string * PerformanceMetrics.t =>
         pf_ltb (PerformanceMetrics.total_score (snd b))
           (PerformanceMetrics.total_score (snd a))).
  set (sorted := stable_sort before entries).
  assert (Hperm : Permutation entries sorted) by apply stable_sort_perm.
  assert (Hgood : Forall (fun r =>
                    positive_side (PerformanceMetrics.total_score (snd r))
                    /\ strategy_id_of strategy_id_map
                         (PerformanceMetrics.strategy_code (snd r))
                       = Some (fst r)) entries).
  { clear - H2. induction H2 as [|code r codes entries (Hid & Hc & Ht) _ IH];
      constructor; [|exact IH]. rewrite Hc. split; assumption. }
  assert (Hcodes : map (fun r => PerformanceMetrics.strategy_code (snd r)) entries
                   = filter (scored strategy_id_map equity_df)
                       (unique (map DailyEquity.strategy_code equity_df))).
  { clear - H2. induction H2 as [|code r codes entries (Hid & Hc & Ht) _ IH];
      simpl; [reflexivity|]. now rewrite Hc, IH. }
  assert (Hsorted : StronglySorted (fun a b => before b a = false) sorted).
  { apply (stable_sort_sorted before
             (fun r => PerformanceMetrics.total_score (snd r) <> NaN)).
    - intros a b _ _. apply pf_ltb_asym.
    - intros a b c Ha Hb Hc Hab Hbc. unfold before in *.
      exact (pf_ltb_not_trans _ _ _ Hc Hb Ha Hbc Hab).
    - eapply Forall_impl; [|exact Hgood]. cbv beta.
      intros r [[E | (q & E & _)] _]; rewrite E; discriminate. }
  exists (map (fun ir => StrategyScore.mk (fst (snd ir)) (snd (snd ir))
                           (fst ir + 1))
            (enumerate sorted)).
  assert (Hrec : strategy_score_records strategy_id_map equity_df
                 = Return (map (fun ir => StrategyScore.mk (fst (snd ir))
                                            (snd (snd ir)) (fst ir + 1))
                             (enumerate sorted))).
  { unfold strategy_score_records. rewrite Hent. reflexivity. }
  split; [exact Hrec|].
  split; [unfold upload_strategy_scores; rewrite Hrec; reflexivity|].
  unfold enumerate.
  assert (Hmetrics : forall {B : Type} (f : string * PerformanceMetrics.t -> B),
    map (fun r => f (StrategyScore.strategy_id r, StrategyScore.metrics r))
      (map (fun ir => StrategyScore.mk (fst (snd ir)) (snd (snd ir))
                        (fst ir + 1))
         (combine (seq 0 (length sorted)) sorted))
    = map f sorted).
  { intros B f. rewrite map_map. cbn [StrategyScore.strategy_id
      StrategyScore.metrics].
    transitivity (map f (map snd (combine (seq 0 (length sorted)) sorted)));
      [|now rewrite enumerate_snd].
    rewrite map_map. apply map_ext. intros [i [id m]]. reflexivity. }
  split; [|split; [|split]].
  - rewrite map_map. cbn [StrategyScore.rank].
    rewrite length_map, length_combine, length_seq, Nat.min_id.
    apply enumerate_fst.
  - apply StronglySorted_map. cbn [StrategyScore.metrics].
    apply (StronglySorted_combine
             (fun a b : string * PerformanceMetrics.t =>
                pf_ltb (PerformanceMetrics.total_score (snd a))
                  (PerformanceMetrics.total_score (snd b)) = false)).
    exact Hsorted.
  - apply Forall_forall. intros r Hr.
    apply (in_map (fun r => (StrategyScore.strategy_id r, StrategyScore.metrics r)))
      in Hr.
    rewrite (Hmetrics _ (fun x => x)), map_id in Hr.
    apply (Permutation_in _ (Permutation_sym Hperm)) in Hr.
    rewrite Forall_forall in Hgood. exact (Hgood _ Hr).
  - pose proof (Hmetrics _ (fun r => PerformanceMetrics.strategy_code (snd r)))
      as Hm.
    cbv beta in Hm. cbn [snd] in Hm. rewrite Hm, <- Hcodes. apply Permutation_map, Permutation_sym, Hperm.
Qed.

(** The theorem at [steady_equity], for a strategy with an id. *)
Lemma strategy_scores_ranked_witness :
  exists records,
    strategy_score_records (O:=stable_sort_values) (S:=sqrt_micro)
        [("s1", "7")] steady_equity
    = Return records
    /\ map StrategyScore.rank records = seq 1 (length records).
Proof.
  destruct (strategy_scores_ranked (O:=stable_sort_values) (S:=sqrt_micro)
      [("s1", "7")] (fun _ => true)
              steady_equity) as (records & Hr & _ & Hk & _).
  - discriminate.
  - exists records. split; [exact Hr | exact Hk].
Defined.

(** ** The risk rows of [export_data] *)

Lemma filter_head_find {A : Type} (f : A -> bool) (l : list A) :
  find f l = hd_error (filter f l).
Proof.
  induction l as [|x l IH]; simpl; [reflexivity|].
  destruct (f x); [reflexivity | exact IH].
Qed.

Lemma risk_data_loop {K : ContractRoot} equity_df positions trades d codes acc :
  exists rows,
    fold_left (fun acc strategy_code =>
      risk_data <- acc ;;
      let strategy_equity :=
        filter (fun row =>
                  String.eqb (DailyEquity.strategy_code row) strategy_code
                  && String.eqb (DailyEquity.trade_date row) d)
          equity_df in
      if (0 <? length strategy_equity)%nat then
        let strategy_positions :=
          filter (fun p => String.eqb (Position.strategy_code p) strategy_code)
            positions in
        let strategy_trades :=
          filter (fun t => String.eqb (Trade.strategy_code t) strategy_code)
            trades in
        equity_row <- py_index strategy_equity 0 ;;
        daily <-
          calculate_daily_metrics equity_row strategy_positions strategy_trades ;;
        match daily with
        | Some metrics =>
            let dm := daily_metrics_to_dict metrics in
            Return (risk_data ++
                    [RiskRow.mk (DailyMetrics.strategy_code dm)
                       (DailyMetrics.margin_ratio dm)
                       (DailyMetrics.net_exposure dm)
                       (DailyMetrics.gross_exposure dm)
                       (DailyMetrics.top1_concentration dm)
                       (DailyMetrics.position_count dm)
                       (DailyMetrics.trade_count dm)
                       (DailyMetrics.turnover dm)])
        | None => Return risk_data
        end
      else Return risk_data) codes (Return acc)
    = Return (acc ++ rows)
    /\ Forall2 (fun code r =>
                  RiskRow.strategy_code r = code
                  /\ exists row m,
                       equity_on equity_df code d = Some row
                       /\ calculate_daily_metrics row
                            (filter (position_of code) positions)
                            (filter (trade_of code) trades)
                          = Return (Some m)
                       /\ RiskRow.margin_ratio r = DailyMetrics.margin_ratio m
                       /\ RiskRow.net_exposure r = DailyMetrics.net_exposure m
                       /\ RiskRow.gross_exposure r = DailyMetrics.gross_exposure m
                       /\ RiskRow.top1_concentration r
                          = DailyMetrics.top1_concentration m
                       /\ RiskRow.position_count r
                          = length (unique (map root_of
                              (filter (on_day d)
                                 (filter (position_of code) positions))))
                       /\ RiskRow.trade_count r
                          = length (filter (traded_on d)
                                      (filter (trade_of code) trades)))
         (filter (reported equity_df d) codes) rows.
Proof.
  revert acc. induction codes as [|code codes IH]; intros acc.
  - exists []. split; [simpl; now rewrite app_nil_r | constructor].
  - cbn [fold_left bind filter]. cbv zeta.
    unfold reported at 1, equity_on. rewrite filter_head_find.
    destruct (filter (fun row =>
                String.eqb (DailyEquity.strategy_code row) code
                && String.eqb (DailyEquity.trade_date row) d) equity_df)
      as [|row rest] eqn:Erows; cbn [length Nat.ltb Nat.leb hd_error];
      [apply IH|].
    unfold py_index. cbn [nth_error bind].
    assert (Hrow : DailyEquity.strategy_code row = code
                   /\ DailyEquity.trade_date row = d).
    { assert (Hin : In row (row :: rest)) by now left.
      rewrite <- Erows in Hin. apply filter_In in Hin as [_ Hin].
      apply andb_true_iff in Hin as [H1 H2].
      now apply String.eqb_eq in H1, H2. }
    destruct Hrow as [Hcode Hdate].
    destruct (pf_leb (DailyEquity.equity row) (Fin 0)) eqn:Ele.
    + rewrite (calculate_daily_metrics_absent _ _ _ Ele). cbn [bind negb].
      apply IH.
    + destruct (calculate_daily_metrics_returns row
                  (filter (fun p => String.eqb (Position.strategy_code p) code)
                     positions)
                  (filter (fun t => String.eqb (Trade.strategy_code t) code)
                     trades) Ele)
        as (m & Hm & Hs & _ & _ & _ & _ & _ & _ & Hc & Htc & _).
      rewrite Hm. cbn [bind negb].
      match goal with
      | |- exists rows, fold_left _ _ (Return (acc ++ [?r])) = _ /\ _ =>
          destruct (IH (acc ++ [r])) as (rows & Hr & H2);
          exists (r :: rows)
      end.
      split.
      * rewrite <- app_assoc in Hr. exact Hr.
      * constructor; [|exact H2]. unfold daily_metrics_to_dict.
        cbn [RiskRow.strategy_code RiskRow.margin_ratio RiskRow.net_exposure
             RiskRow.gross_exposure RiskRow.top1_concentration
             RiskRow.position_count RiskRow.trade_count].
        split; [now rewrite Hs|].
        exists row, m. rewrite filter_head_find, Erows.
        split; [reflexivity|]. split; [exact Hm|].
        repeat (split; [reflexivity|]).
        cbv zeta in Hc, Htc. rewrite Hdate in Hc, Htc. split.
        -- rewrite Hc, <- (length_map fst), exposure_loop_keys. reflexivity.
        -- exact Htc.
Qed.

(** X20: on at least one equity record the risk section of
    [export_data] does not raise.  It reports the latest trading day of
    the equity records, with at most one row per strategy: a row for each strategy whose first equity record of
    that day has an equity that is not zero or less.  The row is
    computed from the positions and trades of that strategy alone: its
    position count is the number of distinct contract roots among the
    strategy's positions of that day, and its trade count the number of
    the strategy's trades of that day. *)
Theorem export_risk_rows {K : ContractRoot} (equity_df : list DailyEquity.t)
  (position_dicts : list Position.t) (trade_dicts : list Trade.t) :
  equity_df <> [] ->
  let latest_date := str_max (map DailyEquity.trade_date equity_df) in
  exists rows,
    risk_data equity_df position_dicts trade_dicts = Return rows
    /\ map RiskRow.strategy_code rows
       = filter (reported equity_df latest_date)
           (unique (map DailyEquity.strategy_code equity_df))
    /\ NoDup (map RiskRow.strategy_code rows)
    /\ Forall (fun r =>
         let code := RiskRow.strategy_code r in
         exists row m,
           equity_on equity_df code latest_date = Some row
           /\ calculate_daily_metrics row
                (filter (position_of code) position_dicts)
                (filter (trade_of code) trade_dicts)
              = Return (Some m)
           /\ RiskRow.margin_ratio r = DailyMetrics.margin_ratio m
           /\ RiskRow.net_exposure r = DailyMetrics.net_exposure m
           /\ RiskRow.gross_exposure r = DailyMetrics.gross_exposure m
           /\ RiskRow.top1_concentration r = DailyMetrics.top1_concentration m
           /\ RiskRow.position_count r
              = length (unique (map root_of
                  (filter (on_day latest_date)
                     (filter (position_of code) position_dicts))))
           /\ RiskRow.trade_count r
              = length (filter (traded_on latest_date)
                          (filter (trade_of code) trade_dicts)))
         rows.
Proof.
  intros _. cbv zeta.
  destruct (risk_data_loop equity_df position_dicts trade_dicts
              (str_max (map DailyEquity.trade_date equity_df))
              (unique (map DailyEquity.strategy_code equity_df)) [])
    as (rows & Hr & H2).
  exists rows. split; [exact Hr|].
  assert (Hcodes : map RiskRow.strategy_code rows
                   = filter (reported equity_df
                               (str_max (map DailyEquity.trade_date equity_df)))
                       (unique (map DailyEquity.strategy_code equity_df))).
  { clear - H2. induction H2 as [|code r codes rows [Hc _] _ IH]; simpl;
      [reflexivity|]. now rewrite Hc, IH. }
  split; [exact Hcodes|]. split.
  - rewrite Hcodes. apply NoDup_filter, unique_NoDup.
  - clear - H2. induction H2 as [|code r codes rows [Hc H] _ IH];
      constructor; [|exact IH].
    cbv zeta. rewrite Hc. exact H.
Qed.

(** The theorem at [steady_equity], with the positions and trades of
    another day. *)
Lemma export_risk_rows_witness :
  exists rows,
    risk_data (K:=ascii_contract_root)
        steady_equity loss_positions loss_trades = Return rows
    /\ map RiskRow.strategy_code rows = ["s1"].
Proof.
  destruct (export_risk_rows (K:=ascii_contract_root)
      steady_equity loss_positions loss_trades)
    as (rows & Hr & Hc & _).
  - discriminate.
  - exists rows. split; [exact Hr | exact Hc].
Defined.

(** ** An equity that is not a number *)

(** X21: an equity of NaN is not caught by the guard [equity <= 0]:
    [calculate_daily_metrics] returns a record, in which the margin
    ratio, the net exposure and the gross exposure are zero (the guard
    [equity > 0] of each division fails), while the position count is
    that of the trading day. *)
Theorem daily_metrics_of_undefined_equity {K : ContractRoot}
  (equity_row : DailyEquity.t)
  (positions : list Position.t) (trades : list Trade.t) :
  DailyEquity.equity equity_row = NaN ->
  exists m,
    calculate_daily_metrics equity_row positions trades = Return (Some m)
    /\ fin_zero (DailyMetrics.margin_ratio m)
    /\ fin_zero (DailyMetrics.net_exposure m)
    /\ fin_zero (DailyMetrics.gross_exposure m)
    /\ DailyMetrics.position_count m
       = length (unique (map root_of
                   (filter (on_day (DailyEquity.trade_date equity_row))
                      positions))).
Proof.
  intros E.
  assert (Hle : pf_leb (DailyEquity.equity equity_row) (Fin 0) = false)
    by now rewrite E.
  destruct (calculate_daily_metrics_ratios equity_row positions trades Hle)
    as (m & Hm & Hr & Hn & Hg).
  destruct (calculate_daily_metrics_returns equity_row positions trades Hle)
    as (m' & Hm' & _ & _ & _ & _ & _ & _ & _ & Hc & _).
  rewrite Hm in Hm'. injection Hm' as <-.
  cbv zeta in Hr, Hn, Hg, Hc. rewrite E in Hr, Hn, Hg. simpl in Hr, Hn, Hg.
  assert (Hz : fin_zero (Fin (py_round 0 4)))
    by (eexists; split; [reflexivity | apply py_round_0]).
  assert (Hz6 : fin_zero (Fin (py_round 0 6)))
    by (eexists; split; [reflexivity | apply py_round_0]).
  exists m. split; [exact Hm|].
  rewrite Hr, Hn, Hg. repeat split; try assumption.
  rewrite Hc, <- (length_map fst), exposure_loop_keys. reflexivity.
Qed.

(** The theorem at a row of [loss_positions]' day whose equity is NaN. *)
Lemma daily_metrics_of_undefined_equity_witness :
  exists m,
    calculate_daily_metrics (K:=ascii_contract_root)
      (DailyEquity.mk "s1" "2025-12-01" (Fin 0) NaN (Fin 5000))
      loss_positions []
    = Return (Some m)
    /\ fin_zero (DailyMetrics.margin_ratio m)
    /\ DailyMetrics.position_count m = 2%nat.
Proof.
  destruct (daily_metrics_of_undefined_equity (K:=ascii_contract_root)
              (DailyEquity.mk "s1" "2025-12-01" (Fin 0) NaN (Fin 5000))
              loss_positions [] eq_refl) as (m & Hm & Hr & _ & _ & Hc).
  exists m. repeat split; assumption.
Defined.
